(** * SECS: a shallow embedding of the entity/component storage engine

    The development follows the headers of the library:
    - [Utils]            compile-time type lists ([take], [merge], [sortList]);
    - [Component]        component ids and the type-erased column operations;
    - [EntityRecord]     the generational slot table ([Reserve], [Release]);
    - [ArchetypeManager] archetype blocks ([Find], [ReserveRecord], [RemoveRow],
                         [LookupCache]);
    - [EntityReference]  versioned handles ([Access], [Destroy]);
    - [World]            entity creation.

    Conventions.  C++ unsigned integers are integers in [Z]; a conversion to a
    narrower type is written out ([toIndex] for [uint16_t], [toU8] for
    [uint8_t]).  Arrays are lists whose length is the allocated size.  An
    operation returns [None] when the C++ code would read or write outside an
    allocated array (undefined behaviour).  The outcome of an allocation
    request for one of the arrays that grow with the entities (the slot
    table, the row table and the columns of a block) is given by an oracle
    [alloc_ok]; the standard containers and the column table of a new block
    are taken to find their memory.  The slot table and the columns are
    allocated by plain new-expressions, which do not yield a null pointer:
    where the oracle says [false] they throw [std::bad_alloc], and the
    operations that reach one have an [outcome], of which the exception is
    one case.  The row table is allocated by [realloc], which yields a null
    pointer instead. *)

From Stdlib Require Import ZArith List Lia Bool Permutation.
From stdpp Require Import prelude sorting.
From Equations Require Import Equations.

Local Open Scope Z_scope.

(** ** Arrays indexed by machine integers *)

(** [get_at l i] reads [l[i]]; [set_at l i x] performs [l[i] = x]. *)
Definition get_at {A} (l : list A) (i : Z) : option A :=
  if 0 <=? i then l !! Z.to_nat i else None.

Definition set_at {A} (l : list A) (i : Z) (x : A) : option (list A) :=
  if (0 <=? i) && (i <? Z.of_nat (length l))
  then Some (<[Z.to_nat i := x]> l) else None.

(** Number of elements of an array, as a [size_t]. *)
Definition len {A} (l : list A) : Z := Z.of_nat (length l).

(** [n] fresh elements, as left by [new T[n]]. *)
Definition fresh {A} (n : Z) (x : A) : list A := replicate (Z.to_nat n) x.

(** [i], [i + 1], ... : [n] consecutive integers. *)
Fixpoint count_up (n : nat) (i : Z) : list Z :=
  match n with
  | O => []
  | S n' => i :: count_up n' (i + 1)
  end.

(** Monadic left fold: the body of a loop run over the listed iterations. *)
Fixpoint foldM {A B} (f : A → B → option A) (a : A) (l : list B) : option A :=
  match l with
  | [] => Some a
  | b :: l' => a' ← f a b; foldM f a' l'
  end.

(** ** How a call ends

    A call that reaches a new-expression returns a value, is left by the
    [std::bad_alloc] of a failed allocation, or has undefined behaviour.
    The library has no handler, so the exception leaves every call that is
    under way; [Throws s] gives the state [s] it leaves behind. *)
Inductive outcome (S A : Type) : Type :=
| Returns (a : A)
| Throws (s : S)
| Undefined.
Arguments Returns {S A} a.
Arguments Throws {S A} s.
Arguments Undefined {S A}.

#[global] Instance outcome_ret {S} : MRet (outcome S) := λ A a, Returns a.
#[global] Instance outcome_bind {S} : MBind (outcome S) := λ A B k m,
  match m with
  | Returns a => k a
  | Throws s => Throws s
  | Undefined => Undefined
  end.

(** A step that allocates nothing, within such a call. *)
Definition defined {S A} (x : option A) : outcome S A :=
  match x with
  | Some a => Returns a
  | None => Undefined
  end.

(** The value of a call that returns. *)
Definition returned {S A} (m : outcome S A) : option A :=
  match m with
  | Returns a => Some a
  | _ => None
  end.

(** A call made from a caller whose state is [f s] when the callee's is
    [s]: an exception of the callee leaves the caller in that state. *)
Definition in_state {S S' A} (f : S → S') (m : outcome S A) : outcome S' A :=
  match m with
  | Returns a => Returns a
  | Throws s => Throws (f s)
  | Undefined => Undefined
  end.

(** The body of a loop run over the listed iterations, for a body that
    may throw. *)
Fixpoint foldO {S A B} (f : A → B → outcome S A) (a : A) (l : list B)
    : outcome S A :=
  match l with
  | [] => Returns a
  | b :: l' => a' ← f a b; foldO f a' l'
  end.

(** ** Component types

    A component type is known to the library through two compile-time
    counters: [TypeInfo::ID<T>] (Utils.hpp), which orders type lists, and
    [Component::Id<T>] (Component.hpp), which numbers the signature bits. *)
Record CType := mkCType { TypeInfo_ID : Z; Component_Id : Z }.

(** ** Utils.hpp: type lists *)
Module Utils.

(** [lessThan<Left, Right>] *)
Definition lessThan (Left Right : CType) : bool :=
  TypeInfo_ID Left <? TypeInfo_ID Right.

(** [take<Count, list<Ts...>>]: the pair of [type] and [rest].  A count
    above the length of the list has no specialisation. *)
Fixpoint take (Count : nat) (Ts : list CType) : list CType * list CType :=
  match Count, Ts with
  | O, _ => ([], Ts)
  | S c, A :: Ts' => let (type, rest) := take c Ts' in (A :: type, rest)
  | S _, [] => ([], [])
  end.

(** [merge<list<As...>, list<Bs...>>] *)
Fixpoint merge (As : list CType) : list CType → list CType :=
  fix merge_with (Bs : list CType) : list CType :=
    match As, Bs with
    | [], _ => Bs
    | _, [] => As
    | AHead :: As', BHead :: Bs' =>
        if lessThan AHead BHead
        then AHead :: merge As' Bs
        else BHead :: merge_with Bs'
    end.

Lemma take_length Count Ts :
  (Count ≤ length Ts)%nat →
  length (take Count Ts).1 = Count ∧
  length (take Count Ts).2 = (length Ts - Count)%nat.
Proof.
  revert Ts; induction Count as [|c IH]; intros Ts Hle; simpl.
  - split; [done | lia].
  - destruct Ts as [|A Ts']; simpl in *; [lia |].
    specialize (IH Ts' ltac:(lia)).
    destruct (take c Ts') as [type rest]; simpl in *. lia.
Qed.

Lemma take_half Ts :
  (2 ≤ length Ts)%nat →
  (length (take (length Ts / 2) Ts).1 < length Ts)%nat ∧
  (length (take (length Ts / 2) Ts).2 < length Ts)%nat.
Proof.
  intros Hlen.
  assert (Hhalf : (1 ≤ length Ts / 2 < length Ts)%nat).
  { split; [apply Nat.div_le_lower_bound | apply Nat.Div0.div_lt_upper_bound]; lia. }
  destruct (take_length (length Ts / 2) Ts ltac:(lia)) as [-> ->]. lia.
Qed.

(** [sortList<list<Types...>>]: one and two element lists are the base
    cases, longer lists are split in two halves that are sorted and merged.
    The empty list has no instantiation. *)
Equations? sortList (Types : list CType) : list CType by wf (length Types) lt :=
  sortList [] := [];
  sortList [A] := [A];
  sortList [A; B] := if lessThan A B then [A; B] else [B; A];
  sortList (A :: B :: C :: Ts) :=
    let firstSize := (length (A :: B :: C :: Ts) / 2)%nat in
    merge (sortList (take firstSize (A :: B :: C :: Ts)).1)
          (sortList (take firstSize (A :: B :: C :: Ts)).2).
Proof.
  - exact (proj1 (take_half (A :: B :: C :: Ts) ltac:(simpl; lia))).
  - exact (proj2 (take_half (A :: B :: C :: Ts) ltac:(simpl; lia))).
Qed.

End Utils.

(** ** Index types (EntityRecord.hpp) *)

(** [static_cast<Index>]: conversion to [uint16_t]. *)
Definition toIndex (z : Z) : Z := z mod 65536.

(** [InvalidIndex = ~(Index(0))] *)
Definition InvalidIndex : Z := 65535.

(** Conversion to [uint8_t]. *)
Definition toU8 (z : Z) : Z := z mod 256.

(** [size_t] subtraction, which wraps below zero. *)
Definition size_sub (a b : Z) : Z := (a - b) mod 2 ^ 64.

(** The growth step shared by the slot table and the archetype blocks:
    [(capacity == 0) ? 2 : (capacity * 2) - (capacity / 2)]. *)
Definition grow (capacity : Z) : Z :=
  if capacity =? 0 then 2 else capacity * 2 - capacity / 2.

(** ** Component.hpp *)
Module Component.

(** [BinaryId = size_t]; [MaxComponentTypes = sizeof(BinaryId) * CHAR_BIT]. *)
Definition MaxComponentTypes : Z := 64.

(** The content of one cell of a component column.  The engine never looks
    inside a component, so a cell holds an integer standing for the value;
    [DefaultValue] is the value-initialised [T{}], also taken for the cells
    of a freshly allocated [new T[n]]. *)
Definition Value : Type := Z.
Definition DefaultValue : Value := 0.

(** [IdBinary<T> = (BinaryId)1 << Id<T>] *)
Definition IdBinary (T : CType) : Z := Z.shiftl 1 (Component_Id T).

(** [MoveElement(componentId, dstArray, dstPos, srcArray, srcPos)].  The
    two arrays are named by their position in [mem], the column table of
    the block, so that a call with [dstArray == srcArray] acts on one array:
    [dst[dstPos] = std::move(src[srcPos]); new (&src[srcPos]) T{}]. *)
Definition MoveElement (mem : list (list Value))
    (dstArray dstPos srcArray srcPos : Z) : option (list (list Value)) :=
  src ← get_at mem srcArray;
  x ← get_at src srcPos;
  dst ← get_at mem dstArray;
  dst' ← set_at dst dstPos x;
  mem1 ← set_at mem dstArray dst';
  src1 ← get_at mem1 srcArray;
  src1' ← set_at src1 srcPos DefaultValue;
  set_at mem1 srcArray src1'.

(** [ResizeArray(componentId, ptrToArray, newSize, moveCount)]: the result
    flag and the array [*ptrToArray] points to afterwards.  [new T[newSize]]
    is a plain new-expression: it throws where the allocation fails, the
    array [*ptrToArray] being untouched, and is not null where it returns,
    so the test [if (!newArray)] never holds and [return false] is not
    reached.  The loop moves the cells [0 .. moveCount-1] of the original
    array into the new one, so both must have them. *)
Definition ResizeArray (alloc_ok : Z → bool) (array : list Value)
    (newSize moveCount : Z) : outcome (list Value) (bool * list Value) :=
  if alloc_ok newSize then
    if (moveCount <=? newSize) && (moveCount <=? len array)
    then Returns (true, take (Z.to_nat moveCount) array
                          ++ fresh (newSize - moveCount) DefaultValue)
    else Undefined
  else Throws array.

End Component.

(** ** EntityRecord.hpp: the slot table *)
Module EntityRecord.

Record t := mk { archetype : Z; row : Z; version : Z }.

(** The default member initialisers. *)
Definition initial : t := mk InvalidIndex InvalidIndex 0.

(** The static members, with the function-local [invalidRecord] of
    [Reserve].  The top of [freeList] is the head of the list; [records]
    has [capacity] elements. *)
Record pool := mkPool {
  capacity : Z;
  last : Z;
  freeList : list Z;
  records : list t;
  invalidRecord : t
}.

Definition empty : pool := mkPool 0 0 [] [] initial.

(** An [EntityRecord&]: an element of [records], or [invalidRecord]. *)
Inductive ref := At (index : Z) | Invalid.

Definition read (p : pool) (r : ref) : option t :=
  match r with
  | At index => get_at (records p) index
  | Invalid => Some (invalidRecord p)
  end.

Definition write (p : pool) (r : ref) (x : t) : option pool :=
  match r with
  | At index =>
      records' ← set_at (records p) index x;
      Some (mkPool (capacity p) (last p) (freeList p) records' (invalidRecord p))
  | Invalid =>
      Some (mkPool (capacity p) (last p) (freeList p) (records p) x)
  end.

(** [GetIndex()]: [static_cast<Index>(this - records)], defined for the
    elements of [records] only. *)
Definition GetIndex (r : ref) : option Z :=
  match r with
  | At index => Some (toIndex index)
  | Invalid => None
  end.

(** [Reserve()].  [capacity] is assigned before [new EntityRecord[capacity]],
    a plain new-expression: where the allocation fails it throws, and the
    exception leaves the new [capacity] with the old [records]; where it
    returns it is not null, so the branch [if (!newArray)], which restores
    [capacity] and returns [invalidRecord], is not reached.  The loop that
    moves the records counts with an [Index], so it only ends when
    [originalCapacity] is at most 65535. *)
Definition Reserve (alloc_ok : Z → bool) (p : pool) : outcome pool (pool * ref) :=
  match freeList p with
  | index :: rest =>
      Returns (mkPool (capacity p) (last p) rest (records p) (invalidRecord p),
               At index)
  | [] =>
      if last p >=? capacity p then
        let originalCapacity := capacity p in
        let capacity' := grow originalCapacity in
        if alloc_ok capacity' then
          if (originalCapacity <=? 65535) && (originalCapacity <=? len (records p))
          then
            let newArray := take (Z.to_nat originalCapacity) (records p)
                              ++ fresh (capacity' - originalCapacity) initial in
            Returns (mkPool capacity' (last p + 1) [] newArray (invalidRecord p),
                     At (last p))
          else Undefined
        else
          Throws (mkPool capacity' (last p) [] (records p) (invalidRecord p))
      else
        Returns (mkPool (capacity p) (last p + 1) [] (records p) (invalidRecord p),
                 At (last p))
  end.

(** The loop of [Release]:
    [while (last > 0 && !freeList.empty() && freeList.top() == last - 1)]. *)
Fixpoint popTrailing (last : Z) (freeList : list Z) : Z * list Z :=
  match freeList with
  | top :: rest =>
      if (0 <? last) && (top =? last - 1)
      then popTrailing (last - 1) rest
      else (last, freeList)
  | [] => (last, [])
  end.

(** [records[this].Release()] *)
Definition Release (p : pool) (this : Z) : option pool :=
  r ← get_at (records p) this;
  let released := mk InvalidIndex InvalidIndex (toIndex (version r + 1)) in
  records' ← set_at (records p) this released;
  let index := toIndex this in
  if index =? size_sub (last p) 1 then
    let (last', freeList') := popTrailing (last p - 1) (freeList p) in
    Some (mkPool (capacity p) last' freeList' records' (invalidRecord p))
  else
    Some (mkPool (capacity p) (last p) (index :: freeList p) records'
            (invalidRecord p)).

End EntityRecord.

(** ** Archetype.hpp: archetype blocks *)
Module ArchetypeManager.
Import Component.

(** [Unused = ~(InternalIndex(0))], an [uint8_t]. *)
Definition Unused : Z := 255.

Record t := mk {
  id : Z;
  recordIndices : list Z;
  componentArrays : list (list Value);
  internalIndex : list Z;
  capacity : Z;
  size : Z
}.

(** The static members of [EntityRecord] and [ArchetypeManager]. *)
Record state := mkState {
  pool : EntityRecord.pool;
  managers : list t
}.

Definition empty : state := mkState EntityRecord.empty [].

(** [EachComponent(id, lambda)]: the component ids [lambda] is called
    with, in call order.  The do-while loop shifts the 64-bit [id] to the
    right until it is zero, so it runs at most 64 times. *)
Fixpoint EachComponent_loop (n : nat) (id componentId : Z) : list Z :=
  match n with
  | O => []
  | S n' =>
      (if Z.land 1 id =? 0 then [] else [componentId])
      ++ (if Z.shiftr id 1 =? 0 then []
          else EachComponent_loop n' (Z.shiftr id 1) (componentId + 1))
  end.

Definition EachComponent (id : Z) : list Z := EachComponent_loop 64 id 0.

(** [InternalIndex internalIndex[MaxComponentTypes] = { Unused }]: the
    initialiser list gives the first element, the others are
    zero-initialised. *)
Definition initialInternalIndex : list Z :=
  Unused :: fresh (MaxComponentTypes - 1) 0.

(** [ArchetypeManager(BinaryId newId)]; [localComponentCount] is an
    [uint8_t].  The move constructor, which [push_back] uses, carries all
    members over unchanged. *)
Definition construct (newId : Z) : t :=
  let '(internalIndex', localComponentCount) :=
    fold_left (λ '(ii, count) componentId,
                 (<[Z.to_nat componentId := count]> ii, toU8 (count + 1)))
              (EachComponent newId) (initialInternalIndex, 0) in
  mk newId [] (fresh localComponentCount []) internalIndex' 0 0.

(** [Find(id)]: the managers afterwards and the index returned. *)
Fixpoint Find_loop (rest : list t) (i : Z) (id' : Z) : option Z :=
  match rest with
  | [] => None
  | m :: rest' => if id m =? id' then Some i else Find_loop rest' (i + 1) id'
  end.

Definition Find (managers : list t) (id' : Z) : list t * Z :=
  match Find_loop managers 0 id' with
  | Some i => (managers, i)
  | None => (managers ++ [construct id'], len managers)
  end.

(** [HelperImplementation<T...>::id = (Component::IdBinary<T> | ...)], a
    right fold without initial value. *)
Fixpoint fold_or (ids : list Z) : Z :=
  match ids with
  | [] => 0
  | [x] => x
  | x :: rest => Z.lor x (fold_or rest)
  end.

Definition HelperImplementation_id (T : list CType) : Z :=
  fold_or (map IdBinary T).

(** [Helper<Ts...> = Instantiate<HelperImplementation, SortedList<list<Ts...>>>] *)
Definition Helper_id (Ts : list CType) : Z :=
  HelperImplementation_id (Utils.sortList Ts).

(** [Helper<Ts...>::GetInstance()].  The index is looked up by [Find] at
    the first call and kept; as blocks are only ever appended and [Find]
    returns the first block with the signature, looking it up again gives
    the same index. *)
Definition GetInstance (managers : list t) (Ts : list CType) : list t * Z :=
  Find managers (Helper_id Ts).

(** [Contains(expected)] *)
Definition Contains (m : t) (expected : Z) : bool :=
  Z.land (id m) expected =? expected.

(** [LookupCacheImplementation<T...>]: its two static members.
    [matchedIndices] is a [std::vector<uint16_t>]. *)
Record LookupCache := mkCache {
  lastIndexChecked : Z;
  matchedIndices : list Z
}.

Definition emptyCache : LookupCache := mkCache 0 [].

(** The while loop of [Update], over the managers from [cacheIterator] on. *)
Fixpoint Update_loop (expected : Z) (rest : list t) (c : LookupCache)
    : LookupCache :=
  match rest with
  | [] => c
  | manager :: rest' =>
      Update_loop expected rest'
        (mkCache (lastIndexChecked c + 1)
           (if Contains manager expected
            then matchedIndices c ++ [toIndex (lastIndexChecked c)]
            else matchedIndices c))
  end.

(** [Update()] for the cache whose key has the signature [expected]. *)
Definition Update_with (expected : Z) (managers : list t) (c : LookupCache)
    : LookupCache :=
  if lastIndexChecked c <? len managers
  then Update_loop expected (drop (Z.to_nat (lastIndexChecked c)) managers) c
  else c.

(** [LookupCache<Ts...>::Update()]: the cache is instantiated on the sorted
    list and tests [Helper<T...>::id] of it. *)
Definition Update (Ts : list CType) (managers : list t) (c : LookupCache)
    : LookupCache :=
  Update_with (Helper_id (Utils.sortList Ts)) managers c.

(** A [T*] into a block: null, or the cell [row] of the array at position
    [array] of [componentArrays]. *)
Inductive ptr := nullptr | cell (array row : Z).

(** [GetComponentArray<T>()[row]] as a pointer. *)
Definition GetComponentArray (m : t) (T : CType) (row : Z) : option ptr :=
  index ← get_at (internalIndex m) (Component_Id T);
  _ ← get_at (componentArrays m) index;
  Some (cell index row).

(** [GetComponent<T>(row)] *)
Definition GetComponent (m : t) (T : CType) (row : Z) : option ptr :=
  index ← get_at (internalIndex m) (Component_Id T);
  if index =? Unused then Some nullptr
  else _ ← get_at (componentArrays m) index; Some (cell index row).

(** Reading and writing through a pointer into the block. *)
Definition load (m : t) (p : ptr) : option Value :=
  match p with
  | nullptr => None
  | cell array row => column ← get_at (componentArrays m) array; get_at column row
  end.

Definition store (m : t) (p : ptr) (x : Value) : option t :=
  match p with
  | nullptr => None
  | cell array row =>
      column ← get_at (componentArrays m) array;
      column' ← set_at column row x;
      arrays' ← set_at (componentArrays m) array column';
      Some (mk (id m) (recordIndices m) arrays' (internalIndex m)
              (capacity m) (size m))
  end.

(** [realloc(recordIndices, sizeof(Index) * n)]: the first elements are
    kept; a failed request yields the null array. *)
Definition realloc (alloc_ok : Z → bool) (array : list Z) (n : Z) : list Z :=
  if alloc_ok n
  then take (Z.to_nat n) array ++ fresh (n - len array) 0
  else [].

(** The [EachComponent] call of [ReserveRecord]: every column of the
    signature is resized to [capacity'], keeping [size] cells; the results
    of [ResizeArray] are not looked at.  An exception leaves the columns
    resized so far. *)
Definition resizeColumns (alloc_ok : Z → bool) (m : t) (capacity' : Z)
    : outcome (list (list Value)) (list (list Value)) :=
  foldO (λ arrays componentId,
           k ← defined (get_at (internalIndex m) componentId);
           array ← defined (get_at arrays k);
           '(_, array') ← in_state (λ _, arrays)
                            (ResizeArray alloc_ok array capacity' (size m));
           defined (set_at arrays k array'))
        (componentArrays m) (EachComponent (id m)).

(** [managers[this].ReserveRecord()].  An exception of [Reserve] leaves
    the blocks as they were; one of [ResizeArray] leaves the slot reserved
    and the block with its new [capacity] and [recordIndices], and the
    columns resized so far. *)
Definition ReserveRecord (alloc_ok : Z → bool) (s : state) (this : Z)
    : outcome state (state * EntityRecord.ref) :=
  '(pool1, entityRecord) ← in_state (λ pool', mkState pool' (managers s))
                             (EntityRecord.Reserve alloc_ok (pool s));
  m ← defined (get_at (managers s) this);
  m1 ← (if size m >=? capacity m then
          let capacity' := toIndex (grow (capacity m)) in
          let recordIndices' := realloc alloc_ok (recordIndices m) capacity' in
          arrays' ← in_state
                      (λ arrays,
                         mkState pool1
                           (<[Z.to_nat this :=
                                mk (id m) recordIndices' arrays (internalIndex m)
                                   capacity' (size m)]> (managers s)))
                      (resizeColumns alloc_ok m capacity');
          Returns (mk (id m) recordIndices' arrays' (internalIndex m)
                     capacity' (size m))
        else Returns m);
  index ← defined (EntityRecord.GetIndex entityRecord);
  recordIndices' ← defined (set_at (recordIndices m1) (size m1) index);
  r ← defined (EntityRecord.read pool1 entityRecord);
  pool2 ← defined (EntityRecord.write pool1 entityRecord
                     (EntityRecord.mk (toIndex this) (size m1)
                        (EntityRecord.version r)));
  managers' ← defined (set_at (managers s) this
                         (mk (id m1) recordIndices' (componentArrays m1)
                            (internalIndex m1) (capacity m1)
                            (toIndex (size m1 + 1))));
  Returns (mkState pool2 managers', entityRecord).

(** The [EachComponent] call of [RemoveRow]: in every column of the
    signature the cell [lastRow] is moved to [row]. *)
Definition moveRows (m : t) (row lastRow : Z) : option (list (list Value)) :=
  foldM (λ arrays componentId,
           k ← get_at (internalIndex m) componentId;
           MoveElement arrays k row k lastRow)
        (componentArrays m) (EachComponent (id m)).

(** [managers[this].RemoveRow(row)] *)
Definition RemoveRow (s : state) (this row : Z) : option state :=
  m ← get_at (managers s) this;
  let size' := if size m =? 0 then 0 else size m - 1 in
  let lastRow := size' in
  if negb (row =? lastRow) then
    arrays' ← moveRows m row lastRow;
    removed ← get_at (recordIndices m) row;
    pool1 ← EntityRecord.Release (pool s) removed;
    moved ← get_at (recordIndices m) lastRow;
    r ← EntityRecord.read pool1 (EntityRecord.At moved);
    pool2 ← EntityRecord.write pool1 (EntityRecord.At moved)
              (EntityRecord.mk (EntityRecord.archetype r) row
                 (EntityRecord.version r));
    recordIndices' ← set_at (recordIndices m) row moved;
    managers' ← set_at (managers s) this
                  (mk (id m) recordIndices' arrays' (internalIndex m)
                     (capacity m) size');
    Some (mkState pool2 managers')
  else
    managers' ← set_at (managers s) this
                  (mk (id m) (recordIndices m) (componentArrays m)
                     (internalIndex m) (capacity m) size');
    Some (mkState (pool s) managers').

(** [EachCommonComponent(idA, idB, lambda)]: the component ids [lambda] is
    called with.  The loop goes on while both shifted signatures are
    non-zero; [idB] is only shifted when the shifted [idA] is non-zero. *)
Fixpoint EachCommonComponent_loop (n : nat) (idA idB componentId : Z) : list Z :=
  match n with
  | O => []
  | S n' =>
      (if Z.land (Z.land 1 idA) idB =? 0 then [] else [componentId])
      ++ (if Z.shiftr idA 1 =? 0 then []
          else if Z.shiftr idB 1 =? 0 then []
          else EachCommonComponent_loop n' (Z.shiftr idA 1) (Z.shiftr idB 1)
                 (componentId + 1))
  end.

Definition EachCommonComponent (idA idB : Z) : list Z :=
  EachCommonComponent_loop 64 idA idB 0.

(** The [EachCommonComponent] call of [MoveEntity]: for each component of
    both signatures, the cell [sourceRow] of its column in the block
    [source] is moved to the cell [row] of its column in the block [this].
    The columns of two blocks are different arrays: [MoveElement] acts on
    the column table of the block when the two blocks are the same, and on
    the two column tables laid side by side when they are not. *)
Definition moveCommon (managers : list t) (this source row sourceRow : Z)
    (componentId : Z) : option (list t) :=
  dst ← get_at managers this;
  src ← get_at managers source;
  arrayPtr ← get_at (internalIndex dst) componentId;
  srcArrayPtr ← get_at (internalIndex src) componentId;
  if this =? source then
    arrays' ← MoveElement (componentArrays dst) arrayPtr row srcArrayPtr sourceRow;
    set_at managers this
      (mk (id dst) (recordIndices dst) arrays' (internalIndex dst)
         (capacity dst) (size dst))
  else
    _ ← get_at (componentArrays dst) arrayPtr;
    _ ← get_at (componentArrays src) srcArrayPtr;
    let n := length (componentArrays dst) in
    mem' ← MoveElement (componentArrays dst ++ componentArrays src)
             arrayPtr row (len (componentArrays dst) + srcArrayPtr) sourceRow;
    managers1 ← set_at managers this
                  (mk (id dst) (recordIndices dst) (take n mem')
                     (internalIndex dst) (capacity dst) (size dst));
    set_at managers1 source
      (mk (id src) (recordIndices src) (drop n mem') (internalIndex src)
         (capacity src) (size src)).

(** [managers[this].MoveEntity(&managers[source], sourceRow)];
    [RemoveRow] takes its row as an [Index]. *)
Definition MoveEntity (alloc_ok : Z → bool) (s : state)
    (this source sourceRow : Z) : outcome state (state * EntityRecord.ref) :=
  '(s1, record) ← ReserveRecord alloc_ok s this;
  r ← defined (EntityRecord.read (pool s1) record);
  dst ← defined (get_at (managers s1) this);
  src ← defined (get_at (managers s1) source);
  managers2 ← defined
                (foldM (λ managers componentId,
                          moveCommon managers this source (EntityRecord.row r)
                            sourceRow componentId)
                   (managers s1) (EachCommonComponent (id dst) (id src)));
  s3 ← defined (RemoveRow (mkState (pool s1) managers2) source
                  (toIndex sourceRow));
  Returns (s3, record).

(** [HelperImplementation<T...>::AddTo(sourceID)] *)
Definition AddTo (T : list CType) (sourceID : Z) : Z :=
  Z.lor sourceID (HelperImplementation_id T).

(** [HelperImplementation<T...>::RemoveFrom(sourceID)]; [~id] is the
    complement in 64 bits. *)
Definition RemoveFrom (T : list CType) (sourceID : Z) : Z :=
  Z.land sourceID (Z.lnot (HelperImplementation_id T) mod 2 ^ 64).

End ArchetypeManager.

(** ** EntityReference.hpp: versioned handles *)
Module EntityReference.
Import Component ArchetypeManager.

Record t := mk { recordIndex : Z; version : Z }.

(** [EntityReference()] *)
Definition null : t := mk InvalidIndex InvalidIndex.

(** [EntityReference(const EntityRecord& record)] *)
Definition of_record (p : EntityRecord.pool) (record : EntityRecord.ref)
    : option t :=
  index ← EntityRecord.GetIndex record;
  r ← EntityRecord.read p record;
  Some (mk index (EntityRecord.version r)).

(** [Access(lambda)], for a lambda whose parameters have the types
    [Components]: the status returned and, when the lambda is invoked, the
    index of the block and the pointers it is invoked with. *)
Definition Access (s : state) (h : t) (Components : list CType)
    : option (bool * option (Z * list ptr)) :=
  if negb (recordIndex h =? InvalidIndex) then
    record ← get_at (EntityRecord.records (pool s)) (recordIndex h);
    if version h =? EntityRecord.version record then
      archetype ← get_at (managers s) (EntityRecord.archetype record);
      args ← mapM (λ T, GetComponent archetype T (EntityRecord.row record))
               Components;
      Some (true, Some (EntityRecord.archetype record, args))
    else Some (false, None)
  else Some (false, None).

(** [Destroy()]: the state and the handle afterwards. *)
Definition Destroy (s : state) (h : t) : option (state * t) :=
  if negb (recordIndex h =? InvalidIndex) then
    record ← get_at (EntityRecord.records (pool s)) (recordIndex h);
    let h' := mk InvalidIndex (version h) in
    if version h =? EntityRecord.version record then
      s' ← RemoveRow s (EntityRecord.archetype record) (EntityRecord.row record);
      Some (s', h')
    else Some (s, h')
  else Some (s, h).

(** What a lambda sees when it reads its parameter of type [T]: the result
    of [h.Access([&](T& x) { out = x; })]. *)
Definition read (s : state) (h : t) (T : CType) : option Value :=
  '(_, call) ← Access s h [T];
  '(archetype, args) ← call;
  m ← get_at (managers s) archetype;
  p ← head args;
  load m p.

End EntityReference.

(** ** World.hpp: entity creation *)
Module World.
Import Component ArchetypeManager.

(** [CreateEntity<Ts...>()] *)
Definition CreateEntity (alloc_ok : Z → bool) (s : state) (Ts : list CType)
    : outcome state (state * EntityReference.t) :=
  let (managers', manager) := GetInstance (managers s) Ts in
  '(s', record) ← ReserveRecord alloc_ok (mkState (pool s) managers') manager;
  h ← defined (EntityReference.of_record (pool s') record);
  Returns (s', h).

(** The stores of an initialising lambda: the values are written through
    the pointers the lambda receives, one for each type of [Ts]. *)
Fixpoint initialise (m : t) (row : Z) (Ts : list CType) (values : list Value)
    : option t :=
  match Ts, values with
  | T :: Ts', x :: values' =>
      p ← GetComponentArray m T row;
      m' ← store m p x;
      initialise m' row Ts' values'
  | _, _ => Some m
  end.

(** [CreateEntity(lambda)], for a lambda with parameter types [Ts] that
    stores [values] in its components. *)
Definition CreateEntity_with (alloc_ok : Z → bool) (s : state)
    (Ts : list CType) (values : list Value)
    : outcome state (state * EntityReference.t) :=
  let (managers', manager) := GetInstance (managers s) Ts in
  '(s', record) ← ReserveRecord alloc_ok (mkState (pool s) managers') manager;
  r ← defined (EntityRecord.read (pool s') record);
  m ← defined (get_at (managers s') manager);
  m' ← defined (initialise m (EntityRecord.row r) Ts values);
  managers'' ← defined (set_at (managers s') manager m');
  h ← defined (EntityReference.of_record (pool s') record);
  Returns (mkState (pool s') managers'', h).

(** *** [World::EntityIterator] *)
Module EntityIterator.

(** The members; [currentManager] points into [managers] and is kept as
    the index of the block. *)
Record t := mk { currentManager : option Z; currentRow : Z; stop : bool }.

(** The default member initialisers. *)
Definition initial : t := mk None InvalidIndex false.

(** [StopIteration()] *)
Definition StopIteration (it : t) : t :=
  mk (currentManager it) (currentRow it) true.

(** [GetCurrentEntity()] *)
Definition GetCurrentEntity (s : state) (it : t) : option EntityReference.t :=
  if negb (currentRow it =? InvalidIndex) then
    manager ← currentManager it;
    m ← get_at (managers s) manager;
    index ← get_at (recordIndices m) (currentRow it);
    EntityReference.of_record (pool s) (EntityRecord.At index)
  else Some EntityReference.null.

(** A lambda given to [Iterate] that works on the components it is handed
    and on an accumulator of its own, and that may have captured the
    iterator: it is called with its accumulator, the state, the iterator
    and the values its pointers point to, and returns its accumulator, the
    values it leaves behind its pointers and whether it called
    [StopIteration]. *)
Definition lambda (A : Type) : Type :=
  A → state → t → list Value → A * list Value * bool.

(** [componentArray++] *)
Definition next (p : ptr) : ptr :=
  match p with
  | nullptr => nullptr
  | cell array row => cell array (row + 1)
  end.

(** The stores of the lambda through its pointers. *)
Fixpoint store_all (m : ArchetypeManager.t) (ptrs : list ptr) (values : list Value)
    : option ArchetypeManager.t :=
  match ptrs, values with
  | p :: ptrs', x :: values' => m' ← store m p x; store_all m' ptrs' values'
  | _, _ => Some m
  end.

(** The loop over the rows of a block, from the current row on:
    [for (...; !stop && currentRow < currentManager->size; currentRow++)
       lambda(componentArray++...);]
    [fuel] bounds the number of times the condition is tested. *)
Fixpoint rows {A} (fuel : nat) (f : lambda A) (manager : Z)
    (componentArray : list ptr) (s : state) (it : t) (acc : A)
    : option (state * t * A) :=
  match fuel with
  | O => None
  | S fuel' =>
      m ← get_at (managers s) manager;
      if negb (stop it) && (currentRow it <? size m) then
        values ← mapM (load m) componentArray;
        let '(acc', values', stopped) := f acc s it values in
        m' ← store_all m componentArray values';
        managers' ← set_at (managers s) manager m';
        rows fuel' f manager (next <$> componentArray)
          (mkState (pool s) managers')
          (mk (currentManager it) (toIndex (currentRow it + 1))
             (stop it || stopped))
          acc'
      else Some (s, it, acc)
  end.

(** The body of the loop over the matched blocks: after a [break] nothing
    more is done; otherwise [currentManager] is set and the rows of the
    block are gone through, with the pointers to the columns of
    [Components] taken once.  The lambdas modelled leave the number of rows
    of a block alone, so the loop over the rows tests its condition at most
    once more than the block has rows. *)
Definition block {A} (f : lambda A) (Components : list CType)
    (st : state * t * A) (managerIndex : Z) : option (state * t * A) :=
  let '(s, it, acc) := st in
  if stop it then Some (s, it, acc)
  else
    m ← get_at (managers s) managerIndex;
    componentArray ← mapM (λ T, GetComponentArray m T 0) Components;
    rows (S (Z.to_nat (size m))) f managerIndex componentArray s
      (mk (Some managerIndex) 0 (stop it)) acc.

(** [Iterate(lambda)], for a lambda whose parameters have the types
    [Components]. *)
Definition Iterate {A} (f : lambda A) (Components : list CType) (s : state)
    (c : LookupCache) (it : t) (acc : A)
    : option (state * LookupCache * t * A) :=
  let c' := Update Components (managers s) c in
  '(s', it', acc') ←
    foldM (block f Components)
          (s, mk (currentManager it) (currentRow it) false, acc)
          (matchedIndices c');
  Some (s', c', mk (currentManager it') InvalidIndex (stop it'), acc').

End EntityIterator.

End World.

(** ** Example data *)
Module Examples.
Import Component ArchetypeManager.

(** An allocator that grants every request, and one that refuses all. *)
Definition always : Z → bool := λ _, true.
Definition never : Z → bool := λ _, false.

(** Three component types, numbered in declaration order. *)
Definition Position : CType := mkCType 0 0.
Definition Velocity : CType := mkCType 1 1.
Definition Health : CType := mkCType 2 2.

(** One entity with a [Position]. *)
Definition one_entity : outcome state (state * EntityReference.t) :=
  World.CreateEntity_with always empty [Position] [10].

(** Three entities with [Position] and [Velocity] in one block; the
    second is created with its types listed in the other order. *)
Definition three_entities
    : outcome state
        (state * EntityReference.t * EntityReference.t * EntityReference.t) :=
  '(s1, e0) ← World.CreateEntity_with always empty [Position; Velocity] [10; 20];
  '(s2, e1) ← World.CreateEntity_with always s1 [Velocity; Position] [21; 11];
  '(s3, e2) ← World.CreateEntity_with always s2 [Position; Velocity] [12; 22];
  Returns (s3, e0, e1, e2).

(** The state and the handles of [three_entities], written out. *)
Definition block3 : t :=
  mk 3 [0; 1; 2] [[10; 11; 12]; [20; 21; 22]]
     (internalIndex (construct 3)) 3 3.

Definition state3 : state :=
  mkState
    (EntityRecord.mkPool 3 3 []
       [EntityRecord.mk 0 0 0; EntityRecord.mk 0 1 0; EntityRecord.mk 0 2 0]
       EntityRecord.initial)
    [block3].

Definition e0 : EntityReference.t := EntityReference.mk 0 0.
Definition e1 : EntityReference.t := EntityReference.mk 1 0.
Definition e2 : EntityReference.t := EntityReference.mk 2 0.

(** The state [state3] with a second, empty block for the entities that
    have a [Position] only. *)
Definition two_blocks : state :=
  mkState (pool state3) (managers state3 ++ [construct (IdBinary Position)]).

(** The slot table of [state3] once [e1] is destroyed: slot 1 is on the
    free list, slot 2 is the highest active index. *)
Definition pool_hole : EntityRecord.pool :=
  EntityRecord.mkPool 3 3 [1]
    [EntityRecord.mk 0 0 0; EntityRecord.mk InvalidIndex InvalidIndex 1;
     EntityRecord.mk 0 1 0]
    EntityRecord.initial.

(** Entities with a [Position] created one after the other, with the
    given values. *)
Fixpoint create_all (values : list Value) (s : state) : outcome state state :=
  match values with
  | [] => Returns s
  | v :: values' =>
      '(s', _) ← World.CreateEntity_with always s [Position] [v];
      create_all values' s'
  end.

(** The capacity of a block, and of the slot table, after [n] reservations
    from the start. *)
Fixpoint capacity_after (n : nat) : Z :=
  match n with
  | O => 0
  | S n' =>
      let c := capacity_after n' in
      if Z.of_nat n' >=? c then toIndex (grow c) else c
  end.

(** The values the capacity takes below the 16-bit limit. *)
Definition capacities : list Z :=
  [0; 2; 3; 5; 8; 12; 18; 27; 41; 62; 93; 140; 210; 315; 473; 710; 1065; 1598;
   2397; 3596; 5394; 8091; 12137; 18206; 27309; 40964; 61446].

(** The state after the entities with the given values were created: the
    slot [i] and the row [i] belong to the entity number [i]. *)
Definition pool_after (n : nat) : EntityRecord.pool :=
  EntityRecord.mkPool (capacity_after n) (Z.of_nat n) []
    (((λ i, EntityRecord.mk 0 i 0) <$> count_up n 0)
       ++ fresh (capacity_after n - Z.of_nat n) EntityRecord.initial)
    EntityRecord.initial.

Definition block_after (values : list Value) : t :=
  let n := length values in
  mk 1 (count_up n 0 ++ fresh (capacity_after n - Z.of_nat n) 0)
     [values ++ fresh (capacity_after n - Z.of_nat n) DefaultValue]
     (internalIndex (construct 1)) (capacity_after n) (Z.of_nat n).

Definition state_after (values : list Value) : state :=
  mkState (pool_after (length values)) [block_after values].

(** A block with one component and 61446 rows, all occupied, and the slot
    table that goes with it: the state after 61446 entities with a
    [Position] were created, the capacity of the block having grown
    2, 3, 5, 8, ..., 40964, 61446. *)
Definition full_block : t :=
  mk 1 (count_up (Z.to_nat 61446) 0) [fresh 61446 7]
     (internalIndex (construct 1)) 61446 61446.

Definition full_state : state :=
  mkState
    (EntityRecord.mkPool 61446 61446 []
       ((λ i, EntityRecord.mk 0 i 0) <$> count_up (Z.to_nat 61446) 0)
       EntityRecord.initial)
    [full_block].

End Examples.

(** ** Queries over a growing set of blocks *)
Module Queries.
Import ArchetypeManager.

(** What happens between program start and a point of interest, as far as
    the cache of one query key sees it: a block is looked up by signature
    and created when new ([Find]), or the cache is brought up to date
    ([Update]). *)
Inductive event := Create (id' : Z) | Query.

Definition step (expected : Z) (st : list t * LookupCache) (e : event)
    : list t * LookupCache :=
  match e with
  | Create id' => ((Find st.1 id').1, st.2)
  | Query => (st.1, Update_with expected st.1 st.2)
  end.

Definition run (expected : Z) (events : list event) : list t * LookupCache :=
  fold_left (step expected) events ([], emptyCache).

(** The indices, counted from [i], of the blocks whose signature contains
    [expected], in the order of the blocks. *)
Fixpoint matching_from (expected : Z) (managers : list t) (i : Z) : list Z :=
  match managers with
  | [] => []
  | m :: rest =>
      (if Z.land (id m) expected =? expected then [i] else [])
      ++ matching_from expected rest (i + 1)
  end.

Definition matching (expected : Z) (managers : list t) : list Z :=
  matching_from expected managers 0.

(** 65537 signatures, of which the first and the last contain bit 20. *)
Definition many_ids : list Z :=
  2 ^ 20 :: count_up (Z.to_nat 65535) 1 ++ [2 ^ 20 + 1].

End Queries.

(** ** Predicates and loop bodies used in the statements *)
Module Invariants.
Import Component ArchetypeManager Queries.

(** A loop body that replaces the column of component [c] by [g] of it. *)
Definition on_column (g : list Value → option (list Value)) (ii : list Z)
    (arrays : list (list Value)) (c : Z) : option (list (list Value)) :=
  k ← get_at ii c; col ← get_at arrays k; col' ← g col; set_at arrays k col'.

(** [MoveElement] with both arrays the same: the cell [lastRow] is moved to
    [row] and reset. *)
Definition move_within (row lastRow : Z) (col : list Value) : option (list Value) :=
  x ← get_at col lastRow; col1 ← set_at col row x; set_at col1 lastRow DefaultValue.

(** The columns of a block are in order for [n] rows: the components of the
    signature have distinct columns, none marked [Unused], each allocated
    with at least [n] cells. *)
Definition columns_ok (m : ArchetypeManager.t) (n : Z) : Prop :=
  ∃ ks,
    Forall2 (λ c k, get_at (internalIndex m) c = Some k) (EachComponent (id m)) ks ∧
    NoDup ks ∧
    Forall (λ k, k ≠ Unused ∧
                 ∃ col, get_at (componentArrays m) k = Some col ∧ n ≤ len col) ks.

(** The relation between the blocks and a cache that holds at all times:
    the cache lists the matching blocks below its cursor. *)
Definition cache_inv (expected : Z) (st : list ArchetypeManager.t * LookupCache) : Prop :=
  0 ≤ lastIndexChecked st.2 ≤ len st.1 ∧
  matchedIndices st.2
  = toIndex <$> matching expected (take (Z.to_nat (lastIndexChecked st.2)) st.1).

(** The slot [i] of the table is in use: inside the active range and not on
    the free list. *)
Definition live (p : EntityRecord.pool) (i : Z) : Prop :=
  0 ≤ i < EntityRecord.last p ∧ i ∉ EntityRecord.freeList p.

(** The slot table is in order: the active range lies inside the allocated
    records, and the free list holds distinct indices of the active range. *)
Definition pool_ok (p : EntityRecord.pool) : Prop :=
  0 ≤ EntityRecord.last p ≤ EntityRecord.capacity p ∧
  EntityRecord.capacity p = len (EntityRecord.records p) ∧
  EntityRecord.capacity p < 2 ^ 64 ∧
  NoDup (EntityRecord.freeList p) ∧
  Forall (λ i, 0 ≤ i < EntityRecord.last p) (EntityRecord.freeList p).

(** The block [m], at index [a] of [managers], is in order with respect to
    the slot table [p]: its rows fit its capacity, which fits an [Index];
    the row table and the columns have [capacity] cells; every row is linked
    to a slot in use whose record names the block and the row. *)
Definition block_ok (p : EntityRecord.pool) (a : Z) (m : ArchetypeManager.t) : Prop :=
  0 ≤ size m ≤ capacity m ∧ capacity m < 65536 ∧
  len (recordIndices m) = capacity m ∧
  columns_ok m (capacity m) ∧
  ∀ row, 0 ≤ row < size m →
    ∃ i v, get_at (recordIndices m) row = Some i ∧ live p i ∧ i < 65535 ∧
           get_at (EntityRecord.records p) i = Some (EntityRecord.mk a row v).

(** The state of the library is in order. *)
Definition state_ok (s : state) : Prop :=
  pool_ok (pool s) ∧ len (managers s) ≤ 65536 ∧
  ∀ a m, get_at (managers s) a = Some m → block_ok (pool s) a m.

(** The handle [h] is the one of the entity at row [row] of block [a]. *)
Definition entity (s : state) (h : EntityReference.t) (a row : Z) : Prop :=
  ∃ m, get_at (managers s) a = Some m ∧ 0 ≤ row < size m ∧
       get_at (recordIndices m) row = Some (EntityReference.recordIndex h) ∧
       get_at (EntityRecord.records (pool s)) (EntityReference.recordIndex h)
       = Some (EntityRecord.mk a row (EntityReference.version h)).

(** The cell [p] of the array at position [a] of a column table. *)
Definition cell_at (mem : list (list Value)) (a p : Z) : option Value :=
  col ← get_at mem a; get_at col p.
(** Block [m'] is block [m] up to the contents of its columns. *)
Definition same_shape (m m' : ArchetypeManager.t) : Prop :=
  id m' = id m ∧ recordIndices m' = recordIndices m ∧
  internalIndex m' = internalIndex m ∧
  capacity m' = capacity m ∧ size m' = size m ∧
  ∀ k col, get_at (componentArrays m) k = Some col →
    ∃ col', get_at (componentArrays m') k = Some col' ∧ len col' = len col.

(** The order of type lists: by [TypeInfo::ID]. *)
Definition by_TypeInfo_ID (A B : CType) : Prop := TypeInfo_ID A ≤ TypeInfo_ID B.
End Invariants.

(** ** What an iteration visits *)
Module Visits.
Import Component ArchetypeManager Queries.

(** The rows of block [b], from the first to the last. *)
Definition block_rows (managers : list ArchetypeManager.t) (b : Z) : list (Z * Z) :=
  (λ r, (b, r)) <$> seqZ 0 (from_option size 0 (get_at managers b)).

(** The rows of the blocks whose signature contains [expected], block by
    block. *)
Definition positions (expected : Z) (managers : list ArchetypeManager.t)
    : list (Z * Z) :=
  matching expected managers ≫= block_rows managers.

(** What a lambda can note at a call: the current entity and the values of
    its components. *)
Definition note : Type := option EntityReference.t * list Value.

(** The note taken at the row [pos] of a block is in order: it names the
    handle of the entity of that row and the values its components read. *)
Definition visit (s : state) (Components : list CType) (pos : Z * Z) (e : note)
    : Prop :=
  ∃ h, e.1 = Some h ∧ Invariants.entity s h pos.1 pos.2 ∧
       Forall2 (λ T v, EntityReference.read s h T = Some v) Components e.2.

(** The columns of the types [Components] in a block. *)
Definition columns_of (m : ArchetypeManager.t) (Components : list CType)
    (ks : list Z) : Prop :=
  Forall2 (λ T k, get_at (internalIndex m) (Component_Id T) = Some k ∧ k ≠ Unused ∧
                  ∃ col, get_at (componentArrays m) k = Some col ∧ size m ≤ len col)
          Components ks.

Definition stops (stop_at : EntityReference.t → list Value → bool) (e : note)
    : bool :=
  match e.1 with
  | Some h => stop_at h e.2
  | None => false
  end.

(** A lambda that notes every call, leaves the components as they are and
    stops the iteration when [stop_at] says so. *)
Definition logger (stop_at : EntityReference.t → list Value → bool)
    : World.EntityIterator.lambda (list note) :=
  λ acc s it values,
    let e := (World.EntityIterator.GetCurrentEntity s it, values) in
    (acc ++ [e], values, stops stop_at e).

(** The elements of a list up to the first that satisfies [P], included. *)
Fixpoint through_first {A} (P : A → bool) (l : list A) : list A :=
  match l with
  | [] => []
  | x :: l' => x :: (if P x then [] else through_first P l')
  end.

(** A lambda that replaces the values of its components by [g] of them. *)
Definition updater (g : list Value → list Value) : World.EntityIterator.lambda unit :=
  λ acc _ _ values, (acc, g values, false).

(** The cell [r] of column [k] of a block holds [v]. *)
Definition cell_value (m : ArchetypeManager.t) (r k : Z) (v : Value) : Prop :=
  ∃ col, get_at (componentArrays m) k = Some col ∧ get_at col r = Some v.

(** Block [m'] is block [m] with [g] applied to the cells of the columns
    [ks] in the rows below [n], and nothing else changed. *)
Definition block_updated (g : list Value → list Value) (ks : list Z) (n : Z)
    (m m' : ArchetypeManager.t) : Prop :=
  id m' = id m ∧ recordIndices m' = recordIndices m ∧
  internalIndex m' = internalIndex m ∧
  capacity m' = capacity m ∧ size m' = size m ∧
  (∀ k col, get_at (componentArrays m) k = Some col →
     ∃ col', get_at (componentArrays m') k = Some col' ∧ len col' = len col ∧
             ∀ j, k ∉ ks ∨ n ≤ j → get_at col' j = get_at col j) ∧
  (∀ r, 0 ≤ r < n →
     ∃ values, Forall2 (cell_value m r) ks values ∧
               Forall2 (cell_value m' r) ks (g values)).
End Visits.

(** * Properties *)

(** ** Arrays *)

Lemma get_at_Some {A} (l : list A) i x :
  get_at l i = Some x ↔ 0 ≤ i ∧ l !! Z.to_nat i = Some x.
Proof.
  unfold get_at. destruct (Z.leb_spec 0 i); split; intros; try done.
  - tauto.
  - lia.
Qed.

Lemma get_at_lt {A} (l : list A) i x : get_at l i = Some x → 0 ≤ i < len l.
Proof.
  intros [Hi Hl]%get_at_Some. apply lookup_lt_Some in Hl. unfold len. lia.
Qed.

Lemma get_at_is_Some {A} (l : list A) i : 0 ≤ i < len l → is_Some (get_at l i).
Proof.
  intros Hi. unfold get_at. destruct (Z.leb_spec 0 i); [|lia].
  apply lookup_lt_is_Some. unfold len in Hi. lia.
Qed.

Lemma set_at_Some {A} (l l' : list A) i x :
  set_at l i x = Some l' ↔ 0 ≤ i < len l ∧ l' = <[Z.to_nat i := x]> l.
Proof.
  unfold set_at, len.
  destruct (Z.leb_spec 0 i), (Z.ltb_spec i (Z.of_nat (length l))); simpl;
    split; intros H'; try (destruct H'; lia); try done.
  - by inversion H'.
  - destruct H' as [_ ->]. done.
Qed.

Lemma set_at_in_range {A} (l : list A) i x :
  0 ≤ i < len l → set_at l i x = Some (<[Z.to_nat i := x]> l).
Proof. intros Hi. by apply set_at_Some. Qed.

Lemma len_set_at {A} (l l' : list A) i x : set_at l i x = Some l' → len l' = len l.
Proof. intros [_ ->]%set_at_Some. unfold len. by rewrite length_insert. Qed.

Lemma get_set_at_eq {A} (l l' : list A) i x :
  set_at l i x = Some l' → get_at l' i = Some x.
Proof.
  intros [Hi ->]%set_at_Some. apply get_at_Some. split; [lia|].
  apply list_lookup_insert_eq. unfold len in Hi. lia.
Qed.

Lemma get_set_at_ne {A} (l l' : list A) i j x :
  set_at l i x = Some l' → i ≠ j → get_at l' j = get_at l j.
Proof.
  intros [Hi ->]%set_at_Some Hne. unfold get_at.
  destruct (Z.leb_spec 0 j); [|done].
  apply list_lookup_insert_ne. lia.
Qed.

(** ** Handles *)
Section Handles.
Import Component ArchetypeManager EntityReference.

Lemma three_entities_state :
  Examples.three_entities
  = Returns (Examples.state3, Examples.e0, Examples.e1, Examples.e2).
Proof. vm_compute. reflexivity. Qed.

(** A handle that went through [Destroy] holds [InvalidIndex]. *)
Lemma Destroy_recordIndex s h s1 h1 :
  Destroy s h = Some (s1, h1) → recordIndex h1 = InvalidIndex.
Proof.
  unfold Destroy. intros H.
  destruct (Z.eqb_spec (recordIndex h) InvalidIndex) as [Heq|Hne]; simpl in H.
  - by inversion H; subst.
  - destruct (get_at _ _) as [record|]; simpl in H; [|done].
    destruct (_ =? _); [destruct (RemoveRow _ _ _); simpl in H|];
      by inversion H.
Qed.

(** C2: after [h.Destroy()], whatever state [s2] the create and
    destroy operations made since have led to, [h.Access(op)] on that same
    handle object returns false without invoking [op], and a further
    [h.Destroy()] changes neither the state nor the handle. *)
Theorem Destroy_then_handle_is_dead s h s1 h1 :
  Destroy s h = Some (s1, h1) →
  ∀ s2 Components,
    Access s2 h1 Components = Some (false, None) ∧
    Destroy s2 h1 = Some (s2, h1).
Proof.
  intros Hd%Destroy_recordIndex s2 Components.
  unfold Access, Destroy. rewrite Hd. by simpl.
Qed.

Lemma Destroy_then_handle_is_dead_witness :
  ∃ s1 h1,
    Destroy Examples.state3 Examples.e1 = Some (s1, h1) ∧
    Access s1 h1 [Examples.Position] = Some (false, None) ∧
    Destroy s1 h1 = Some (s1, h1).
Proof.
  eexists _, _. split; [vm_compute; reflexivity|].
  eapply (Destroy_then_handle_is_dead Examples.state3 Examples.e1).
  vm_compute; reflexivity.
Defined.

(** C10: [Destroy()] on a stale handle, whose stored generation differs
    from the current generation of its slot, leaves the slot table and
    every archetype block as they are; only the handle is marked. *)
Theorem Destroy_stale_handle_changes_nothing s h record :
  get_at (EntityRecord.records (pool s)) (recordIndex h) = Some record →
  version h ≠ EntityRecord.version record →
  ∃ h', Destroy s h = Some (s, h').
Proof.
  intros Hrec Hver. unfold Destroy.
  destruct (negb _); [|eauto].
  rewrite Hrec. simpl.
  destruct (Z.eqb_spec (version h) (EntityRecord.version record)); [done|eauto].
Qed.

Lemma Destroy_stale_handle_changes_nothing_witness :
  ∃ s, fst <$> Destroy Examples.state3 Examples.e1 = Some s ∧
       ∃ h', Destroy s Examples.e1 = Some (s, h').
Proof.
  eexists. split; [vm_compute; reflexivity|].
  apply (Destroy_stale_handle_changes_nothing _ Examples.e1
           (EntityRecord.mk InvalidIndex InvalidIndex 1)).
  - vm_compute; reflexivity.
  - vm_compute; discriminate.
Defined.

(** When the entity sits in the last occupied row, [RemoveRow] only
    decrements [size]: the slot table is not touched. *)
Lemma RemoveRow_last_row_pool s this m s' :
  get_at (managers s) this = Some m →
  size m ≠ 0 →
  RemoveRow s this (size m - 1) = Some s' →
  pool s' = pool s.
Proof.
  intros Hm Hsize. unfold RemoveRow. rewrite Hm. simpl.
  destruct (Z.eqb_spec (size m) 0) as [|_]; [done|].
  rewrite Z.eqb_refl. simpl.
  destruct (set_at _ _ _); simpl; [|done]. by intros [= <-].
Qed.

(** C1, at an entity that occupies the last occupied row of its block
    (here the only row): after [Destroy()] the row count is decremented,
    but the slot table is unchanged, so the slot keeps its archetype, row
    and generation, is not returned to the free list, and a copy of the
    handle still passes [Access]. *)
Theorem Destroy_last_row_keeps_slot :
  ∃ s h s' h',
    Examples.one_entity = Returns (s, h) ∧
    Destroy s h = Some (s', h') ∧
    size <$> get_at (managers s') 0 = Some 0 ∧
    pool s' = pool s ∧
    get_at (EntityRecord.records (pool s')) (recordIndex h)
      = Some (EntityRecord.mk 0 0 (version h)) ∧
    EntityRecord.freeList (pool s') = [] ∧
    Access s' h [Examples.Position] = Some (true, Some (0, [cell 0 0])).
Proof. eexists _, _, _, _. repeat split; vm_compute; reflexivity. Qed.

(** C9, at a block that holds [Position] only: [internalIndex] of the
    absent [Velocity] is 0, not [Unused], so [GetComponent<Velocity>]
    returns a pointer into the [Position] column, and an [Access] that
    asks for [Velocity] reads the entity's [Position]. *)
Theorem GetComponent_absent_component_not_null :
  let m := construct (IdBinary Examples.Position) in
  Contains m (IdBinary Examples.Velocity) = false ∧
  get_at (internalIndex m) (Component_Id Examples.Velocity) = Some 0 ∧
  (∀ row, GetComponent m Examples.Velocity row = Some (cell 0 row)) ∧
  (∀ row, GetComponent m Examples.Position row = Some (cell 0 row)) ∧
  ∃ s h,
    Examples.one_entity = Returns (s, h) ∧
    Access s h [Examples.Velocity] = Some (true, Some (0, [cell 0 0])) ∧
    EntityReference.read s h Examples.Velocity = Some 10.
Proof.
  repeat split; try (intros row); try (vm_compute; reflexivity).
  eexists _, _. repeat split; vm_compute; reflexivity.
Qed.

End Handles.

(** ** Allocation failure *)
Section AllocationFailure.
Import Component EntityRecord.

(** Where the allocation fails, [ResizeArray] throws and the column is as
    it was. *)
Lemma ResizeArray_throws alloc_ok array newSize moveCount :
  alloc_ok newSize = false →
  ResizeArray alloc_ok array newSize moveCount = Throws array.
Proof. intros Hnew. unfold ResizeArray. by rewrite Hnew. Qed.

(** [ResizeArray] has no run that returns false. *)
Lemma ResizeArray_returns_true alloc_ok array newSize moveCount flag array' :
  ResizeArray alloc_ok array newSize moveCount = Returns (flag, array') →
  flag = true ∧ alloc_ok newSize = true.
Proof.
  unfold ResizeArray. destruct (alloc_ok newSize); [|done].
  destruct (_ && _); [|done]. by intros [= <- _].
Qed.

(** Where the slot table is full and the allocation of the larger one
    fails, [Reserve] throws; [capacity] is the grown one by then, and the
    records are the old ones. *)
Lemma Reserve_throws alloc_ok p :
  freeList p = [] → capacity p ≤ last p →
  alloc_ok (grow (capacity p)) = false →
  Reserve alloc_ok p
  = Throws (mkPool (grow (capacity p)) (last p) [] (records p) (invalidRecord p)).
Proof.
  intros Hfree Hfull Hgrow. unfold Reserve. rewrite Hfree, Hgrow.
  by destruct (Z.geb_spec (last p) (capacity p)); [|lia].
Qed.

(** [Reserve] has no run that returns [invalidRecord], or writes to it. *)
Lemma Reserve_returns_slot alloc_ok p p' r :
  Reserve alloc_ok p = Returns (p', r) →
  (∃ index, r = At index) ∧ invalidRecord p' = invalidRecord p.
Proof.
  unfold Reserve. destruct (freeList p) as [|index rest].
  - destruct (last p >=? capacity p).
    + destruct (alloc_ok _); [|done]. destruct (_ && _); [|done].
      intros [= <- <-]. eauto.
    + intros [= <- <-]. eauto.
  - intros [= <- <-]. eauto.
Qed.

(** C6, at the first entity of a world, with no memory to be had, and at
    the first entity of a second archetype, the slot table having room
    left.  [ResizeArray] and [Reserve] do not return: they are left by
    [std::bad_alloc], and so is [CreateEntity].  No run of [ResizeArray]
    returns false and none of [Reserve] returns the invalid record.  The
    exception leaves the slot table with a capacity of 2 and no records,
    respectively the new block with a capacity of 2 and null arrays, and the
    next [CreateEntity], memory being there again, writes outside them. *)
Theorem allocation_failure_throws :
  ResizeArray Examples.never [1; 2] 3 2 = Throws [1; 2] ∧
  (∀ alloc_ok array newSize moveCount array',
     ResizeArray alloc_ok array newSize moveCount ≠ Returns (false, array')) ∧
  Reserve Examples.never EntityRecord.empty
  = Throws (mkPool 2 0 [] [] initial) ∧
  (∀ alloc_ok p p', Reserve alloc_ok p ≠ Returns (p', Invalid)) ∧
  (let broken := ArchetypeManager.mkState (mkPool 2 0 [] [] initial)
                   [ArchetypeManager.construct 1] in
   World.CreateEntity Examples.never ArchetypeManager.empty [Examples.Position]
   = Throws broken ∧
   World.CreateEntity Examples.always broken [Examples.Position] = Undefined) ∧
  ∃ s h broken,
    Examples.one_entity = Returns (s, h) ∧
    World.CreateEntity Examples.never s [Examples.Velocity] = Throws broken ∧
    get_at (ArchetypeManager.managers broken) 1
    = Some (ArchetypeManager.mk 2 [] [[]]
              (ArchetypeManager.internalIndex (ArchetypeManager.construct 2)) 2 0) ∧
    last (ArchetypeManager.pool broken) = 2 ∧
    World.CreateEntity Examples.always broken [Examples.Velocity] = Undefined.
Proof.
  split; [done|]. split.
  { intros alloc_ok array newSize moveCount array' H.
    by apply ResizeArray_returns_true in H as [? _]. }
  split; [done|]. split.
  { intros alloc_ok p p' H. by apply Reserve_returns_slot in H as [[? ?] _]. }
  split; [split; vm_compute; reflexivity|].
  eexists _, _, _. repeat split; vm_compute; reflexivity.
Qed.

End AllocationFailure.

(** ** The slot table *)
Section SlotTable.
Import EntityRecord.

Lemma toIndex_small i : 0 ≤ i < 65536 → toIndex i = i.
Proof. intros Hi. unfold toIndex. by apply Z.mod_small. Qed.

Lemma toIndex_range z : 0 ≤ toIndex z < 65536.
Proof. unfold toIndex. by apply Z.mod_pos_bound. Qed.

Lemma size_sub_pos a : 1 ≤ a < 2 ^ 64 → size_sub a 1 = a - 1.
Proof. intros Ha. unfold size_sub. apply Z.mod_small. lia. Qed.

Lemma head_get_at {A} (l : list A) : head l = get_at l 0.
Proof. by destruct l. Qed.

Lemma get_at_cons {A} (x : A) l k : 0 < k → get_at (x :: l) k = get_at l (k - 1).
Proof.
  intros Hk. unfold get_at.
  destruct (Z.leb_spec 0 k), (Z.leb_spec 0 (k - 1)); try lia.
  replace (Z.to_nat k) with (S (Z.to_nat (k - 1))) by lia. done.
Qed.

(** The loop of [Release] pops a run of entries, each equal to the highest
    active index at the time, and stops at the first entry that is not. *)
Lemma popTrailing_spec last fl last' fl' :
  0 ≤ last →
  popTrailing last fl = (last', fl') →
  ∃ popped,
    fl = popped ++ fl' ∧ last' = last - len popped ∧ 0 ≤ last' ∧
    (∀ k, 0 ≤ k < len popped → get_at popped k = Some (last - 1 - k)) ∧
    (last' = 0 ∨ head fl' ≠ Some (last' - 1)).
Proof.
  revert last. induction fl as [|top rest IH]; intros last Hlast; simpl.
  - intros [= <- <-]. exists []. unfold len; simpl.
    repeat split; [lia | lia | lia | by right].
  - destruct (Z.ltb_spec 0 last) as [Hpos|Hzero]; simpl.
    + destruct (Z.eqb_spec top (last - 1)) as [->|Hne].
      * intros Hpop. destruct (IH (last - 1) ltac:(lia) Hpop)
          as (popped & -> & -> & Hnn & Hrun & Hstop).
        exists ((last - 1) :: popped). unfold len in *; simpl length.
        repeat split; [lia | lia | | done].
        intros k Hk. destruct (Z.eq_dec k 0) as [->|Hk0].
        { by rewrite Z.sub_0_r. }
        rewrite get_at_cons by lia. rewrite Hrun by lia. f_equal. lia.
      * intros [= <- <-]. exists []. unfold len; simpl.
        repeat split; [lia | lia | lia |].
        right. intros [= ?]. done.
    + intros [= <- <-]. exists []. unfold len; simpl.
      repeat split; [lia | lia | lia | left; lia].
Qed.

(** C7: [Release()] on an allocated slot sets its archetype and row to
    [InvalidIndex] and increments its generation (an [Index], so modulo
    65536), leaving the other slots alone.  If the slot is the highest active
    index, the active range shrinks by one and then further for every entry
    popped from the top of the free list, each popped entry being the highest
    index at that time, until the top is no longer the highest index.
    Otherwise the index is pushed on the free list, and a [Reserve()] after
    it returns that very slot and restores the free list.  [Reserve()] takes
    the top of the free list whenever there is one, leaving the active range
    alone, and extends the active range by the next index only when the free
    list is empty. *)
Theorem Release_Reserve_spec alloc_ok p this r :
  0 ≤ this < 65536 →
  this < last p < 2 ^ 64 →
  get_at (records p) this = Some r →
  ∃ p',
    Release p this = Some p' ∧
    capacity p' = capacity p ∧
    get_at (records p') this
      = Some (mk InvalidIndex InvalidIndex (toIndex (version r + 1))) ∧
    (∀ j, j ≠ this → get_at (records p') j = get_at (records p) j) ∧
    (this = last p - 1 →
       ∃ popped,
         freeList p = popped ++ freeList p' ∧
         last p' = last p - 1 - len popped ∧
         (∀ k, 0 ≤ k < len popped → get_at popped k = Some (last p - 2 - k)) ∧
         (last p' = 0 ∨ head (freeList p') ≠ Some (last p' - 1))) ∧
    (this ≠ last p - 1 →
       last p' = last p ∧ freeList p' = this :: freeList p ∧
       Reserve alloc_ok p'
         = Returns (mkPool (capacity p) (last p) (freeList p) (records p')
                      (invalidRecord p), At this)) ∧
    (∀ q top rest,
       freeList q = top :: rest →
       Reserve alloc_ok q
         = Returns (mkPool (capacity q) (last q) rest (records q)
                      (invalidRecord q), At top)) ∧
    (∀ q q' x,
       freeList q = [] → Reserve alloc_ok q = Returns (q', At x) →
       x = last q ∧ last q' = last q + 1).
Proof.
  intros Hthis Hlast Hr.
  assert (Hpop : ∀ q top rest,
            freeList q = top :: rest →
            Reserve alloc_ok q
              = Returns (mkPool (capacity q) (last q) rest (records q)
                           (invalidRecord q), At top)).
  { intros q top rest Hq. unfold Reserve. by rewrite Hq. }
  assert (Hext : ∀ q q' x,
            freeList q = [] → Reserve alloc_ok q = Returns (q', At x) →
            x = last q ∧ last q' = last q + 1).
  { intros q q' x Hq. unfold Reserve. rewrite Hq.
    destruct (_ >=? _); [destruct (alloc_ok _); [destruct (_ && _)|]|];
      intros [= <- <-]; by simpl. }
  pose proof (get_at_lt _ _ _ Hr) as Hin.
  pose proof (set_at_in_range (records p) this
                (mk InvalidIndex InvalidIndex (toIndex (version r + 1))) Hin)
    as Hset.
  unfold Release. rewrite Hr. simpl. rewrite Hset. simpl.
  rewrite toIndex_small, size_sub_pos by lia.
  destruct (Z.eqb_spec this (last p - 1)) as [Heq|Hne].
  - destruct (popTrailing (last p - 1) (freeList p)) as [last' fl'] eqn:Hloop.
    eexists. split; [reflexivity|]. simpl.
    split; [done|]. split; [by apply (get_set_at_eq _ _ _ _ Hset)|].
    split; [intros j Hj; by apply (get_set_at_ne _ _ _ _ _ Hset)|].
    split; [|split; [done|by split]].
    intros _. apply popTrailing_spec in Hloop as
      (popped & Hfl & Hl & _ & Hrun & Hstop); [|lia].
    exists popped. repeat split; [done | lia | | done].
    intros k Hk. rewrite Hrun by done. f_equal. lia.
  - eexists. split; [reflexivity|]. simpl.
    split; [done|]. split; [by apply (get_set_at_eq _ _ _ _ Hset)|].
    split; [intros j Hj; by apply (get_set_at_ne _ _ _ _ _ Hset)|].
    split; [done|]. split; [|by split].
    intros _. split; [done|]. split; [done|].
    by rewrite (Hpop _ this (freeList p)).
Qed.

Lemma pool_hole_state :
  ArchetypeManager.pool ∘ fst
    <$> EntityReference.Destroy Examples.state3 Examples.e1
  = Some Examples.pool_hole.
Proof. vm_compute. reflexivity. Qed.

Lemma Release_Reserve_spec_witness :
  ∃ p', Release Examples.pool_hole 2 = Some p' ∧
        get_at (records p') 2 = Some (mk InvalidIndex InvalidIndex 1) ∧
        last p' = 1 ∧ freeList p' = [].
Proof.
  destruct (Release_Reserve_spec Examples.always Examples.pool_hole 2 (mk 0 1 0))
    as (p' & Hrel & _ & Hrec & _);
    [vm_compute; split; congruence | vm_compute; split; congruence
    | reflexivity |].
  exists p'. split; [done|]. split; [done|].
  vm_compute in Hrel. by injection Hrel as <-.
Defined.

End SlotTable.

(** ** Signatures *)
Section Signatures.
Import Component ArchetypeManager.

Lemma fold_or_foldr ids : fold_or ids = foldr Z.lor 0 ids.
Proof.
  induction ids as [|x [|y rest] IH]; simpl in *; [done | | by rewrite IH].
  by rewrite Z.lor_0_r.
Qed.

Lemma fold_or_Permutation ids ids' : ids ≡ₚ ids' → fold_or ids = fold_or ids'.
Proof.
  rewrite !fold_or_foldr. induction 1; simpl; [done | congruence | | congruence].
  rewrite !Z.lor_assoc. f_equal. apply Z.lor_comm.
Qed.

Lemma take_app Count Ts : (Utils.take Count Ts).1 ++ (Utils.take Count Ts).2 = Ts.
Proof.
  revert Ts; induction Count as [|c IH]; intros [|A Ts]; simpl; try done.
  specialize (IH Ts). destruct (Utils.take c Ts); simpl in *. by rewrite IH.
Qed.

Lemma merge_Permutation As Bs : Utils.merge As Bs ≡ₚ As ++ Bs.
Proof.
  revert Bs; induction As as [|A As IHA]; intros Bs; [by destruct Bs|].
  induction Bs as [|B Bs IHB]; [by rewrite app_nil_r|].
  simpl. destruct (Utils.lessThan A B).
  - constructor. apply IHA.
  - simpl in IHB. rewrite IHB. by rewrite (Permutation_middle (A :: As) Bs B).
Qed.

(** [SortedList] rearranges its type list. *)
Lemma sortList_Permutation Ts : Utils.sortList Ts ≡ₚ Ts.
Proof.
  funelim (Utils.sortList Ts); simp sortList; try done.
  - destruct (Utils.lessThan A B); [done | apply perm_swap].
  - simpl. rewrite merge_Permutation, H, H0. by rewrite take_app.
Qed.

Lemma construct_id newId : id (construct newId) = newId.
Proof. unfold construct. by destruct (fold_left _ _ _). Qed.

Lemma Find_loop_app rest more i id' k :
  Find_loop rest i id' = Some k → Find_loop (rest ++ more) i id' = Some k.
Proof.
  revert i; induction rest as [|m rest IH]; intros i; simpl; [done|].
  destruct (_ =? _); [done | apply IH].
Qed.

Lemma Find_loop_new rest i id' :
  Find_loop rest i id' = None →
  Find_loop (rest ++ [construct id']) i id' = Some (i + len rest).
Proof.
  revert i; induction rest as [|m rest IH]; intros i; simpl.
  - intros _. rewrite construct_id, Z.eqb_refl. f_equal. unfold len; simpl; lia.
  - destruct (_ =? _); [done|]. intros H. rewrite IH by done.
    f_equal. unfold len; simpl length. lia.
Qed.

(** Once [Find] has returned a block for a signature, it returns the same
    block for it whatever blocks are added. *)
Lemma Find_again managers id' managers' block more :
  Find managers id' = (managers', block) →
  Find (managers' ++ more) id' = (managers' ++ more, block).
Proof.
  unfold Find. destruct (Find_loop managers 0 id') as [i|] eqn:Hloop.
  - intros [= <- <-]. by rewrite (Find_loop_app _ _ _ _ _ Hloop).
  - intros [= <- <-].
    by rewrite (Find_loop_app _ more _ _ _ (Find_loop_new _ _ _ Hloop)).
Qed.

(** The signature a query cache tests is the signature of its key. *)
Lemma Update_signature Ts managers c :
  Update Ts managers c = Update_with (Helper_id Ts) managers c.
Proof.
  unfold Update, Helper_id, HelperImplementation_id. f_equal.
  apply fold_or_Permutation, Permutation_map. by rewrite !sortList_Permutation.
Qed.

(** C8: two type lists that are permutations of each other have the same
    signature, the bitwise or of the single-bit ids of the sorted list, and
    so resolve to the same archetype block: [GetInstance] gives the same
    result on them, and once one of them has resolved to a block the other
    resolves to that block, without adding one. *)
Theorem Helper_id_Permutation Ts Us :
  Ts ≡ₚ Us →
  Helper_id Ts = Helper_id Us ∧
  (∀ managers, GetInstance managers Ts = GetInstance managers Us) ∧
  (∀ managers managers' block more,
     GetInstance managers Ts = (managers', block) →
     GetInstance (managers' ++ more) Us = (managers' ++ more, block)).
Proof.
  intros Hperm.
  assert (Hid : Helper_id Ts = Helper_id Us).
  { unfold Helper_id, HelperImplementation_id. apply fold_or_Permutation.
    apply Permutation_map. by rewrite !sortList_Permutation. }
  split; [done|]. unfold GetInstance. rewrite <- Hid.
  split; [done|]. intros managers managers' block more. apply Find_again.
Qed.

Lemma Helper_id_Permutation_witness :
  Helper_id [Examples.Health; Examples.Position; Examples.Velocity]
  = Helper_id [Examples.Velocity; Examples.Health; Examples.Position] ∧
  (∀ managers,
     GetInstance managers [Examples.Health; Examples.Position; Examples.Velocity]
     = GetInstance managers [Examples.Velocity; Examples.Health; Examples.Position]) ∧
  (∀ managers managers' block more,
     GetInstance managers [Examples.Health; Examples.Position; Examples.Velocity]
       = (managers', block) →
     GetInstance (managers' ++ more)
       [Examples.Velocity; Examples.Health; Examples.Position]
       = (managers' ++ more, block)).
Proof.
  apply Helper_id_Permutation.
  apply (perm_trans (l' := [Examples.Health; Examples.Velocity; Examples.Position])).
  - apply perm_skip, perm_swap.
  - apply perm_swap.
Defined.

End Signatures.

(** ** The query cache *)
Section QueryCache.
Import ArchetypeManager Queries Invariants.

Lemma matching_from_app expected ms ms' i :
  matching_from expected (ms ++ ms') i
  = matching_from expected ms i ++ matching_from expected ms' (i + len ms).
Proof.
  revert i; induction ms as [|m ms IH]; intros i; simpl.
  - unfold len; simpl. by rewrite Z.add_0_r.
  - rewrite IH, <- app_assoc. do 3 f_equal. unfold len; simpl length. lia.
Qed.

Lemma matching_from_elem expected ms i k :
  k ∈ matching_from expected ms i ↔
  i ≤ k ∧ ∃ m, get_at ms (k - i) = Some m ∧ Z.land (id m) expected = expected.
Proof.
  revert i; induction ms as [|m ms IH]; intros i; simpl.
  - split; [by intros ?%elem_of_nil|].
    intros (_ & m & Hm & _). apply get_at_lt in Hm. unfold len in Hm; simpl in Hm. lia.
  - rewrite elem_of_app, IH. split.
    + intros [Hhere|(Hk & m' & Hm' & Htest)].
      * destruct (Z.eqb_spec (Z.land (id m) expected) expected) as [Htest|];
          [|by apply elem_of_nil in Hhere].
        apply list_elem_of_singleton in Hhere as ->. split; [lia|].
        exists m. by rewrite Z.sub_diag.
      * split; [lia|]. exists m'. split; [|done].
        rewrite get_at_cons by lia. rewrite <- Hm'. f_equal. lia.
    + intros (Hk & m' & Hm' & Htest).
      destruct (Z.eq_dec k i) as [->|Hne].
      * left. rewrite Z.sub_diag in Hm'. injection Hm' as ->.
        rewrite Htest, Z.eqb_refl. by apply list_elem_of_singleton.
      * right. split; [lia|]. exists m'. split; [|done].
        rewrite get_at_cons in Hm' by lia. rewrite <- Hm'. f_equal. lia.
Qed.

Lemma matching_from_sorted expected ms i :
  StronglySorted Z.lt (matching_from expected ms i).
Proof.
  revert i; induction ms as [|m ms IH]; intros i; simpl; [constructor|].
  destruct (_ =? _); simpl; [|apply IH].
  constructor; [apply IH|].
  apply Forall_forall. intros k [Hk _]%matching_from_elem. lia.
Qed.

Lemma matching_from_toIndex expected ms i :
  0 ≤ i → i + len ms ≤ 65536 →
  toIndex <$> matching_from expected ms i = matching_from expected ms i.
Proof.
  intros Hi Hlen. rewrite <- (list_fmap_id (matching_from expected ms i)) at 2.
  apply list_fmap_ext. intros _ k Hk%list_elem_of_lookup_2.
  apply matching_from_elem in Hk as (Hk & m & Hm%get_at_lt & _).
  unfold Datatypes.id. apply toIndex_small. lia.
Qed.

(** The loop of [Update] appends the matching indices of the blocks it is
    run over, converted to [uint16_t], and advances the cursor past them. *)
Lemma Update_loop_spec expected rest c :
  Update_loop expected rest c
  = mkCache (lastIndexChecked c + len rest)
      (matchedIndices c
         ++ (toIndex <$> matching_from expected rest (lastIndexChecked c))).
Proof.
  revert c; induction rest as [|m rest IH]; intros [lic matched]; simpl.
  - unfold len; simpl. by rewrite Z.add_0_r, app_nil_r.
  - rewrite IH. simpl. unfold Contains, len. simpl length. f_equal; [lia|].
    destruct (_ =? _); simpl; [|done]. by rewrite <- app_assoc.
Qed.

Lemma Update_with_inv expected ms c :
  cache_inv expected (ms, c) →
  Update_with expected ms c
  = mkCache (len ms) (toIndex <$> matching expected ms).
Proof.
  intros [Hlic Hmatched]. simpl in *. unfold Update_with.
  destruct (Z.ltb_spec (lastIndexChecked c) (len ms)) as [Hlt|Hge].
  - rewrite Update_loop_spec, Hmatched. unfold matching.
    rewrite <- (take_drop (Z.to_nat (lastIndexChecked c)) ms) at 4 5.
    rewrite matching_from_app, fmap_app. unfold len in *.
    rewrite length_app, !length_take, length_drop.
    f_equal; [lia|]. do 3 f_equal. lia.
  - assert (lastIndexChecked c = len ms) as Heq by lia.
    rewrite Heq in Hmatched. unfold len in Hmatched.
    rewrite Nat2Z.id, firstn_all in Hmatched.
    destruct c; simpl in *. by subst.
Qed.

Lemma step_inv expected st e :
  cache_inv expected st → cache_inv expected (step expected st e).
Proof.
  destruct st as [ms c]. intros Hinv. destruct e as [id'|]; simpl.
  - destruct Hinv as [Hlic Hmatched]; simpl in *. unfold Find.
    destruct (Find_loop ms 0 id'); simpl; [done|].
    unfold cache_inv, len in *; simpl. rewrite length_app. simpl length.
    split; [lia|]. rewrite take_app_le by lia. done.
  - rewrite (Update_with_inv _ _ _ Hinv). unfold cache_inv, len; simpl.
    split; [lia|]. by rewrite Nat2Z.id, firstn_all.
Qed.

Lemma run_inv expected events : cache_inv expected (run expected events).
Proof.
  unfold run. assert (Hinit : cache_inv expected ([], emptyCache)).
  { unfold cache_inv, len; simpl. split; [lia|done]. }
  revert Hinit. generalize ([] : list t, emptyCache).
  induction events as [|e events IH]; intros st Hst; simpl; [done|].
  by apply IH, step_inv.
Qed.

(** Right after an [Update] the cache lists all matching blocks, with their
    indices converted to [uint16_t]. *)
Lemma run_Query expected events managers c :
  run expected (events ++ [Query]) = (managers, c) →
  c = mkCache (len managers) (toIndex <$> matching expected managers).
Proof.
  unfold run. rewrite fold_left_app. simpl.
  pose proof (run_inv expected events) as Hinv. unfold run in Hinv.
  destruct (fold_left _ events _) as [ms c0]. simpl.
  intros [= <- <-]. by apply Update_with_inv.
Qed.

(** C4, as amended: after any events that end with an [Update()], and while
    there are at most 65536 blocks, the cursor of the cache is the number of
    blocks, [matchedIndices] contains exactly the indices of the blocks whose
    signature satisfies [(signature & expected) == expected], in strictly
    increasing order (each once, in creation order), and an [Update()] after
    further blocks were added runs its loop over the added blocks only. *)
Theorem Update_matches expected events managers c :
  run expected (events ++ [Query]) = (managers, c) →
  len managers ≤ 65536 →
  lastIndexChecked c = len managers ∧
  (∀ k, k ∈ matchedIndices c ↔
        ∃ m, get_at managers k = Some m ∧ Z.land (id m) expected = expected) ∧
  StronglySorted Z.lt (matchedIndices c) ∧
  (∀ new, Update_with expected (managers ++ new) c = Update_loop expected new c).
Proof.
  intros -> %run_Query Hlen. simpl. unfold matching.
  rewrite matching_from_toIndex by (simpl; lia).
  split; [done|]. split; [|split].
  - intros k. rewrite matching_from_elem, Z.sub_0_r.
    split; [by intros [_ ?]|]. intros (m & Hm & Htest).
    split; [apply get_at_lt in Hm; lia | by eauto].
  - apply matching_from_sorted.
  - intros new. unfold Update_with, len. simpl. rewrite length_app.
    destruct new as [|m new]; simpl length.
    + by rewrite Nat.add_0_r, Z.ltb_irrefl.
    + destruct (Z.ltb_spec (Z.of_nat (length managers))
                  (Z.of_nat (length managers + S (length new)))); [|lia].
      by rewrite Nat2Z.id, drop_app_length.
Qed.

Lemma Update_matches_witness :
  ∃ managers c,
    run 1 ([Create 1; Create 3; Query; Create 2; Create 3; Create 7] ++ [Query])
      = (managers, c) ∧
    lastIndexChecked c = len managers ∧
    (∀ k, k ∈ matchedIndices c ↔
          ∃ m, get_at managers k = Some m ∧ Z.land (id m) 1 = 1) ∧
    StronglySorted Z.lt (matchedIndices c) ∧
    (∀ new, Update_with 1 (managers ++ new) c = Update_loop 1 new c).
Proof.
  eexists _, _. split; [vm_compute; reflexivity|].
  apply (Update_matches 1 [Create 1; Create 3; Query; Create 2; Create 3; Create 7]).
  - vm_compute; reflexivity.
  - vm_compute; discriminate.
Defined.

Lemma Find_loop_None ms i id' :
  Find_loop ms i id' = None ↔ Forall (λ m, id m ≠ id') ms.
Proof.
  revert i; induction ms as [|m ms IH]; intros i; simpl.
  - split; [constructor | done].
  - rewrite Forall_cons. destruct (Z.eqb_spec (id m) id').
    + split; [done | by intros [? _]].
    + rewrite IH. tauto.
Qed.

(** Looking up signatures that are all different and all new appends one
    block for each. *)
Lemma Create_fresh expected ids ms c :
  NoDup ids →
  Forall (λ m, id m ∉ ids) ms →
  fold_left (step expected) (Create <$> ids) (ms, c) = (ms ++ (construct <$> ids), c).
Proof.
  revert ms; induction ids as [|i ids IH]; intros ms Hnodup Hms; simpl.
  - by rewrite app_nil_r.
  - apply NoDup_cons in Hnodup as [Hi Hnodup].
    assert (Hnone : Find_loop ms 0 i = None).
    { apply Find_loop_None. eapply Forall_impl; [exact Hms|].
      intros m Hm Heq. apply Hm. rewrite Heq. by left. }
    unfold Find. rewrite Hnone. simpl. rewrite IH; [by rewrite <- app_assoc | done |].
    apply Forall_app. split.
    + eapply Forall_impl; [exact Hms|]. intros m Hm Hin. apply Hm. by right.
    + constructor; [|constructor]. by rewrite construct_id.
Qed.

Lemma run_Create_Query expected ids :
  NoDup ids →
  run expected ((Create <$> ids) ++ [Query])
  = (construct <$> ids, Update_with expected (construct <$> ids) emptyCache).
Proof.
  intros Hnodup. unfold run.
  rewrite fold_left_app, Create_fresh; [done | done | constructor].
Qed.

Lemma count_up_seqZ n i : count_up n i = seqZ i (Z.of_nat n).
Proof.
  revert i; induction n as [|n IH]; intros i; [done|].
  rewrite seqZ_cons by lia. simpl count_up. rewrite IH. do 2 f_equal; lia.
Qed.

Lemma many_ids_NoDup : NoDup many_ids.
Proof.
  unfold many_ids. rewrite count_up_seqZ. apply NoDup_cons. split.
  - rewrite elem_of_app, elem_of_seqZ, list_elem_of_singleton. lia.
  - apply NoDup_app. split; [apply NoDup_seqZ|]. split; [|apply NoDup_singleton].
    intros k. rewrite elem_of_seqZ, list_elem_of_singleton. lia.
Qed.

(** C4 fails as stated: with 65537 blocks of which the first and the last
    match, [matchedIndices] lists index 0 twice and does not list 65536, the
    index of the last block being stored in 16 bits. *)
Lemma Update_index_wraps :
  ∃ managers c,
    run (2 ^ 20) ((Create <$> many_ids) ++ [Query]) = (managers, c) ∧
    len managers = 65537 ∧
    matchedIndices c = [0; 0] ∧
    ∃ m, get_at managers 65536 = Some m ∧ Z.land (id m) (2 ^ 20) = 2 ^ 20.
Proof.
  exists (construct <$> many_ids),
         (Update_with (2 ^ 20) (construct <$> many_ids) emptyCache).
  split; [|split; [|split]].
  - exact (run_Create_Query (2 ^ 20) many_ids many_ids_NoDup).
  - vm_compute; reflexivity.
  - vm_compute; reflexivity.
  - exists (construct (2 ^ 20 + 1)). split; vm_compute; reflexivity.
Qed.

End QueryCache.

(** ** Columns of a block *)
Section Columns.
Import Component ArchetypeManager Invariants.

Lemma foldM_ext {A B} (f f' : A → B → option A) a l :
  (∀ a b, f a b = f' a b) → foldM f a l = foldM f' a l.
Proof.
  intros Hext. revert a; induction l as [|b l IH]; intros a; simpl; [done|].
  rewrite Hext. destruct (f' a b); simpl; [apply IH | done].
Qed.

(** Run over components that have distinct columns, such a loop applies [g]
    once to each of these columns and leaves the other columns alone. *)
Lemma foldM_columns g ii cs ks arrays :
  Forall2 (λ c k, get_at ii c = Some k) cs ks →
  NoDup ks →
  Forall (λ k, ∃ col, get_at arrays k = Some col ∧ is_Some (g col)) ks →
  ∃ arrays',
    foldM (on_column g ii) arrays cs = Some arrays' ∧
    len arrays' = len arrays ∧
    (∀ k col, k ∈ ks → get_at arrays k = Some col → get_at arrays' k = g col) ∧
    (∀ k, k ∉ ks → get_at arrays' k = get_at arrays k).
Proof.
  intros Hks. revert arrays.
  induction Hks as [|c k cs ks Hc _ IH]; intros arrays Hnodup Hcols; simpl.
  - exists arrays. split; [done|]. split; [done|]. split; [|done].
    by intros k col ?%elem_of_nil.
  - apply NoDup_cons in Hnodup as [Hk Hnodup].
    apply Forall_cons in Hcols as [(col & Hcol & [col' Hg]) Hcols].
    pose proof (get_at_lt _ _ _ Hcol) as Hin.
    pose proof (set_at_in_range arrays k col' Hin) as Hset.
    unfold on_column at 2. rewrite Hc; simpl. rewrite Hcol; simpl.
    rewrite Hg; simpl. rewrite Hset; simpl.
    destruct (IH (<[Z.to_nat k := col']> arrays) Hnodup)
      as (arrays' & Hfold & Hlen & Hin' & Hout').
    { apply Forall_forall. intros k' Hk'.
      destruct (proj1 (Forall_forall _ _) Hcols k' Hk') as (col1 & Hcol1 & Hg1).
      exists col1. split; [|done].
      rewrite (get_set_at_ne _ _ _ _ _ Hset); [done|]. by intros ->. }
    exists arrays'. split; [done|]. split; [|split].
    + rewrite Hlen. apply (len_set_at _ _ _ _ Hset).
    + intros k' col1 [->|Hk']%elem_of_cons Hcol1.
      * rewrite Hout' by done. rewrite (get_set_at_eq _ _ _ _ Hset).
        congruence.
      * apply Hin'; [done|].
        rewrite (get_set_at_ne _ _ _ _ _ Hset); [done|]. by intros ->.
    + intros k' Hk'. apply not_elem_of_cons in Hk' as [Hne Hk'].
      rewrite Hout' by done. by apply (get_set_at_ne _ _ _ _ _ Hset).
Qed.

End Columns.

(** ** Swap-removal *)
Section SwapRemoval.
Import Component ArchetypeManager EntityReference Invariants.

Lemma MoveElement_same mem k row lastRow :
  MoveElement mem k row k lastRow
  = (col ← get_at mem k; col' ← move_within row lastRow col; set_at mem k col').
Proof.
  unfold MoveElement, move_within.
  destruct (get_at mem k) as [col|] eqn:Hcol; simpl; [|done].
  destruct (get_at col lastRow) as [x|]; simpl; [|done].
  destruct (set_at col row x) as [col1|] eqn:H1; simpl; [|done].
  rewrite (set_at_in_range mem k col1) by (by apply get_at_lt in Hcol). simpl.
  rewrite (get_set_at_eq mem _ k col1) by (apply set_at_in_range; by apply get_at_lt in Hcol).
  simpl. destruct (set_at col1 lastRow DefaultValue) as [col2|]; simpl; [|done].
  unfold set_at. rewrite length_insert.
  destruct (_ && _); [|done]. by rewrite list_insert_insert_eq.
Qed.

Lemma moveRows_on_column m row lastRow :
  moveRows m row lastRow
  = foldM (on_column (move_within row lastRow) (internalIndex m))
      (componentArrays m) (EachComponent (id m)).
Proof.
  unfold moveRows. apply foldM_ext. intros arrays c. unfold on_column.
  destruct (get_at (internalIndex m) c); simpl; [apply MoveElement_same | done].
Qed.

Lemma move_within_spec row lastRow col :
  0 ≤ row < len col → 0 ≤ lastRow < len col →
  ∃ col' x,
    move_within row lastRow col = Some col' ∧
    get_at col lastRow = Some x ∧
    len col' = len col ∧
    (row ≠ lastRow → get_at col' row = Some x) ∧
    (∀ j, j ≠ row → j ≠ lastRow → get_at col' j = get_at col j).
Proof.
  intros Hrow HlastRow. unfold move_within.
  destruct (get_at_is_Some col lastRow HlastRow) as [x Hx]. rewrite Hx. simpl.
  pose proof (set_at_in_range col row x Hrow) as H1. rewrite H1. simpl.
  pose proof (len_set_at _ _ _ _ H1) as Hlen1.
  assert (H2 : set_at (<[Z.to_nat row := x]> col) lastRow DefaultValue
               = Some (<[Z.to_nat lastRow := DefaultValue]> (<[Z.to_nat row := x]> col))).
  { apply set_at_in_range. by rewrite Hlen1. }
  eexists _, x. split; [exact H2|]. split; [done|]. split; [|split].
  - rewrite (len_set_at _ _ _ _ H2). done.
  - intros Hne. rewrite (get_set_at_ne _ _ _ _ _ H2) by done.
    apply (get_set_at_eq _ _ _ _ H1).
  - intros j Hj1 Hj2. rewrite (get_set_at_ne _ _ _ _ _ H2) by done.
    by apply (get_set_at_ne _ _ _ _ _ H1).
Qed.

Lemma columns_ok_lookup m n T :
  columns_ok m n → Component_Id T ∈ EachComponent (id m) →
  ∃ k col,
    get_at (internalIndex m) (Component_Id T) = Some k ∧ k ≠ Unused ∧
    get_at (componentArrays m) k = Some col ∧ n ≤ len col.
Proof.
  intros (ks & Hks & _ & Hcols) [i Hi]%list_elem_of_lookup_1.
  destruct (Forall2_lookup_l _ _ _ _ _ Hks Hi) as (k & Hk & Hc).
  apply list_elem_of_lookup_2 in Hk.
  destruct (proj1 (Forall_forall _ _) Hcols k Hk) as (Hne & col & Hcol & Hlen).
  by exists k, col.
Qed.

(** What [Release] does to the records. *)
Lemma Release_records p this r :
  get_at (EntityRecord.records p) this = Some r →
  ∃ p',
    EntityRecord.Release p this = Some p' ∧
    EntityRecord.records p'
    = <[Z.to_nat this := EntityRecord.mk InvalidIndex InvalidIndex
                           (toIndex (EntityRecord.version r + 1))]>
        (EntityRecord.records p).
Proof.
  intros Hr. unfold EntityRecord.Release. rewrite Hr. simpl.
  rewrite set_at_in_range by (by apply get_at_lt in Hr). simpl.
  destruct (_ =? _); [destruct (EntityRecord.popTrailing _ _)|]; by eexists.
Qed.

(** Reading a component of the signature through a valid handle. *)
Lemma read_spec s h T r m k col :
  recordIndex h ≠ InvalidIndex →
  get_at (EntityRecord.records (pool s)) (recordIndex h) = Some r →
  version h = EntityRecord.version r →
  get_at (managers s) (EntityRecord.archetype r) = Some m →
  get_at (internalIndex m) (Component_Id T) = Some k →
  k ≠ Unused →
  get_at (componentArrays m) k = Some col →
  read s h T = get_at col (EntityRecord.row r).
Proof.
  intros Hvalid Hr Hver Hm Hk Hused Hcol. unfold read, Access.
  destruct (Z.eqb_spec (recordIndex h) InvalidIndex); [done|]. simpl.
  rewrite Hr. simpl. rewrite Hver, Z.eqb_refl, Hm. simpl.
  unfold GetComponent. rewrite Hk. simpl.
  destruct (Z.eqb_spec k Unused); [done|]. rewrite Hcol. simpl.
  rewrite Hm. simpl. by rewrite Hcol.
Qed.

Lemma columns_ok_member m n c k :
  columns_ok m n → c ∈ EachComponent (id m) →
  get_at (internalIndex m) c = Some k →
  k ≠ Unused ∧ ∃ col, get_at (componentArrays m) k = Some col ∧ n ≤ len col.
Proof.
  intros (ks & Hks & _ & Hcols) [i Hi]%list_elem_of_lookup_1 Hc.
  destruct (Forall2_lookup_l _ _ _ _ _ Hks Hi) as (k' & Hk' & Hc').
  assert (k' = k) as -> by congruence.
  apply list_elem_of_lookup_2 in Hk'.
  exact (proj1 (Forall_forall _ _) Hcols k Hk').
Qed.

(** [RemoveRow] on a row below the last occupied one. *)
Lemma RemoveRow_swap s a m row removed moved rr rm :
  get_at (managers s) a = Some m →
  0 ≤ row < size m - 1 →
  columns_ok m (size m) →
  get_at (recordIndices m) row = Some removed →
  get_at (recordIndices m) (size m - 1) = Some moved →
  get_at (EntityRecord.records (pool s)) removed = Some rr →
  get_at (EntityRecord.records (pool s)) moved = Some rm →
  removed ≠ moved →
  ∃ s' m',
    RemoveRow s a row = Some s' ∧
    get_at (managers s') a = Some m' ∧
    (∀ b, b ≠ a → get_at (managers s') b = get_at (managers s) b) ∧
    id m' = id m ∧ internalIndex m' = internalIndex m ∧
    size m' = size m - 1 ∧
    get_at (recordIndices m') row = Some moved ∧
    (∀ j, j ≠ row → get_at (recordIndices m') j = get_at (recordIndices m) j) ∧
    (∀ c k col,
       c ∈ EachComponent (id m) →
       get_at (internalIndex m) c = Some k →
       get_at (componentArrays m) k = Some col →
       ∃ col',
         get_at (componentArrays m') k = Some col' ∧
         get_at col' row = get_at col (size m - 1) ∧
         ∀ j, j ≠ row → j ≠ size m - 1 → get_at col' j = get_at col j) ∧
    get_at (EntityRecord.records (pool s')) removed
      = Some (EntityRecord.mk InvalidIndex InvalidIndex
                (toIndex (EntityRecord.version rr + 1))) ∧
    get_at (EntityRecord.records (pool s')) moved
      = Some (EntityRecord.mk (EntityRecord.archetype rm) row
                (EntityRecord.version rm)) ∧
    (∀ i, i ≠ removed → i ≠ moved →
          get_at (EntityRecord.records (pool s')) i
          = get_at (EntityRecord.records (pool s)) i).
Proof.
  intros Hm Hrow Hcols Hremoved Hmoved Hrr Hrm Hdiff.
  unfold RemoveRow. rewrite Hm. simpl.
  destruct (Z.eqb_spec (size m) 0) as [|_]; [lia|].
  destruct (Z.eqb_spec row (size m - 1)) as [|_]; [lia|]. simpl.
  (* the columns *)
  destruct Hcols as (ks & Hks & Hnodup & Hall).
  destruct (foldM_columns (move_within row (size m - 1)) (internalIndex m)
              (EachComponent (id m)) ks (componentArrays m) Hks Hnodup)
    as (arrays' & Hfold & Hlen & Hin & Hout).
  { apply Forall_forall. intros k Hk.
    destruct (proj1 (Forall_forall _ _) Hall k Hk) as (_ & col & Hcol & Hn).
    exists col. split; [done|].
    destruct (move_within_spec row (size m - 1) col) as (col' & x & -> & _);
      [lia | lia | done]. }
  rewrite moveRows_on_column, Hfold. simpl.
  (* the slot table *)
  rewrite Hremoved. simpl.
  destruct (Release_records (pool s) removed rr Hrr) as (pool1 & -> & Hrecords1).
  simpl. rewrite Hmoved. simpl.
  assert (Hrm1 : get_at (EntityRecord.records pool1) moved = Some rm).
  { rewrite Hrecords1. rewrite <- Hrm. unfold get_at.
    destruct (0 <=? moved) eqn:?; [|done].
    apply list_lookup_insert_ne. apply get_at_lt in Hrr, Hrm. lia. }
  rewrite Hrm1. simpl.
  pose proof (set_at_in_range (EntityRecord.records pool1) moved
                (EntityRecord.mk (EntityRecord.archetype rm) row
                   (EntityRecord.version rm))
                (get_at_lt _ _ _ Hrm1)) as Hset2.
  rewrite Hset2. simpl.
  pose proof (set_at_in_range (recordIndices m) row moved
                (get_at_lt _ _ _ Hremoved)) as Hset3.
  rewrite Hset3. simpl.
  match goal with |- context [set_at (managers s) a ?x] =>
    pose proof (set_at_in_range (managers s) a x (get_at_lt _ _ _ Hm)) as Hset4;
    rewrite Hset4 end.
  simpl. eexists _, _. split; [reflexivity|]. simpl.
  split; [apply (get_set_at_eq _ _ _ _ Hset4)|].
  split; [intros b Hb; by apply (get_set_at_ne _ _ _ _ _ Hset4)|].
  do 3 (split; [done|]).
  split; [apply (get_set_at_eq _ _ _ _ Hset3)|].
  split; [intros j Hj; by apply (get_set_at_ne _ _ _ _ _ Hset3)|].
  split; [|split; [|split]].
  - intros c k col [i Hi]%list_elem_of_lookup_1 Hk Hcol.
    destruct (Forall2_lookup_l _ _ _ _ _ Hks Hi) as (k' & Hk' & Hc').
    assert (k' = k) as -> by congruence.
    apply list_elem_of_lookup_2 in Hk'.
    destruct (proj1 (Forall_forall _ _) Hall k Hk') as (_ & col0 & Hcol0 & Hn).
    assert (col0 = col) as -> by congruence.
    destruct (move_within_spec row (size m - 1) col)
      as (col' & x & Hmove & Hx & _ & Hatrow & Hothers); [lia | lia |].
    exists col'. simpl. rewrite (Hin k col Hk' Hcol), Hmove, Hx.
    split; [done|]. split; [apply Hatrow; lia | done].
  - rewrite (get_set_at_ne _ _ _ _ _ Hset2) by done.
    rewrite Hrecords1. apply get_at_Some. apply get_at_lt in Hrr as Hrr'.
    split; [lia|]. apply list_lookup_insert_eq. unfold len in Hrr'. lia.
  - apply (get_set_at_eq _ _ _ _ Hset2).
  - intros i Hi1 Hi2. rewrite (get_set_at_ne _ _ _ _ _ Hset2) by done.
    rewrite Hrecords1. unfold get_at. destruct (0 <=? i) eqn:Hi; [|done].
    apply list_lookup_insert_ne. apply get_at_lt in Hrr.
    apply Z.leb_le in Hi. lia.
Qed.

(** C3: three entities [e0], [e1], [e2] occupy the rows 0, 1, 2 of one
    block.  [e1.Destroy()] leaves the block with two rows; [e2] now has row 1,
    in the row table of the block and in its slot; and every component of the
    block's signature read through [e0] or through [e2] has the value it had
    before. *)
Theorem Destroy_middle_of_three s a m s0 s1 s2 v0 v1 v2 :
  get_at (managers s) a = Some m →
  size m = 3 →
  columns_ok m 3 →
  get_at (recordIndices m) 0 = Some s0 →
  get_at (recordIndices m) 1 = Some s1 →
  get_at (recordIndices m) 2 = Some s2 →
  get_at (EntityRecord.records (pool s)) s0 = Some (EntityRecord.mk a 0 v0) →
  get_at (EntityRecord.records (pool s)) s1 = Some (EntityRecord.mk a 1 v1) →
  get_at (EntityRecord.records (pool s)) s2 = Some (EntityRecord.mk a 2 v2) →
  s0 ≠ InvalidIndex → s1 ≠ InvalidIndex → s2 ≠ InvalidIndex →
  ∃ s' e1' m',
    Destroy s (mk s1 v1) = Some (s', e1') ∧
    get_at (managers s') a = Some m' ∧
    size m' = 2 ∧
    get_at (recordIndices m') 0 = Some s0 ∧
    get_at (recordIndices m') 1 = Some s2 ∧
    get_at (EntityRecord.records (pool s')) s0 = Some (EntityRecord.mk a 0 v0) ∧
    get_at (EntityRecord.records (pool s')) s2 = Some (EntityRecord.mk a 1 v2) ∧
    ∀ T, Component_Id T ∈ EachComponent (id m) →
         is_Some (read s (mk s0 v0) T) ∧
         read s' (mk s0 v0) T = read s (mk s0 v0) T ∧
         is_Some (read s (mk s2 v2) T) ∧
         read s' (mk s2 v2) T = read s (mk s2 v2) T.
Proof.
  intros Hm Hsize Hcols Hrow0 Hrow1 Hrow2 Hrec0 Hrec1 Hrec2 Hs0 Hs1 Hs2.
  assert (s1 ≠ s2) as H12 by congruence.
  assert (s0 ≠ s1) as H01 by congruence.
  assert (s0 ≠ s2) as H02 by congruence.
  rewrite <- Hsize in Hcols.
  destruct (RemoveRow_swap s a m 1 s1 s2 _ _ Hm ltac:(lia) Hcols Hrow1
              ltac:(by rewrite Hsize) Hrec1 Hrec2 H12)
    as (s' & m' & Hremove & Hm' & _ & Hid & Hii & Hsize' & Hmoved & Hrows
        & Hcolumns & _ & Hrec2' & Hrecs).
  simpl in Hrec2'.
  exists s', (mk InvalidIndex v1), m'. split; [|split; [|split; [|split; [|split; [|split; [|split]]]]]].
  - unfold Destroy. simpl. destruct (Z.eqb_spec s1 InvalidIndex); [done|]. simpl.
    rewrite Hrec1. simpl. by rewrite Z.eqb_refl, Hremove.
  - done.
  - lia.
  - by rewrite Hrows.
  - done.
  - by rewrite Hrecs.
  - done.
  - intros T HT.
    destruct (columns_ok_lookup m (size m) T Hcols HT)
      as (k & col & Hk & Hused & Hcol & Hlen).
    destruct (Hcolumns _ k col HT Hk Hcol) as (col' & Hcol' & Hat1 & Hother).
    rewrite (read_spec s (mk s0 v0) T _ m k col Hs0 Hrec0 eq_refl Hm Hk Hused Hcol).
    rewrite (read_spec s (mk s2 v2) T _ m k col Hs2 Hrec2 eq_refl Hm Hk Hused Hcol).
    rewrite (read_spec s' (mk s0 v0) T (EntityRecord.mk a 0 v0) m' k col' Hs0
               ltac:(by rewrite Hrecs) eq_refl Hm' ltac:(by rewrite Hii) Hused Hcol').
    rewrite (read_spec s' (mk s2 v2) T (EntityRecord.mk a 1 v2) m' k col' Hs2
               Hrec2' eq_refl Hm' ltac:(by rewrite Hii) Hused Hcol').
    simpl. rewrite Hat1, Hsize, (Hother 0) by lia. simpl.
    split; [apply get_at_is_Some; lia|]. split; [done|].
    split; [apply get_at_is_Some; lia | done].
Qed.

Lemma Destroy_middle_of_three_witness :
  ∃ s' e1' m',
    Destroy Examples.state3 Examples.e1 = Some (s', e1') ∧
    get_at (managers s') 0 = Some m' ∧
    size m' = 2 ∧
    get_at (recordIndices m') 0 = Some 0 ∧
    get_at (recordIndices m') 1 = Some 2 ∧
    get_at (EntityRecord.records (pool s')) 0 = Some (EntityRecord.mk 0 0 0) ∧
    get_at (EntityRecord.records (pool s')) 2 = Some (EntityRecord.mk 0 1 0) ∧
    ∀ T, Component_Id T ∈ EachComponent 3 →
         is_Some (read Examples.state3 Examples.e0 T) ∧
         read s' Examples.e0 T = read Examples.state3 Examples.e0 T ∧
         is_Some (read Examples.state3 Examples.e2 T) ∧
         read s' Examples.e2 T = read Examples.state3 Examples.e2 T.
Proof.
  apply (Destroy_middle_of_three Examples.state3 0 Examples.block3 0 1 2 0 0 0);
    try reflexivity; try (vm_compute; discriminate).
  exists [0; 1]. split; [|split].
  - repeat constructor.
  - compute_done.
  - repeat constructor; try (vm_compute; discriminate);
      eexists; (split; [reflexivity | vm_compute; discriminate]).
Defined.

End SwapRemoval.

(** ** Growth of a block *)
Section Growth.
Import Component ArchetypeManager Invariants.

Lemma grow_bounds c : 0 ≤ c → 2 ≤ grow c ∧ c < grow c ∧ 2 * grow c = 3 * c + (3 * c) mod 2 ∨ c = 0 ∧ grow c = 2.
Proof.
  intros Hc. unfold grow. destruct (Z.eqb_spec c 0) as [->|Hne]; [by right|].
  left. pose proof (Z.div_mod c 2 ltac:(lia)) as Hdiv.
  pose proof (Z.mod_pos_bound c 2 ltac:(lia)) as Hmod.
  assert ((3 * c) mod 2 = c mod 2) as ->.
  { replace (3 * c) with (c + c * 2) by lia. by rewrite Z.mod_add. }
  lia.
Qed.

Lemma len_fresh {A} n (x : A) : 0 ≤ n → len (fresh n x) = n.
Proof. intros Hn. unfold len, fresh. rewrite length_replicate. lia. Qed.

Lemma get_at_app_l {A} (l k : list A) i :
  i < len l → get_at (l ++ k) i = get_at l i.
Proof.
  intros Hi. unfold get_at. destruct (Z.leb_spec 0 i); [|done].
  apply lookup_app_l. unfold len in Hi. lia.
Qed.

Lemma get_at_take {A} (l : list A) n i :
  i < n → get_at (take (Z.to_nat n) l) i = get_at l i.
Proof.
  intros Hi. unfold get_at. destruct (Z.leb_spec 0 i); [|done].
  apply lookup_take_lt. lia.
Qed.

(** A successful [ResizeArray] yields an array of the new size that starts
    with the first [moveCount] cells of the original. *)
Lemma ResizeArray_spec alloc_ok col newSize moveCount :
  alloc_ok newSize = true →
  0 ≤ moveCount ≤ newSize → moveCount ≤ len col →
  ∃ col',
    ResizeArray alloc_ok col newSize moveCount = Returns (true, col') ∧
    len col' = newSize ∧
    ∀ j, j < moveCount → get_at col' j = get_at col j.
Proof.
  intros Hok Hnew Hold. unfold ResizeArray. rewrite Hok.
  destruct (Z.leb_spec moveCount newSize); [|lia].
  destruct (Z.leb_spec moveCount (len col)); [|lia]. simpl.
  eexists. split; [reflexivity|]. split.
  - unfold len, fresh in *. rewrite length_app, length_take, length_replicate. lia.
  - intros j Hj. rewrite get_at_app_l, get_at_take; [done | done |].
    unfold len in *. rewrite length_take. lia.
Qed.

(** A loop whose body does not throw. *)
Lemma foldO_defined {S A B} (f : A → B → outcome S A) (g : A → B → option A) a l :
  (∀ a b, f a b = defined (g a b)) →
  foldO f a l = defined (foldM g a l).
Proof.
  intros Hfg. revert a; induction l as [|b l IH]; intros a; simpl; [done|].
  rewrite Hfg. destruct (g a b) as [a'|]; simpl; [apply IH | done].
Qed.

(** Where the allocations succeed, [resizeColumns] replaces each column of
    the signature by the array [ResizeArray] returns for it. *)
Lemma resizeColumns_on_column alloc_ok m capacity' :
  alloc_ok capacity' = true →
  resizeColumns alloc_ok m capacity'
  = defined
      (foldM (on_column
                (λ col, snd <$> returned (ResizeArray alloc_ok col capacity' (size m)))
                (internalIndex m))
         (componentArrays m) (EachComponent (id m))).
Proof.
  intros Hok. unfold resizeColumns. apply foldO_defined.
  intros arrays c. unfold on_column.
  destruct (get_at (internalIndex m) c); simpl; [|done].
  destruct (get_at arrays _); simpl; [|done].
  unfold ResizeArray. rewrite Hok. by destruct (_ && _).
Qed.

(** [ReserveRecord] on a full block, while the grown capacity still fits an
    [Index]: the capacity becomes [2c - c/2], which is [3c/2] rounded up and
    at least 2; the row table and every column of the signature have that
    many cells and keep their first [size] cells; the new row is linked to
    the reserved slot. *)
Lemma ReserveRecord_grows alloc_ok s a m pool1 i r :
  (∀ n, alloc_ok n = true) →
  get_at (managers s) a = Some m →
  0 ≤ size m → size m = capacity m →
  grow (capacity m) < 65536 →
  columns_ok m (size m) →
  EntityRecord.Reserve alloc_ok (pool s) = Returns (pool1, EntityRecord.At i) →
  get_at (EntityRecord.records pool1) i = Some r →
  ∃ s' m',
    ReserveRecord alloc_ok s a = Returns (s', EntityRecord.At i) ∧
    get_at (managers s') a = Some m' ∧
    capacity m' = grow (capacity m) ∧
    2 ≤ capacity m' ∧
    (2 * capacity m' = 3 * capacity m + (3 * capacity m) mod 2 ∨ capacity m = 0) ∧
    size m' = size m + 1 ∧
    id m' = id m ∧ internalIndex m' = internalIndex m ∧
    len (recordIndices m') = capacity m' ∧
    get_at (recordIndices m') (size m) = Some (toIndex i) ∧
    (∀ j x, j < size m → get_at (recordIndices m) j = Some x →
            get_at (recordIndices m') j = Some x) ∧
    (∀ c k col,
       c ∈ EachComponent (id m) →
       get_at (internalIndex m) c = Some k →
       get_at (componentArrays m) k = Some col →
       ∃ col',
         get_at (componentArrays m') k = Some col' ∧
         len col' = capacity m' ∧
         ∀ j, j < size m → get_at col' j = get_at col j) ∧
    get_at (EntityRecord.records (pool s')) i
      = Some (EntityRecord.mk (toIndex a) (size m) (EntityRecord.version r)).
Proof.
  intros Hok Hm Hsize Hfull Hfit Hcols Hreserve Hr.
  pose proof (grow_bounds (capacity m) ltac:(lia)) as Hgrow.
  assert (Hcap : toIndex (grow (capacity m)) = grow (capacity m)).
  { apply toIndex_small. lia. }
  unfold ReserveRecord. rewrite Hreserve. simpl. rewrite Hm. simpl.
  destruct (Z.geb_spec (size m) (capacity m)); [|lia].
  rewrite Hcap.
  (* the columns *)
  destruct Hcols as (ks & Hks & Hnodup & Hall).
  destruct (foldM_columns
              (λ col, snd <$> returned
                        (ResizeArray alloc_ok col (grow (capacity m)) (size m)))
              (internalIndex m) (EachComponent (id m)) ks (componentArrays m)
              Hks Hnodup)
    as (arrays' & Hfold & Hlen & Hin & Hout).
  { apply Forall_forall. intros k Hk.
    destruct (proj1 (Forall_forall _ _) Hall k Hk) as (_ & col & Hcol & Hn).
    exists col. split; [done|].
    destruct (ResizeArray_spec alloc_ok col (grow (capacity m)) (size m))
      as (col' & -> & _); [done | lia | done | by eexists]. }
  rewrite resizeColumns_on_column, Hfold by done. simpl.
  (* the row table *)
  unfold realloc. rewrite Hok.
  set (rows := take (Z.to_nat (grow (capacity m))) (recordIndices m)
               ++ fresh (grow (capacity m) - len (recordIndices m)) 0).
  assert (Hrows : len rows = grow (capacity m)).
  { unfold rows, len, fresh. rewrite length_app, length_take, length_replicate. lia. }
  pose proof (set_at_in_range rows (size m) (toIndex i) ltac:(lia)) as Hset1.
  rewrite Hset1. simpl. rewrite Hr. simpl.
  pose proof (set_at_in_range (EntityRecord.records pool1) i
                (EntityRecord.mk (toIndex a) (size m) (EntityRecord.version r))
                (get_at_lt _ _ _ Hr)) as Hset2.
  rewrite Hset2. simpl.
  match goal with |- context [set_at (managers s) a ?x] =>
    pose proof (set_at_in_range (managers s) a x (get_at_lt _ _ _ Hm)) as Hset3;
    rewrite Hset3 end.
  simpl. eexists _, _. split; [reflexivity|]. simpl.
  split; [apply (get_set_at_eq _ _ _ _ Hset3)|]. simpl.
  split; [done|]. split; [lia|]. split; [lia|].
  split; [apply toIndex_small; lia|]. split; [done|]. split; [done|].
  split; [by rewrite (len_set_at _ _ _ _ Hset1)|].
  split; [apply (get_set_at_eq _ _ _ _ Hset1)|].
  split; [|split].
  - intros j x Hj Hx. rewrite (get_set_at_ne _ _ _ _ _ Hset1) by lia.
    unfold rows. pose proof (get_at_lt _ _ _ Hx) as Hjl.
    rewrite get_at_app_l, get_at_take; [done | lia |].
    unfold len in *. rewrite length_take. lia.
  - intros c k col [n Hn]%list_elem_of_lookup_1 Hk Hcol.
    destruct (Forall2_lookup_l _ _ _ _ _ Hks Hn) as (k' & Hk' & Hc').
    assert (k' = k) as -> by congruence.
    apply list_elem_of_lookup_2 in Hk'.
    destruct (proj1 (Forall_forall _ _) Hall k Hk') as (_ & col0 & Hcol0 & Hlen0).
    assert (col0 = col) as -> by congruence.
    destruct (ResizeArray_spec alloc_ok col (grow (capacity m)) (size m))
      as (col' & Hresize & Hlen' & Hkeep); [done | lia | done |].
    exists col'. rewrite (Hin k col Hk' Hcol), Hresize. by simpl.
  - apply (get_set_at_eq _ _ _ _ Hset2).
Qed.

(** The capacities a block goes through as entities are added to it. *)
Lemma capacity_sequence :
  Nat.iter 25 (λ c, toIndex (grow c)) 2 = 61446 ∧
  Nat.iter 26 (λ c, toIndex (grow c)) 2 = 26633.
Proof. split; vm_compute; reflexivity. Qed.

End Growth.

(** ** The column table of a constructed block *)
Section InternalIndex.
Import Component ArchetypeManager.

(** [EachComponent] visits the positions of the bits set in the signature,
    in increasing order. *)
Lemma EachComponent_loop_elem n id' c0 x :
  0 ≤ id' < 2 ^ Z.of_nat n →
  x ∈ EachComponent_loop n id' c0 ↔ c0 ≤ x ∧ Z.testbit id' (x - c0) = true.
Proof.
  revert id' c0; induction n as [|n IH]; intros id' c0 Hid.
  - simpl in *. assert (id' = 0) as -> by lia. rewrite Z.testbit_0_l.
    split; [by intros ?%elem_of_nil | by intros [_ ?]].
  - simpl EachComponent_loop. rewrite elem_of_app.
    assert (Hhalf : 0 ≤ Z.shiftr id' 1 < 2 ^ Z.of_nat n).
    { rewrite Z.shiftr_div_pow2 by lia. change (2 ^ 1) with 2.
      rewrite Nat2Z.inj_succ, Z.pow_succ_r in Hid by lia.
      split; [apply Z.div_pos; lia | apply Z.div_lt_upper_bound; lia]. }
    assert (Hbit0 : Z.land 1 id' = Z.b2z (Z.testbit id' 0)).
    { rewrite Z.land_comm. change 1 with (Z.ones 1).
      rewrite Z.land_ones by lia. change (2 ^ 1) with 2.
      by rewrite Z.bit0_mod. }
    assert (Hhigh : ∀ k, 0 ≤ k → Z.testbit (Z.shiftr id' 1) k = Z.testbit id' (k + 1)).
    { intros k Hk. by rewrite Z.shiftr_spec by lia. }
    split.
    + intros [Hhere|Hrest].
      * destruct (Z.eqb_spec (Z.land 1 id') 0) as [|Hone];
          [by apply elem_of_nil in Hhere|].
        apply list_elem_of_singleton in Hhere as ->. split; [lia|].
        rewrite Z.sub_diag. destruct (Z.testbit id' 0); [done|].
        by rewrite Hbit0 in Hone.
      * destruct (Z.eqb_spec (Z.shiftr id' 1) 0) as [|Hnz];
          [by apply elem_of_nil in Hrest|].
        apply IH in Hrest as [Hx Hbit]; [|done]. split; [lia|].
        rewrite Hhigh in Hbit by lia. rewrite <- Hbit. f_equal. lia.
    + intros [Hx Hbit]. destruct (Z.eq_dec x c0) as [->|Hne].
      * left. rewrite Z.sub_diag in Hbit. rewrite Hbit0, Hbit. simpl.
        by apply list_elem_of_singleton.
      * right. assert (Hbit' : Z.testbit (Z.shiftr id' 1) (x - (c0 + 1)) = true).
        { rewrite Hhigh by lia. rewrite <- Hbit. f_equal. lia. }
        destruct (Z.eqb_spec (Z.shiftr id' 1) 0) as [Hz|Hnz].
        { rewrite Hz, Z.testbit_0_l in Hbit'. done. }
        apply IH; [done|]. split; [lia | done].
Qed.

Lemma EachComponent_loop_length n id' c0 :
  (length (EachComponent_loop n id' c0) ≤ n)%nat.
Proof.
  revert id' c0; induction n as [|n IH]; intros id' c0; simpl; [done|].
  rewrite length_app. specialize (IH (Z.shiftr id' 1) (c0 + 1)).
  destruct (_ =? _), (_ =? _); simpl; lia.
Qed.

Lemma EachComponent_elem id' c :
  0 ≤ id' < 2 ^ 64 →
  c ∈ EachComponent id' ↔ 0 ≤ c ∧ Z.testbit id' c = true.
Proof.
  intros Hid. unfold EachComponent.
  rewrite (EachComponent_loop_elem 64 id' 0 c Hid). by rewrite Z.sub_0_r.
Qed.

(** The loop of the constructor writes the entries of the components it
    visits and no other. *)
Lemma constructor_loop_other cs (ii : list Z) count c :
  0 ≤ c → Forall (λ x, 0 ≤ x) cs → c ∉ cs →
  (fold_left (λ '(ii, count) componentId,
                (<[Z.to_nat componentId := count]> ii, toU8 (count + 1)))
             cs (ii, count)).1 !! Z.to_nat c
  = ii !! Z.to_nat c.
Proof.
  intros Hc. revert ii count; induction cs as [|x cs IH]; intros ii count Hcs Hnotin;
    simpl; [done|].
  apply Forall_cons in Hcs as [Hx Hcs]. apply not_elem_of_cons in Hnotin as [Hne Hnotin].
  rewrite IH by done. apply list_lookup_insert_ne. lia.
Qed.

Lemma constructor_loop_count cs (ii : list Z) count :
  (fold_left (λ '(ii, count) componentId,
                (<[Z.to_nat componentId := count]> ii, toU8 (count + 1)))
             cs (ii, count)).2
  = if decide (cs = []) then count else toU8 (count + len cs).
Proof.
  revert ii count; induction cs as [|x cs IH]; intros ii count; simpl; [done|].
  rewrite IH. unfold toU8, len. simpl length.
  destruct (decide (cs = [])) as [->|_]; simpl.
  - f_equal.
  - rewrite Zplus_mod_idemp_l. f_equal. lia.
Qed.

(** The entry of a component outside the signature after construction:
    [Unused] for component 0, but 0 for the components 1 to 63. *)
Lemma construct_absent newId c :
  0 ≤ newId < 2 ^ 64 → 0 ≤ c < 64 → Z.testbit newId c = false →
  get_at (internalIndex (construct newId)) c = Some (if c =? 0 then Unused else 0).
Proof.
  intros Hid Hc Hbit. unfold construct.
  pose proof (constructor_loop_other (EachComponent newId) initialInternalIndex 0 c
                ltac:(lia)) as Hother.
  destruct (fold_left _ _ _) as [ii count]. simpl in *.
  unfold get_at. destruct (Z.leb_spec 0 c); [|lia].
  rewrite Hother.
  - destruct (Z.eqb_spec c 0) as [->|Hne]; [done|].
    unfold initialInternalIndex, fresh.
    rewrite lookup_cons_ne_0 by lia.
    apply lookup_replicate_2. unfold MaxComponentTypes. lia.
  - apply Forall_forall. intros x Hx. by apply EachComponent_elem in Hx as [? _].
  - intros Hin%EachComponent_elem; [|done]. destruct Hin. congruence.
Qed.

(** For a block made by the constructor, [GetComponent<T>] of a component
    type that is not in the signature is the null pointer only when [T] is
    component 0; for another [T] it is a pointer into the first column. *)
Lemma GetComponent_absent newId T row :
  0 < newId < 2 ^ 64 → 0 ≤ Component_Id T < 64 →
  Contains (construct newId) (IdBinary T) = false →
  GetComponent (construct newId) T row
  = Some (if Component_Id T =? 0 then nullptr else cell 0 row).
Proof.
  intros Hid HT Hcontains.
  assert (Hbit : Z.testbit newId (Component_Id T) = false).
  { unfold Contains, IdBinary in Hcontains. rewrite construct_id in Hcontains.
    destruct (Z.testbit newId (Component_Id T)) eqn:Hbit; [|done].
    apply Z.eqb_neq in Hcontains. exfalso. apply Hcontains.
    apply Z.bits_inj'. intros k Hk. rewrite Z.land_spec, Z.shiftl_spec by done.
    destruct (Z.eq_dec k (Component_Id T)) as [->|Hne].
    - by rewrite Hbit, Z.sub_diag.
    - destruct (Z.ltb_spec k (Component_Id T)).
      + replace (Z.testbit 1 (k - Component_Id T)) with false
          by (symmetry; apply Z.testbit_neg_r; lia).
        apply andb_false_r.
      + replace (Z.testbit 1 (k - Component_Id T)) with false
          by (symmetry; apply Z.bits_above_log2; [|change (Z.log2 1) with 0]; lia).
        apply andb_false_r. }
  unfold GetComponent. rewrite (construct_absent newId _ ltac:(lia) HT Hbit). simpl.
  destruct (Z.eqb_spec (Component_Id T) 0); [done|]. simpl.
  replace (get_at (componentArrays (construct newId)) 0) with (Some ([] : list Value));
    [done|].
  unfold construct.
  pose proof (constructor_loop_count (EachComponent newId) initialInternalIndex 0)
    as Hcount.
  destruct (fold_left _ _ _) as [ii count]. simpl in *. subst count.
  assert (Hsome : ∃ x, x ∈ EachComponent newId).
  { exists (Z.log2 newId). apply EachComponent_elem; [lia|].
    split; [apply Z.log2_nonneg|]. apply Z.bit_log2. lia. }
  destruct Hsome as [x Hx].
  destruct (decide (EachComponent newId = [])) as [Hnil|_].
  { rewrite Hnil in Hx. by apply elem_of_nil in Hx. }
  unfold fresh. symmetry.
  assert (Hlen : 0 < len (EachComponent newId) ≤ 64).
  { pose proof (EachComponent_loop_length 64 newId 0) as Hle.
    fold (EachComponent newId) in Hle. unfold len.
    destruct (EachComponent newId); [by apply elem_of_nil in Hx | simpl in *; lia]. }
  rewrite Z.add_0_l. unfold toU8. rewrite Z.mod_small by lia.
  unfold get_at. simpl. apply lookup_replicate_2. lia.
Qed.

End InternalIndex.

(** ** Destroying an entity *)
Section DestroyEntity.
Import Component ArchetypeManager EntityReference Invariants.

(** [Destroy()] through a valid handle of an entity below the last occupied
    row: the row is filled by swap-removal and the slot of the entity is
    released, its generation incremented. *)
Lemma Destroy_inner_row_releases s h r m moved rm :
  recordIndex h ≠ InvalidIndex →
  get_at (EntityRecord.records (pool s)) (recordIndex h) = Some r →
  version h = EntityRecord.version r →
  get_at (managers s) (EntityRecord.archetype r) = Some m →
  0 ≤ EntityRecord.row r < size m - 1 →
  columns_ok m (size m) →
  get_at (recordIndices m) (EntityRecord.row r) = Some (recordIndex h) →
  get_at (recordIndices m) (size m - 1) = Some moved →
  get_at (EntityRecord.records (pool s)) moved = Some rm →
  recordIndex h ≠ moved →
  ∃ s' m',
    Destroy s h = Some (s', mk InvalidIndex (version h)) ∧
    get_at (managers s') (EntityRecord.archetype r) = Some m' ∧
    size m' = size m - 1 ∧
    get_at (EntityRecord.records (pool s')) (recordIndex h)
      = Some (EntityRecord.mk InvalidIndex InvalidIndex
                (toIndex (EntityRecord.version r + 1))).
Proof.
  intros Hvalid Hr Hver Hm Hrow Hcols Hrows Hlast Hrm Hne.
  destruct (RemoveRow_swap s _ m _ _ moved r rm Hm Hrow Hcols Hrows Hlast Hr Hrm Hne)
    as (s' & m' & Hremove & Hm' & _ & _ & _ & Hsize & _ & _ & _ & Hreleased & _).
  exists s', m'. split; [|done].
  unfold Destroy. destruct (Z.eqb_spec (recordIndex h) InvalidIndex); [done|].
  simpl. rewrite Hr. simpl. by rewrite Hver, Z.eqb_refl, Hremove.
Qed.

(** [Destroy()] through a valid handle of the entity in the last occupied
    row: the row count is decremented and nothing else happens; the slot
    keeps its archetype, row and generation, and the handle value still
    matches it. *)
Lemma Destroy_last_row_not_released s h r m :
  recordIndex h ≠ InvalidIndex →
  get_at (EntityRecord.records (pool s)) (recordIndex h) = Some r →
  version h = EntityRecord.version r →
  get_at (managers s) (EntityRecord.archetype r) = Some m →
  size m ≠ 0 →
  EntityRecord.row r = size m - 1 →
  ∃ s',
    Destroy s h = Some (s', mk InvalidIndex (version h)) ∧
    pool s' = pool s ∧
    get_at (EntityRecord.records (pool s')) (recordIndex h) = Some r ∧
    version h = EntityRecord.version r.
Proof.
  intros Hvalid Hr Hver Hm Hsize Hrow.
  unfold Destroy. destruct (Z.eqb_spec (recordIndex h) InvalidIndex); [done|].
  simpl. rewrite Hr. simpl. rewrite Hver, Z.eqb_refl, Hrow.
  destruct (RemoveRow s (EntityRecord.archetype r) (size m - 1)) as [s'|] eqn:Hremove.
  - pose proof (RemoveRow_last_row_pool _ _ _ _ Hm Hsize Hremove) as Hpool.
    exists s'. simpl. rewrite Hpool. by rewrite <- Hver.
  - exfalso. revert Hremove. unfold RemoveRow. rewrite Hm. simpl.
    destruct (Z.eqb_spec (size m) 0); [done|]. rewrite Z.eqb_refl. simpl.
    by rewrite set_at_in_range by (eapply get_at_lt; eassumption).
Qed.

End DestroyEntity.

(** ** Filling one block *)
Section Filling.
Import Component ArchetypeManager Examples.

Lemma capacities_step :
  Forall (λ c, c < 61446 →
               toIndex (grow c) ∈ capacities ∧ c < toIndex (grow c) ∧
               grow c < 65536)
         capacities.
Proof.
  unfold capacities.
  repeat (constructor; [intros _; split; [compute_done | split; vm_compute; reflexivity]|]).
  constructor; [lia | constructor].
Qed.

Lemma capacity_after_inv n :
  (n ≤ Z.to_nat 61446)%nat →
  capacity_after n ∈ capacities ∧ Z.of_nat n ≤ capacity_after n ≤ 61446.
Proof.
  induction n as [|n IH]; intros Hn.
  - split; [compute_done | simpl; lia].
  - destruct (IH ltac:(lia)) as [Hin Hle]. simpl capacity_after.
    destruct (Z.geb_spec (Z.of_nat n) (capacity_after n)) as [Hfull|Hroom].
    + destruct (proj1 (Forall_forall _ _) capacities_step _ Hin ltac:(lia))
        as (Hin' & Hlt & _).
      split; [done|]. split; [lia|].
      assert (Forall (λ c, c ≤ 61446) capacities) as Hall by (by repeat constructor).
      exact (proj1 (Forall_forall _ _) Hall _ Hin').
    + split; [done | lia].
Qed.

Lemma count_up_snoc n i : count_up (S n) i = count_up n i ++ [i + Z.of_nat n].
Proof.
  revert i; induction n as [|n IH]; intros i.
  - simpl. by rewrite Z.add_0_r.
  - change (count_up (S (S n)) i) with (i :: count_up (S n) (i + 1)).
    rewrite IH. simpl. do 3 f_equal. lia.
Qed.

Lemma length_count_up n i : length (count_up n i) = n.
Proof. revert i; induction n as [|n IH]; intros i; simpl; [done | by rewrite IH]. Qed.

Lemma fresh_cons {A} k (x : A) : 1 ≤ k → fresh k x = x :: fresh (k - 1) x.
Proof.
  intros Hk. unfold fresh. by replace (Z.to_nat k) with (S (Z.to_nat (k - 1))) by lia.
Qed.

Lemma fresh_nil {A} k (x : A) : k ≤ 0 → fresh k x = [].
Proof. intros Hk. unfold fresh. by replace (Z.to_nat k) with O by lia. Qed.

(** Writing the first unused cell of an array. *)
Lemma set_at_first_fresh {A} (l : list A) n k x y :
  len l = n → 1 ≤ k →
  set_at (l ++ fresh k x) n y = Some ((l ++ [y]) ++ fresh (k - 1) x).
Proof.
  intros <- Hk. rewrite set_at_in_range.
  - f_equal. rewrite (fresh_cons k) by done. unfold len. rewrite Nat2Z.id.
    rewrite insert_app_r_alt by done. rewrite Nat.sub_diag. simpl.
    by rewrite <- app_assoc.
  - unfold len. rewrite length_app. unfold fresh. rewrite length_replicate. lia.
Qed.

Lemma get_at_first_fresh {A} (l : list A) n k x :
  len l = n → 1 ≤ k → get_at (l ++ fresh k x) n = Some x.
Proof.
  intros <- Hk. apply get_at_Some. unfold len. split; [lia|].
  rewrite Nat2Z.id, lookup_app_r, Nat.sub_diag by done.
  by rewrite (fresh_cons k) by done.
Qed.

(** Growing a full array gives the old cells followed by fresh ones. *)
Lemma take_full_fresh {A} (l : list A) n k x :
  len l = n → take (Z.to_nat n) (l ++ fresh 0 x) ++ fresh k x = l ++ fresh k x.
Proof.
  intros <-. rewrite fresh_nil, app_nil_r by done. unfold len.
  by rewrite Nat2Z.id, firstn_all.
Qed.

Lemma Helper_id_Position : Helper_id [Position] = 1.
Proof. reflexivity. Qed.

(** [Reserve] in the state after [n] reservations. *)
Lemma Reserve_pool_after n :
  (n < Z.to_nat 61446)%nat →
  EntityRecord.Reserve always (pool_after n)
  = Returns (EntityRecord.mkPool (capacity_after (S n)) (Z.of_nat n + 1) []
               (((λ i, EntityRecord.mk 0 i 0) <$> count_up n 0)
                  ++ fresh (capacity_after (S n) - Z.of_nat n) EntityRecord.initial)
               EntityRecord.initial,
             EntityRecord.At (Z.of_nat n)).
Proof.
  intros Hn. destruct (capacity_after_inv n ltac:(lia)) as [Hin Hle].
  unfold EntityRecord.Reserve, pool_after. simpl capacity_after.
  cbn [EntityRecord.freeList EntityRecord.last EntityRecord.capacity
       EntityRecord.records EntityRecord.invalidRecord].
  destruct (Z.geb_spec (Z.of_nat n) (capacity_after n)) as [Hfull|Hroom]; [|done].
  destruct (proj1 (Forall_forall _ _) capacities_step _ Hin ltac:(lia))
    as (_ & Hlt & Hfit).
  assert (Hc : capacity_after n = Z.of_nat n) by lia.
  pose proof (grow_bounds (capacity_after n) ltac:(lia)) as Hgrow.
  rewrite (toIndex_small (grow _)) by lia.
  unfold always at 1.
  assert (Hlen : len ((λ i, EntityRecord.mk 0 i 0) <$> count_up n 0) = Z.of_nat n).
  { unfold len. by rewrite length_fmap, length_count_up. }
  rewrite Hc, Z.sub_diag.
  destruct (Z.leb_spec (Z.of_nat n) 65535); [|lia].
  destruct (Z.leb_spec (Z.of_nat n)
              (len (((λ i, EntityRecord.mk 0 i 0) <$> count_up n 0)
                      ++ fresh 0 EntityRecord.initial))) as [|Hbad].
  - simpl. by rewrite take_full_fresh.
  - rewrite fresh_nil, app_nil_r in Hbad by done. lia.
Qed.

Lemma EachComponent_1 : EachComponent 1 = [0].
Proof. reflexivity. Qed.

Lemma internalIndex_Position : get_at (internalIndex (construct 1)) 0 = Some 0.
Proof. reflexivity. Qed.

(** The block after the growth step of [ReserveRecord], if there is one. *)
Lemma grown_block_after (f : list (list Value) → state) done :
  (length done < Z.to_nat 61446)%nat →
  (if size (block_after done) >=? capacity (block_after done)
   then
     arrays' ← in_state f
                 (resizeColumns always (block_after done)
                    (toIndex (grow (capacity (block_after done)))));
     Returns (mk (id (block_after done))
                (realloc always (recordIndices (block_after done))
                   (toIndex (grow (capacity (block_after done)))))
                arrays' (internalIndex (block_after done))
                (toIndex (grow (capacity (block_after done))))
                (size (block_after done)))
   else Returns (block_after done))
  = Returns (mk 1 (count_up (length done) 0
                     ++ fresh (capacity_after (S (length done))
                               - Z.of_nat (length done)) 0)
                [done ++ fresh (capacity_after (S (length done))
                                - Z.of_nat (length done)) DefaultValue]
                (internalIndex (construct 1))
                (capacity_after (S (length done)))
                (Z.of_nat (length done))).
Proof.
  intros Hn. set (n := length done) in *.
  destruct (capacity_after_inv n ltac:(lia)) as [Hin Hle].
  destruct (capacity_after_inv (S n) ltac:(lia)) as [_ Hle'].
  unfold block_after. fold n. cbn [size capacity id recordIndices internalIndex].
  simpl capacity_after in *.
  destruct (Z.geb_spec (Z.of_nat n) (capacity_after n)) as [Hfull|Hroom]; [|done].
  assert (Hc : capacity_after n = Z.of_nat n) by lia. rewrite Hc, Z.sub_diag.
  rewrite Hc in Hle'. set (c' := toIndex (grow (Z.of_nat n))) in *.
  unfold resizeColumns. cbn [id internalIndex componentArrays size].
  rewrite EachComponent_1. cbn [foldO]. rewrite internalIndex_Position.
  cbn [mbind outcome_bind defined]. change (get_at [?col] 0) with (Some col).
  cbn [mbind outcome_bind defined]. unfold ResizeArray, always at 1.
  assert (Hlen : len done = Z.of_nat n) by done.
  assert (Hlen0 : len (done ++ fresh 0 DefaultValue) = Z.of_nat n).
  { by rewrite fresh_nil, app_nil_r by done. }
  rewrite Hlen0.
  destruct (Z.leb_spec (Z.of_nat n) c'); [|lia]. rewrite Z.leb_refl.
  cbn [andb mbind outcome_bind in_state]. change (set_at [?col] 0 ?x) with (Some [x]).
  cbn [mbind outcome_bind defined in_state]. rewrite take_full_fresh by done.
  unfold realloc, always.
  assert (Hlen1 : len (count_up n 0) = Z.of_nat n).
  { unfold len. by rewrite length_count_up. }
  assert (Hlen2 : len (count_up n 0 ++ fresh 0 0) = Z.of_nat n).
  { by rewrite fresh_nil, app_nil_r by done. }
  rewrite Hlen2. do 2 f_equal.
  rewrite fresh_nil, app_nil_r by done.
  rewrite take_ge; [done|]. rewrite length_count_up. lia.
Qed.

(** [ReserveRecord] in the state after the entities of [done]. *)
Lemma ReserveRecord_state_after done :
  (length done < Z.to_nat 61446)%nat →
  ReserveRecord always (state_after done) 0
  = Returns (mkState (pool_after (S (length done)))
               [mk 1 (count_up (S (length done)) 0
                        ++ fresh (capacity_after (S (length done))
                                  - Z.of_nat (S (length done))) 0)
                   [done ++ fresh (capacity_after (S (length done))
                                   - Z.of_nat (length done)) DefaultValue]
                   (internalIndex (construct 1))
                   (capacity_after (S (length done)))
                   (Z.of_nat (S (length done)))],
             EntityRecord.At (Z.of_nat (length done))).
Proof.
  intros Hn. pose proof (λ f, grown_block_after f done Hn) as Hgrown.
  set (n := length done) in *.
  destruct (capacity_after_inv (S n) ltac:(lia)) as [_ Hle'].
  unfold ReserveRecord, state_after. fold n.
  cbn [pool managers]. rewrite (Reserve_pool_after n Hn).
  cbn [mbind outcome_bind option_bind defined in_state]. change (get_at [?m] 0) with (Some m).
  cbn [mbind outcome_bind option_bind defined]. rewrite Hgrown.
  cbn [mbind outcome_bind option_bind defined EntityRecord.GetIndex recordIndices size id
       componentArrays internalIndex capacity].
  rewrite !(toIndex_small (Z.of_nat n)), (toIndex_small (Z.of_nat n + 1)) by lia.
  assert (Hlen1 : len (count_up n 0) = Z.of_nat n).
  { unfold len. by rewrite length_count_up. }
  rewrite (set_at_first_fresh (count_up n 0) (Z.of_nat n)) by (done || lia).
  cbn [mbind outcome_bind option_bind defined EntityRecord.read EntityRecord.records EntityRecord.write
       EntityRecord.capacity EntityRecord.last EntityRecord.freeList
       EntityRecord.invalidRecord].
  assert (Hlen2 : len ((λ i, EntityRecord.mk 0 i 0) <$> count_up n 0)
                  = Z.of_nat n).
  { unfold len. by rewrite length_fmap, length_count_up. }
  rewrite (get_at_first_fresh _ (Z.of_nat n)) by (done || lia).
  cbn [mbind outcome_bind option_bind defined EntityRecord.version EntityRecord.initial].
  rewrite (set_at_first_fresh _ (Z.of_nat n)) by (done || lia).
  cbn [mbind outcome_bind option_bind defined]. change (set_at [?m] 0 ?x) with (Some [x]).
  cbn [mbind outcome_bind option_bind defined]. unfold pool_after.
  rewrite !count_up_snoc, fmap_app. simpl fmap. rewrite !Z.add_0_l.
  do 3 f_equal.
  - f_equal; [lia|]. do 2 f_equal. lia.
  - do 4 f_equal; lia.
Qed.

Lemma get_at_snoc {A} (l : list A) n x : len l = n → get_at (l ++ [x]) n = Some x.
Proof.
  intros <-. apply get_at_Some. unfold len. split; [lia|].
  by rewrite Nat2Z.id, lookup_app_r, Nat.sub_diag.
Qed.

(** Creating one more entity in the state after the entities of [done]. *)
Lemma CreateEntity_state_after done v :
  (length done < Z.to_nat 61446)%nat →
  World.CreateEntity_with always (state_after done) [Position] [v]
  = Returns (state_after (done ++ [v]),
             EntityReference.mk (Z.of_nat (length done)) 0).
Proof.
  intros Hn. pose proof (ReserveRecord_state_after done Hn) as Hreserve.
  set (n := length done) in *.
  destruct (capacity_after_inv (S n) ltac:(lia)) as [_ Hle'].
  unfold World.CreateEntity_with, GetInstance. rewrite Helper_id_Position.
  change (Find (managers (state_after done)) 1)
    with (managers (state_after done), 0).
  cbv beta iota.
  change (mkState (pool (state_after done)) (managers (state_after done)))
    with (state_after done).
  rewrite Hreserve. cbn [mbind outcome_bind option_bind defined pool managers].
  assert (Hlen : len ((λ i, EntityRecord.mk 0 i 0) <$> count_up n 0) = Z.of_nat n).
  { unfold len. by rewrite length_fmap, length_count_up. }
  assert (Hread : EntityRecord.read (pool_after (S n)) (EntityRecord.At (Z.of_nat n))
                  = Some (EntityRecord.mk 0 (Z.of_nat n) 0)).
  { unfold pool_after, EntityRecord.read. cbn [EntityRecord.records].
    rewrite count_up_snoc, fmap_app. simpl fmap. rewrite Z.add_0_l.
    rewrite get_at_app_l; [by apply get_at_snoc|].
    unfold len in *. rewrite length_app. simpl length. lia. }
  rewrite Hread. cbn [mbind outcome_bind option_bind defined EntityRecord.row].
  change (get_at [?m] 0) with (Some m). cbn [mbind outcome_bind option_bind defined].
  unfold World.initialise, GetComponentArray.
  cbn [internalIndex componentArrays Component_Id Position].
  rewrite internalIndex_Position. cbn [mbind outcome_bind option_bind defined].
  change (get_at [?col] 0) with (Some col). cbn [mbind outcome_bind option_bind defined].
  unfold store. cbn [componentArrays]. change (get_at [?col] 0) with (Some col).
  cbn [mbind outcome_bind option_bind defined].
  rewrite (set_at_first_fresh done (Z.of_nat n)) by (done || lia).
  cbn [mbind outcome_bind option_bind defined]. change (set_at [?col] 0 ?x) with (Some [x]).
  cbn [mbind outcome_bind option_bind defined id recordIndices internalIndex capacity size].
  unfold EntityReference.of_record. cbn [EntityRecord.GetIndex mbind option_bind].
  rewrite Hread. cbn [mbind outcome_bind option_bind defined EntityRecord.version].
  rewrite toIndex_small by lia.
  unfold state_after, block_after. rewrite !length_app. simpl length.
  rewrite !Nat.add_1_r. fold n.
  by replace (capacity_after (S n) - Z.of_nat n - 1)
    with (capacity_after (S n) - Z.of_nat (S n)) by lia.
Qed.

Lemma create_all_state_after values done :
  (length done + length values ≤ Z.to_nat 61446)%nat →
  create_all values (state_after done) = Returns (state_after (done ++ values)).
Proof.
  revert done; induction values as [|v values IH]; intros done Hlen.
  - by rewrite app_nil_r.
  - simpl in *. rewrite CreateEntity_state_after by lia. simpl.
    rewrite IH; [by rewrite <- app_assoc|]. rewrite length_app. simpl. lia.
Qed.

(** Up to 61446 entities created in one block from the start: the state is
    the one described by [state_after]. *)
Lemma create_all_empty values :
  (length values ≤ Z.to_nat 61446)%nat →
  values ≠ [] →
  create_all values empty = Returns (state_after values).
Proof.
  intros Hlen Hne. destruct values as [|v values]; [done|]. simpl.
  change (World.CreateEntity_with always empty [Position] [v])
    with (World.CreateEntity_with always (state_after []) [Position] [v]).
  rewrite CreateEntity_state_after by (simpl; lia). simpl.
  rewrite create_all_state_after; [done|]. simpl in *. lia.
Qed.

(** Growth keeps the data, up to 61446 entities: each entity reads back the
    value it was created with. *)
Lemma create_all_preserves values i v :
  (length values ≤ Z.to_nat 61446)%nat →
  values !! i = Some v →
  ∃ s, create_all values empty = Returns s ∧
       EntityReference.read s (EntityReference.mk (Z.of_nat i) 0) Position = Some v.
Proof.
  intros Hlen Hi. exists (state_after values).
  split; [apply create_all_empty; [done | by intros ->]|].
  pose proof (lookup_lt_Some _ _ _ Hi) as Hlt.
  assert (Hrec : get_at (EntityRecord.records (pool (state_after values))) (Z.of_nat i)
                 = Some (EntityRecord.mk 0 (Z.of_nat i) 0)).
  { unfold state_after, pool_after. cbn [pool EntityRecord.records].
    rewrite get_at_app_l
      by (unfold len; rewrite length_fmap, length_count_up; lia).
    apply get_at_Some. split; [lia|]. rewrite Nat2Z.id, list_lookup_fmap.
    rewrite count_up_seqZ, lookup_seqZ_lt by lia. simpl. by rewrite Z.add_0_l. }
  rewrite (read_spec (state_after values) _ Position
             (EntityRecord.mk 0 (Z.of_nat i) 0) (block_after values) 0
             (values ++ fresh (capacity_after (length values)
                               - Z.of_nat (length values)) DefaultValue));
    try done.
  - cbn [EntityRecord.row]. rewrite get_at_app_l by (unfold len; lia).
    apply get_at_Some. split; [lia|]. by rewrite Nat2Z.id.
  - cbn [EntityReference.recordIndex]. unfold InvalidIndex. lia.
Qed.

Lemma full_state_after : state_after (replicate (Z.to_nat 61446) 7) = full_state.
Proof.
  destruct (capacity_after_inv (Z.to_nat 61446) (le_n _)) as [_ Hcap].
  rewrite Z2Nat.id in Hcap by (intros [=]).
  assert (Hc : capacity_after (Z.to_nat 61446) = 61446) by lia.
  unfold state_after, pool_after, block_after, full_state, full_block.
  rewrite length_replicate, Hc.
  rewrite Z2Nat.id by (intros [=]).
  rewrite Z.sub_diag.
  rewrite !fresh_nil by reflexivity.
  rewrite !app_nil_r.
  reflexivity.
Qed.

(** The state with the full block is the one reached by creating 61446
    entities. *)
Lemma full_state_reached :
  create_all (replicate (Z.to_nat 61446) 7) empty = Returns full_state.
Proof.
  rewrite create_all_empty.
  - by rewrite full_state_after.
  - by rewrite length_replicate.
  - intros Hnil. apply (f_equal length) in Hnil. by rewrite length_replicate in Hnil.
Qed.

(** C5, at a block whose 61446 rows are all occupied, the state reached by
    creating 61446 entities of one archetype: the grown capacity 92169 does
    not fit the 16-bit [capacity], which becomes 26633, less than the 61446
    rows in use; [ResizeArray] is asked to move 61446 cells into an array of
    26633, so the reservation for the next entity writes outside the new
    array and has no defined result. *)
Theorem ReserveRecord_capacity_wraps :
  create_all (replicate (Z.to_nat 61446) 7) empty = Returns full_state ∧
  size full_block = capacity full_block ∧
  capacity full_block = 61446 ∧
  grow 61446 = 92169 ∧
  toIndex (grow 61446) = 26633 ∧
  ResizeArray always (fresh 61446 7) 26633 61446 = Undefined ∧
  ReserveRecord always full_state 0 = Undefined ∧
  World.CreateEntity_with always full_state [Position] [7] = Undefined.
Proof.
  split; [apply full_state_reached|].
  repeat split; vm_compute; reflexivity.
Qed.

End Filling.

(** * Further properties of the code *)

(** ** Signature bits *)
Section SignatureBits.
Import Component ArchetypeManager.

Lemma testbit_high s k : 0 ≤ s < 2 ^ 64 → 64 ≤ k → Z.testbit s k = false.
Proof.
  intros Hs Hk. rewrite <- (Z.mod_small s (2 ^ 64)) by done.
  apply Z.mod_pow2_bits_high. lia.
Qed.

Lemma EachComponent_loop_sorted n id' c0 :
  StronglySorted Z.lt (EachComponent_loop n id' c0) ∧
  Forall (λ x, c0 ≤ x) (EachComponent_loop n id' c0).
Proof.
  revert id' c0; induction n as [|n IH]; intros id' c0; simpl.
  - split; constructor.
  - destruct (IH (Z.shiftr id' 1) (c0 + 1)) as [Hsorted Hge].
    assert (Hge' : Forall (λ x, c0 < x) (EachComponent_loop n (Z.shiftr id' 1) (c0 + 1))).
    { eapply Forall_impl; [exact Hge|]. intros x Hx. simpl in Hx. lia. }
    destruct (Z.land 1 id' =? 0), (Z.shiftr id' 1 =? 0); simpl.
    + split; constructor.
    + split; [done|]. eapply Forall_impl; [exact Hge'|]. intros x Hx. simpl in Hx. lia.
    + split; [repeat constructor | constructor; [lia | constructor]].
    + split; [by constructor|]. constructor; [lia|].
      eapply Forall_impl; [exact Hge'|]. intros x Hx. simpl in Hx. lia.
Qed.

(** X1: on a 64-bit signature, [EachComponent] calls its lambda with exactly
    the positions of the bits that are set, each below 64, in strictly
    increasing order (so each once). *)
Theorem EachComponent_set_bits id' :
  0 ≤ id' < 2 ^ 64 →
  (∀ c, c ∈ EachComponent id' ↔ 0 ≤ c < 64 ∧ Z.testbit id' c = true) ∧
  StronglySorted Z.lt (EachComponent id').
Proof.
  intros Hid. split; [|apply EachComponent_loop_sorted].
  intros c. rewrite (EachComponent_elem id' c Hid). split.
  - intros [Hc Hbit]. split; [|done]. split; [done|].
    destruct (Z.lt_ge_cases c 64) as [|Hhigh]; [done|].
    rewrite (testbit_high id' c Hid Hhigh) in Hbit. done.
  - intros [[Hc _] Hbit]. done.
Qed.

Lemma EachComponent_set_bits_witness :
  (∀ c, c ∈ EachComponent 5 ↔ 0 ≤ c < 64 ∧ Z.testbit 5 c = true) ∧
  StronglySorted Z.lt (EachComponent 5).
Proof. apply (EachComponent_set_bits 5). vm_compute. split; congruence. Defined.

Lemma EachComponent_loop_0 n c0 : EachComponent_loop n 0 c0 = [].
Proof. by destruct n. Qed.

Lemma EachCommonComponent_loop_land n idA idB c0 :
  EachCommonComponent_loop n idA idB c0
  = EachComponent_loop n (Z.land idA idB) c0.
Proof.
  revert idA idB c0; induction n as [|n IH]; intros idA idB c0; simpl; [done|].
  rewrite <- Z.land_assoc. f_equal.
  rewrite Z.shiftr_land.
  destruct (Z.eqb_spec (Z.shiftr idA 1) 0) as [->|HA].
  { by rewrite Z.land_0_l. }
  destruct (Z.eqb_spec (Z.shiftr idB 1) 0) as [->|HB].
  { by rewrite Z.land_0_r. }
  rewrite IH.
  destruct (Z.eqb_spec (Z.land (Z.shiftr idA 1) (Z.shiftr idB 1)) 0) as [->|]; [|done].
  apply EachComponent_loop_0.
Qed.

(** X2: [EachCommonComponent] on two signatures calls its lambda with the
    components [EachComponent] gives for their intersection: exactly the
    components present in both, in increasing order. *)
Theorem EachCommonComponent_intersection idA idB :
  EachCommonComponent idA idB = EachComponent (Z.land idA idB).
Proof. apply EachCommonComponent_loop_land. Qed.

Lemma lnot64_bits x k :
  0 ≤ k →
  Z.testbit (Z.lnot x mod 2 ^ 64) k = (k <? 64) && negb (Z.testbit x k).
Proof.
  intros Hk. destruct (Z.ltb_spec k 64).
  - rewrite Z.mod_pow2_bits_low by lia. by rewrite Z.lnot_spec.
  - by rewrite Z.mod_pow2_bits_high by lia.
Qed.

(** X3: adding the components of [T] to a 64-bit signature gives a
    signature that contains them; removing them gives one that contains none
    of them; and each undoes the other when the components were absent,
    respectively present, to begin with. *)
Theorem AddTo_RemoveFrom T sourceID :
  T ≠ [] →
  0 ≤ sourceID < 2 ^ 64 →
  Z.land (AddTo T sourceID) (HelperImplementation_id T) = HelperImplementation_id T ∧
  Z.land (RemoveFrom T sourceID) (HelperImplementation_id T) = 0 ∧
  (Z.land sourceID (HelperImplementation_id T) = 0 →
   RemoveFrom T (AddTo T sourceID) = sourceID) ∧
  (Z.land sourceID (HelperImplementation_id T) = HelperImplementation_id T →
   AddTo T (RemoveFrom T sourceID) = sourceID).
Proof.
  intros _ Hs. unfold AddTo, RemoveFrom.
  set (i := HelperImplementation_id T).
  assert (Hhigh : ∀ k, 64 ≤ k → Z.testbit sourceID k = false).
  { intros k. by apply testbit_high. }
  split; [|split; [|split]].
  - apply Z.bits_inj'. intros k Hk. rewrite Z.land_spec, Z.lor_spec.
    destruct (Z.testbit sourceID k), (Z.testbit i k); done.
  - apply Z.bits_inj'. intros k Hk.
    rewrite !Z.land_spec, lnot64_bits, Z.bits_0 by done.
    destruct (Z.testbit sourceID k), (k <? 64), (Z.testbit i k); done.
  - intros Hdisjoint. apply Z.bits_inj'. intros k Hk.
    rewrite Z.land_spec, Z.lor_spec, lnot64_bits by done.
    apply (f_equal (λ z, Z.testbit z k)) in Hdisjoint.
    rewrite Z.land_spec, Z.bits_0 in Hdisjoint.
    destruct (Z.ltb_spec k 64) as [|Hk64].
    + destruct (Z.testbit sourceID k), (Z.testbit i k); done.
    + rewrite (Hhigh k Hk64) in *. simpl. by rewrite andb_false_r.
  - intros Hpresent. apply Z.bits_inj'. intros k Hk.
    rewrite Z.lor_spec, Z.land_spec, lnot64_bits by done.
    apply (f_equal (λ z, Z.testbit z k)) in Hpresent.
    rewrite Z.land_spec in Hpresent.
    destruct (Z.ltb_spec k 64) as [|Hk64].
    + destruct (Z.testbit sourceID k), (Z.testbit i k); done.
    + rewrite (Hhigh k Hk64) in *. simpl in *. by rewrite <- Hpresent.
Qed.

Lemma AddTo_RemoveFrom_witness :
  let T := [Examples.Velocity] in
  Z.land (AddTo T 5) (HelperImplementation_id T) = HelperImplementation_id T ∧
  Z.land (RemoveFrom T 5) (HelperImplementation_id T) = 0 ∧
  (Z.land 5 (HelperImplementation_id T) = 0 → RemoveFrom T (AddTo T 5) = 5) ∧
  (Z.land 5 (HelperImplementation_id T) = HelperImplementation_id T →
   AddTo T (RemoveFrom T 5) = 5).
Proof.
  apply (AddTo_RemoveFrom [Examples.Velocity] 5); [done|].
  vm_compute. split; congruence.
Defined.

End SignatureBits.

(** ** Canonical type lists *)
Section TypeLists.
Import Component ArchetypeManager Invariants.

Lemma merge_sorted As Bs :
  StronglySorted by_TypeInfo_ID As → StronglySorted by_TypeInfo_ID Bs →
  StronglySorted by_TypeInfo_ID (Utils.merge As Bs).
Proof.
  revert Bs; induction As as [|A As IHA]; intros Bs HAs HBs; [by destruct Bs|].
  induction Bs as [|B Bs IHB]; [done|].
  apply StronglySorted_inv in HAs as [HAs HA].
  apply StronglySorted_inv in HBs as [HBs HB].
  simpl. unfold Utils.lessThan. destruct (Z.ltb_spec (TypeInfo_ID A) (TypeInfo_ID B)).
  - constructor; [apply IHA; [done | by constructor]|].
    rewrite merge_Permutation. apply Forall_app. split; [done|].
    constructor; [unfold by_TypeInfo_ID; lia|].
    eapply Forall_impl; [exact HB|]. unfold by_TypeInfo_ID. intros; simpl in *; lia.
  - simpl in IHB. constructor; [by apply IHB|].
    assert (Hall : Forall (by_TypeInfo_ID B) (Utils.merge (A :: As) Bs));
      [|simpl in Hall; exact Hall].
    rewrite merge_Permutation. apply Forall_app. split; [|done].
    constructor; [unfold by_TypeInfo_ID; lia|].
    eapply Forall_impl; [exact HA|]. unfold by_TypeInfo_ID. intros; simpl in *; lia.
Qed.

Lemma sortList_sorted Ts : StronglySorted by_TypeInfo_ID (Utils.sortList Ts).
Proof.
  funelim (Utils.sortList Ts); simp sortList.
  - constructor.
  - repeat constructor.
  - unfold Utils.lessThan. destruct (Z.ltb_spec (TypeInfo_ID A) (TypeInfo_ID B));
      repeat constructor; unfold by_TypeInfo_ID; lia.
  - simpl. by apply merge_sorted.
Qed.

(** X4: [SortedList] gives a canonical form.  The sorted list is a
    rearrangement of the given one in non-decreasing order of
    [TypeInfo::ID]; two lists of distinctly numbered types that are
    rearrangements of each other sort to the same list; sorting a sorted
    list changes nothing. *)
Theorem sortList_canonical Ts Us :
  Ts ≠ [] →
  (∀ A B, A ∈ Ts → B ∈ Ts → TypeInfo_ID A = TypeInfo_ID B → A = B) →
  Ts ≡ₚ Us →
  Utils.sortList Ts ≡ₚ Ts ∧
  StronglySorted by_TypeInfo_ID (Utils.sortList Ts) ∧
  Utils.sortList Ts = Utils.sortList Us ∧
  Utils.sortList (Utils.sortList Ts) = Utils.sortList Ts.
Proof.
  intros _ Hinj Hperm.
  assert (Hunique : ∀ Vs, Ts ≡ₚ Vs → Utils.sortList Ts = Utils.sortList Vs).
  { intros Vs HVs.
    apply (StronglySorted_unique_strong by_TypeInfo_ID);
      [|apply sortList_sorted..|by rewrite !sortList_Permutation].
    intros A B HA HB HAB HBA. rewrite sortList_Permutation in HA, HB.
    rewrite <- HVs in HB. apply Hinj; [done..|]. unfold by_TypeInfo_ID in *. lia. }
  split; [apply sortList_Permutation|]. split; [apply sortList_sorted|].
  split; [by apply Hunique|]. symmetry. apply Hunique.
  by rewrite sortList_Permutation.
Qed.

Lemma sortList_canonical_witness :
  let Ts := [Examples.Health; Examples.Position; Examples.Velocity] in
  let Us := [Examples.Velocity; Examples.Health; Examples.Position] in
  Utils.sortList Ts ≡ₚ Ts ∧
  StronglySorted by_TypeInfo_ID (Utils.sortList Ts) ∧
  Utils.sortList Ts = Utils.sortList Us ∧
  Utils.sortList (Utils.sortList Ts) = Utils.sortList Ts.
Proof.
  apply sortList_canonical.
  - done.
  - intros A B HA HB. repeat (apply elem_of_cons in HA as [->|HA]);
      repeat (apply elem_of_cons in HB as [->|HB]);
      try (by apply elem_of_nil in HA); try (by apply elem_of_nil in HB);
      vm_compute; congruence.
  - apply (perm_trans (l' := [Examples.Health; Examples.Velocity; Examples.Position])).
    + apply perm_skip, perm_swap.
    + apply perm_swap.
Defined.

End TypeLists.

(** ** Looking up and constructing blocks *)
Section Blocks.
Import Component ArchetypeManager Invariants.

Lemma Find_loop_Some ms i id' k :
  Find_loop ms i id' = Some k →
  i ≤ k ∧
  (∃ m, get_at ms (k - i) = Some m ∧ id m = id') ∧
  ∀ j m, 0 ≤ j < k - i → get_at ms j = Some m → id m ≠ id'.
Proof.
  revert i; induction ms as [|m ms IH]; intros i; simpl; [done|].
  destruct (Z.eqb_spec (id m) id') as [Heq|Hne].
  - intros [= <-]. rewrite Z.sub_diag. split; [lia|]. split; [by exists m|]. lia.
  - intros (Hk & (m' & Hm' & Hid) & Hfirst)%IH.
    split; [lia|]. split.
    + exists m'. split; [|done]. rewrite get_at_cons by lia. rewrite <- Hm'. f_equal. lia.
    + intros j mj Hj Hmj. destruct (Z.eq_dec j 0) as [->|Hj0].
      * by injection Hmj as <-.
      * rewrite get_at_cons in Hmj by lia. apply (Hfirst (j - 1) mj); [lia | done].
Qed.

(** X5: [Find] returns the index of a block that has the signature asked
    for, the first one with it; it leaves the blocks there are in place and
    appends at most one, a newly constructed block, and only when no block
    has the signature; signatures that were pairwise different stay so. *)
Theorem Find_spec managers id' :
  let managers' := (Find managers id').1 in
  let block := (Find managers id').2 in
  (∃ m, get_at managers' block = Some m ∧ id m = id') ∧
  (∀ j m, 0 ≤ j < block → get_at managers' j = Some m → id m ≠ id') ∧
  (managers' = managers ∨
   managers' = managers ++ [construct id'] ∧ Forall (λ m, id m ≠ id') managers) ∧
  (NoDup (id <$> managers) → NoDup (id <$> managers')).
Proof.
  unfold Find. destruct (Find_loop managers 0 id') as [k|] eqn:Hloop; simpl.
  - apply Find_loop_Some in Hloop as (Hk & Hm & Hfirst).
    rewrite Z.sub_0_r in *. split; [done|]. split; [done|]. split; [by left | done].
  - pose proof (Find_loop_new _ _ _ Hloop) as Hnew.
    apply Find_loop_Some in Hnew as (Hk & Hm & Hfirst).
    rewrite Z.add_0_l, Z.sub_0_r in *.
    apply Find_loop_None in Hloop.
    split; [done|]. split; [done|]. split; [by right|].
    intros Hnodup. rewrite fmap_app. apply NoDup_app. split; [done|].
    split; [|apply NoDup_singleton].
    intros x Hx Hin. simpl in Hin. apply list_elem_of_singleton in Hin as ->.
    apply list_elem_of_fmap in Hx as (m & Hid & Hin).
    rewrite construct_id in Hid.
    by apply (proj1 (Forall_forall _ _) Hloop m Hin).
Qed.

Lemma StronglySorted_lt_NoDup (l : list Z) : StronglySorted Z.lt l → NoDup l.
Proof.
  induction 1 as [|x l Hl IH Hx]; constructor; [|done].
  intros Hin. apply (proj1 (Forall_forall _ _) Hx) in Hin. lia.
Qed.

(** The entries the loop of the constructor writes: the components get the
    numbers [count], [count + 1], ... in the order they are visited. *)
Lemma constructor_loop_numbers cs (ii : list Z) count :
  NoDup cs → Forall (λ c, 0 ≤ c < len ii) cs → 0 ≤ count → count + len cs ≤ 256 →
  ∀ j c, cs !! j = Some c →
    (fold_left (λ '(ii, count) componentId,
                  (<[Z.to_nat componentId := count]> ii, toU8 (count + 1)))
               cs (ii, count)).1 !! Z.to_nat c
    = Some (count + Z.of_nat j).
Proof.
  revert ii count; induction cs as [|c0 cs IH]; intros ii count Hnodup Hin Hc Hlen j c Hj;
    [done|].
  apply NoDup_cons in Hnodup as [Hc0 Hnodup]. apply Forall_cons in Hin as [Hc0in Hin].
  unfold len in Hlen. simpl length in Hlen. simpl fold_left.
  destruct j as [|j]; simpl in Hj.
  - injection Hj as <-. rewrite constructor_loop_other.
    + rewrite list_lookup_insert_eq; [f_equal; lia|]. unfold len in Hc0in. lia.
    + lia.
    + eapply Forall_impl; [exact Hin|]. intros; simpl in *; lia.
    + done.
  - assert (Hcount : toU8 (count + 1) = count + 1).
    { apply lookup_lt_Some in Hj. unfold toU8. apply Z.mod_small. lia. }
    rewrite Hcount.
    rewrite (IH _ (count + 1) Hnodup) with (j := j); [f_equal; lia | | lia | | done].
    + eapply Forall_impl; [exact Hin|]. unfold len. intros x Hx. simpl in Hx.
      by rewrite length_insert.
    + unfold len. lia.
Qed.

(** The block the constructor makes. *)
Lemma construct_spec newId :
  0 ≤ newId < 2 ^ 64 →
  let m := construct newId in
  id m = newId ∧ size m = 0 ∧ capacity m = 0 ∧ recordIndices m = [] ∧
  componentArrays m = fresh (len (EachComponent newId)) [] ∧
  (∀ j c, EachComponent newId !! j = Some c →
          get_at (internalIndex m) c = Some (Z.of_nat j)) ∧
  columns_ok m 0.
Proof.
  intros Hid.
  assert (Helem : ∀ c, c ∈ EachComponent newId → 0 ≤ c < 64).
  { intros c [Hc Hbit]%(EachComponent_elem newId c Hid). split; [done|].
    destruct (Z.lt_ge_cases c 64) as [|Hhigh]; [done|].
    by rewrite (testbit_high newId c Hid Hhigh) in Hbit. }
  assert (Hnodup : NoDup (EachComponent newId)).
  { apply StronglySorted_lt_NoDup, EachComponent_loop_sorted. }
  pose proof (EachComponent_loop_length 64 newId 0) as Hlen.
  fold (EachComponent newId) in Hlen.
  assert (Hrange : Forall (λ c, 0 ≤ c < len initialInternalIndex) (EachComponent newId)).
  { apply Forall_forall. intros c Hc%Helem. done. }
  pose proof (constructor_loop_numbers (EachComponent newId) initialInternalIndex 0
                Hnodup Hrange ltac:(lia) ltac:(unfold len; lia)) as Hnumbers.
  pose proof (constructor_loop_count (EachComponent newId) initialInternalIndex 0)
    as Hcount.
  unfold construct. destruct (fold_left _ _ _) as [ii count]. simpl in *.
  assert (Hcount' : count = len (EachComponent newId)).
  { rewrite Hcount. destruct (decide _) as [->|_]; [done|].
    unfold toU8, len. rewrite Z.mod_small; lia. }
  clear Hcount. subst count.
  assert (Hnum : ∀ j c, EachComponent newId !! j = Some c →
                        get_at ii c = Some (Z.of_nat j)).
  { intros j c Hj. apply get_at_Some. split.
    - apply list_elem_of_lookup_2, Helem in Hj. lia.
    - by rewrite (Hnumbers j c Hj). }
  do 5 (split; [done|]). split; [done|].
  exists (Z.of_nat <$> seq 0 (length (EachComponent newId))). split; [|split].
  - apply Forall2_same_length_lookup. split; [by rewrite length_fmap, length_seq|].
    intros j c k Hj Hk. rewrite list_lookup_fmap in Hk.
    destruct (seq _ _ !! j) as [j'|] eqn:Hseq; [|done]. injection Hk as <-.
    apply lookup_seq in Hseq as [-> _]. by apply Hnum.
  - apply (NoDup_fmap_2 _). apply NoDup_seq.
  - apply Forall_forall. intros k (j & -> & Hj)%list_elem_of_fmap.
    apply elem_of_seq in Hj. split; [unfold Unused; lia|].
    exists []. split; [|unfold len; simpl; lia].
    apply get_at_Some. split; [lia|]. unfold fresh, len.
    rewrite !Nat2Z.id. apply lookup_replicate_2. lia.
Qed.

(** X6: the constructor makes, for a 64-bit signature, an empty block with
    that signature in which each component of the signature has a column of
    its own, numbered in increasing order of the component ids, and as many
    null columns as there are components. *)
Theorem construct_columns newId :
  0 ≤ newId < 2 ^ 64 →
  let m := construct newId in
  id m = newId ∧ size m = 0 ∧ capacity m = 0 ∧ recordIndices m = [] ∧
  componentArrays m = fresh (len (EachComponent newId)) [] ∧
  (∀ j c, EachComponent newId !! j = Some c →
          get_at (internalIndex m) c = Some (Z.of_nat j)) ∧
  columns_ok m 0.
Proof. apply construct_spec. Qed.

Lemma construct_columns_witness :
  let m := construct 5 in
  id m = 5 ∧ size m = 0 ∧ capacity m = 0 ∧ recordIndices m = [] ∧
  componentArrays m = fresh (len (EachComponent 5)) [] ∧
  (∀ j c, EachComponent 5 !! j = Some c →
          get_at (internalIndex m) c = Some (Z.of_nat j)) ∧
  columns_ok m 0.
Proof. apply (construct_columns 5). vm_compute. split; congruence. Defined.

End Blocks.

(** ** The slot table keeps its free list in order *)
Section SlotInvariant.
Import EntityRecord Invariants.

Lemma popTrailing_live last fl last' fl' :
  0 ≤ last → NoDup fl → Forall (λ i, 0 ≤ i < last) fl →
  popTrailing last fl = (last', fl') →
  0 ≤ last' ≤ last ∧ NoDup fl' ∧ Forall (λ i, 0 ≤ i < last') fl' ∧
  ∀ i, (0 ≤ i < last' ∧ i ∉ fl') ↔ (0 ≤ i < last ∧ i ∉ fl).
Proof.
  revert last; induction fl as [|top rest IH]; intros last Hlast Hnodup Hall; simpl.
  - intros [= <- <-]. split; [lia|]. done.
  - apply NoDup_cons in Hnodup as [Htop Hnodup].
    apply Forall_cons in Hall as [Htoplt Hall].
    destruct (Z.ltb_spec 0 last) as [Hpos|Hzero]; simpl.
    + destruct (Z.eqb_spec top (last - 1)) as [->|Hne].
      * intros Hpop. apply IH in Hpop as (Hl & Hnd & Hfa & Hlive); [|lia|done|].
        -- split; [lia|]. split; [done|]. split; [done|].
           intros i. rewrite Hlive, not_elem_of_cons. intuition lia.
        -- apply Forall_forall. intros i Hi.
           pose proof (proj1 (Forall_forall _ _) Hall i Hi) as Hlt.
           assert (i ≠ last - 1) by (by intros ->). simpl in Hlt. lia.
      * intros [= <- <-]. split; [lia|]. split; [by constructor|].
        split; [by constructor|]. done.
    + intros [= <- <-]. split; [lia|]. split; [by constructor|].
      split; [by constructor|]. done.
Qed.

(** [Reserve()] on a slot table that is in order: it returns a slot that
    was not in use, or throws for want of memory. *)
Lemma Reserve_pool_ok alloc_ok p :
  pool_ok p → (last p = capacity p → capacity p ≤ 65535) →
  (∃ p' index,
     Reserve alloc_ok p = Returns (p', At index) ∧ pool_ok p' ∧
     last p ≤ last p' ≤ last p + 1 ∧
     (∀ i x, get_at (records p) i = Some x → get_at (records p') i = Some x) ∧
     (¬ live p index) ∧ live p' index ∧
     (∀ i, i ≠ index → (live p' i ↔ live p i)) ∧
     is_Some (get_at (records p') index) ∧
     (freeList p = [] → last p = capacity p →
      alloc_ok (grow (capacity p)) = true)) ∨
  (∃ p',
     Reserve alloc_ok p = Throws p' ∧
     alloc_ok (grow (capacity p)) = false ∧
     freeList p = [] ∧ last p = capacity p ∧
     capacity p' = grow (capacity p) ∧ records p' = records p ∧
     last p' = last p ∧ freeList p' = freeList p ∧
     ¬ pool_ok p').
Proof.
  intros (Hlast & Hcap & Hsize & Hnodup & Hall) Hsmall. unfold Reserve.
  destruct (freeList p) as [|index rest] eqn:Hfree.
  - destruct (Z.geb_spec (last p) (capacity p)) as [Hfull|Hroom].
    + assert (Hsmall' : capacity p ≤ 65535) by (apply Hsmall; lia).
      assert (Hbound : capacity p < grow (capacity p) ≤ 2 * 65535).
      { unfold grow. destruct (Z.eqb_spec (capacity p) 0); [lia|].
        pose proof (Z.div_mod (capacity p) 2 ltac:(lia)).
        pose proof (Z.mod_pos_bound (capacity p) 2 ltac:(lia)). lia. }
      destruct (alloc_ok (grow (capacity p))) eqn:Halloc.
      * left.
        assert ((capacity p <=? 65535) = true) as -> by (apply Z.leb_le; lia).
        assert ((capacity p <=? len (records p)) = true) as -> by (apply Z.leb_le; lia).
        simpl. eexists _, _. split; [reflexivity|].
        assert (Htake : take (Z.to_nat (capacity p)) (records p) = records p).
        { apply take_ge. unfold len in Hcap. lia. }
        rewrite Htake.
        assert (Hnew : get_at (records p ++ fresh (grow (capacity p) - capacity p) initial)
                         (last p) = Some initial).
        { apply get_at_Some. split; [lia|].
          rewrite lookup_app_r by (unfold len in Hcap; lia).
          unfold fresh. apply lookup_replicate_2. unfold len in Hcap. lia. }
        split; [|split; [simpl; lia|split; [|split; [|split; [|split]]]]].
        -- unfold pool_ok, live; simpl.
           split; [lia|].
           split; [unfold len; rewrite length_app; unfold fresh;
                   rewrite length_replicate; unfold len in Hcap; lia|].
           split; [lia|]. split; constructor.
        -- simpl. intros i x Hx. apply get_at_Some in Hx as [Hi Hx].
           apply get_at_Some. split; [done|]. by apply lookup_app_l_Some.
        -- unfold live. rewrite Hfree. lia.
        -- unfold live; simpl. split; [lia | apply not_elem_of_nil].
        -- unfold live; simpl. rewrite Hfree. intros i Hi.
           split; intros [? ?]; (split; [lia | apply not_elem_of_nil]).
        -- simpl. split; [by rewrite Hnew | done].
      * right. eexists. split; [reflexivity|]. simpl.
        split; [done|]. split; [done|]. split; [lia|].
        split; [done|]. split; [done|]. split; [done|]. split; [done|].
        unfold pool_ok; simpl. lia.
    + left. eexists _, _. split; [reflexivity|].
      split; [|split; [simpl; lia|split; [done|split; [|split; [|split]]]]].
      * unfold pool_ok; simpl. split; [lia|]. split; [done|]. split; [done|].
        split; constructor.
      * unfold live. lia.
      * unfold live; simpl. split; [lia | apply not_elem_of_nil].
      * unfold live; simpl. rewrite Hfree. intros i Hi.
        split; intros [? ?]; (split; [lia | apply not_elem_of_nil]).
      * simpl. split; [apply get_at_is_Some; lia | intros _ Heq; lia].
  - left. apply NoDup_cons in Hnodup as [Hindex Hnodup].
    apply Forall_cons in Hall as [Hindexlt Hall].
    eexists _, _. split; [reflexivity|].
    split; [|split; [simpl; lia|split; [done|split; [|split; [|split]]]]].
    + unfold pool_ok; simpl. done.
    + unfold live. rewrite Hfree. intros [_ Hnot]. apply Hnot. left.
    + unfold live; simpl. done.
    + unfold live; simpl. rewrite Hfree. intros i Hi.
      rewrite not_elem_of_cons. tauto.
    + simpl. split; [apply get_at_is_Some; lia | done].
Qed.

(** X7: [Reserve()] on a slot table that is in order, with room left in the
    records allocated or at most 65535 of them.  Either it returns a slot
    that was not in use and is in use afterwards; the table stays in order,
    the other slots are in use exactly when they were, and the records
    there were, with their generations, are kept.  Or, the table being full
    and the allocation of a larger one failing, it throws; the exception
    leaves the grown capacity with the records, active range and free list
    there were, a table that is no longer in order. *)
Theorem Reserve_fresh_slot alloc_ok p :
  pool_ok p → (last p = capacity p → capacity p ≤ 65535) →
  (∃ p' index,
     Reserve alloc_ok p = Returns (p', At index) ∧ pool_ok p' ∧
     last p ≤ last p' ≤ last p + 1 ∧
     (∀ i x, get_at (records p) i = Some x → get_at (records p') i = Some x) ∧
     (¬ live p index) ∧ live p' index ∧
     (∀ i, i ≠ index → (live p' i ↔ live p i)) ∧
     is_Some (get_at (records p') index) ∧
     (freeList p = [] → last p = capacity p →
      alloc_ok (grow (capacity p)) = true)) ∨
  (∃ p',
     Reserve alloc_ok p = Throws p' ∧
     alloc_ok (grow (capacity p)) = false ∧
     freeList p = [] ∧ last p = capacity p ∧
     capacity p' = grow (capacity p) ∧ records p' = records p ∧
     last p' = last p ∧ freeList p' = freeList p ∧
     ¬ pool_ok p').
Proof. apply Reserve_pool_ok. Qed.

Lemma Reserve_fresh_slot_witness :
  (∃ p' index,
     Reserve Examples.always Examples.pool_hole = Returns (p', At index) ∧
     pool_ok p' ∧ ¬ live Examples.pool_hole index ∧ live p' index) ∧
  (∃ p',
     Reserve Examples.never (ArchetypeManager.pool Examples.state3) = Throws p' ∧
     capacity p' = 5 ∧ len (records p') = 3 ∧ ¬ pool_ok p').
Proof.
  split.
  - destruct (Reserve_fresh_slot Examples.always Examples.pool_hole)
      as [(p' & index & Hp' & Hok & _ & _ & Hnot & Hlive & _)
         |(p' & _ & Hfail & _)].
    + unfold pool_ok. vm_compute.
      split; [split; congruence|]. split; [reflexivity|]. split; [reflexivity|].
      split; [apply NoDup_singleton|]. repeat constructor; congruence.
    + vm_compute. congruence.
    + by exists p', index.
    + discriminate Hfail.
  - destruct (Reserve_fresh_slot Examples.never
                (ArchetypeManager.pool Examples.state3))
      as [(p' & index & _ & _ & _ & _ & _ & _ & _ & _ & Hsucceeds)
         |(p' & Hp' & _ & _ & _ & Hcap & Hrec & _ & _ & Hbad)].
    + unfold pool_ok. vm_compute.
      split; [split; congruence|]. split; [reflexivity|]. split; [reflexivity|].
      split; constructor.
    + vm_compute. congruence.
    + discriminate Hsucceeds; reflexivity.
    + exists p'. split; [done|]. split; [exact Hcap|]. split; [|done].
      by rewrite Hrec.
Defined.

(** [Release()] on a slot in use. *)
Lemma Release_pool_ok p this :
  pool_ok p → live p this → this < 65536 →
  ∃ p',
    Release p this = Some p' ∧ pool_ok p' ∧
    ∀ i, live p' i ↔ live p i ∧ i ≠ this.
Proof.
  intros (Hlast & Hcap & Hsize & Hnodup & Hall) [Hthis Hnotfree] Hindex.
  destruct (get_at_is_Some (records p) this ltac:(lia)) as [r Hr].
  assert (Hin : 0 ≤ this < len (records p)) by lia.
  pose proof (set_at_in_range (records p) this
                (mk InvalidIndex InvalidIndex (toIndex (version r + 1))) Hin)
    as Hset.
  pose proof (len_set_at _ _ _ _ Hset) as Hlen.
  unfold Release. rewrite Hr. simpl. rewrite Hset. simpl.
  rewrite toIndex_small, size_sub_pos by lia.
  destruct (Z.eqb_spec this (last p - 1)) as [Heq|Hne].
  - destruct (popTrailing (last p - 1) (freeList p)) as [last' fl'] eqn:Hloop.
    apply popTrailing_live in Hloop as (Hl & Hnd & Hfa & Hlive); [|lia|done|].
    + eexists. split; [reflexivity|]. split.
      * unfold pool_ok; simpl. split; [lia|]. split; [congruence|]. done.
      * intros i. unfold live; simpl. rewrite Hlive. intuition lia.
    + apply Forall_forall. intros i Hi.
      pose proof (proj1 (Forall_forall _ _) Hall i Hi) as Hlt.
      assert (i ≠ this) by (by intros ->). simpl in Hlt. lia.
  - eexists. split; [reflexivity|]. split.
    + unfold pool_ok; simpl. split; [lia|]. split; [congruence|]. split; [done|].
      split; [by constructor|]. constructor; [lia | done].
    + intros i. unfold live; simpl. rewrite not_elem_of_cons. tauto.
Qed.

(** X8: [Release()] on a slot in use, in a slot table that is in order,
    leaves the table in order and takes exactly that slot out of use: the
    slots it drops from the active range were on the free list already. *)
Theorem Release_live_slot p this :
  pool_ok p → live p this → this < 65536 →
  ∃ p',
    Release p this = Some p' ∧ pool_ok p' ∧
    ∀ i, live p' i ↔ live p i ∧ i ≠ this.
Proof. apply Release_pool_ok. Qed.

Lemma Release_live_slot_witness :
  ∃ p', Release Examples.pool_hole 2 = Some p' ∧ pool_ok p'.
Proof.
  destruct (Release_live_slot Examples.pool_hole 2) as (p' & Hp' & Hok & _).
  - unfold pool_ok. vm_compute.
    split; [split; congruence|]. split; [reflexivity|]. split; [reflexivity|].
    split; [apply NoDup_singleton|]. repeat constructor; congruence.
  - unfold live. vm_compute. split; [split; congruence|].
    intros Hin. apply list_elem_of_singleton in Hin. congruence.
  - reflexivity.
  - by exists p'.
Defined.

End SlotInvariant.

(** ** The signature of a list of types *)
Section TypeSignature.
Import Component ArchetypeManager.

Lemma IdBinary_bit T c :
  0 ≤ Component_Id T → 0 ≤ c →
  Z.testbit (IdBinary T) c = true ↔ Component_Id T = c.
Proof.
  intros HT Hc. unfold IdBinary. rewrite Z.shiftl_1_l, Z.pow2_bits_eqb by done.
  split; [by intros ->%Z.eqb_eq | intros ->; apply Z.eqb_refl].
Qed.

Lemma HelperImplementation_id_bit Ts c :
  Forall (λ T, 0 ≤ Component_Id T) Ts → 0 ≤ c →
  Z.testbit (HelperImplementation_id Ts) c = true ↔ ∃ T, T ∈ Ts ∧ Component_Id T = c.
Proof.
  intros HTs Hc. unfold HelperImplementation_id. rewrite fold_or_foldr.
  induction HTs as [|T Ts HT HTs IH]; simpl.
  - rewrite Z.bits_0. split; [done|]. by intros (T & ?%elem_of_nil & _).
  - rewrite Z.lor_spec, orb_true_iff, IH, IdBinary_bit by done. split.
    + intros [<-|(X & HX & <-)]; [exists T | exists X]; split; try done;
        [left | by right].
    + intros (X & [->|HX]%elem_of_cons & <-); [by left | right; by exists X].
Qed.

Lemma HelperImplementation_id_range Ts :
  Forall (λ T, 0 ≤ Component_Id T < 64) Ts →
  0 ≤ HelperImplementation_id Ts < 2 ^ 64.
Proof.
  intros HTs. unfold HelperImplementation_id. rewrite fold_or_foldr.
  induction HTs as [|T Ts HT HTs IH]; simpl; [done|].
  assert (HT' : 0 ≤ IdBinary T < 2 ^ 64).
  { unfold IdBinary. rewrite Z.shiftl_1_l. split; [lia|].
    apply Z.pow_lt_mono_r; lia. }
  split; [apply Z.lor_nonneg; lia|].
  destruct (Z.eq_dec (Z.lor (IdBinary T) (foldr Z.lor 0 (map IdBinary Ts))) 0)
    as [->|Hne]; [done|].
  apply Z.log2_lt_pow2; [pose proof (proj2 (Z.lor_nonneg _ _) (conj (proj1 HT') (proj1 IH))); lia|].
  rewrite Z.log2_lor by lia.
  destruct (Z.eq_dec (IdBinary T) 0) as [H0|H0];
    destruct (Z.eq_dec (foldr Z.lor 0 (map IdBinary Ts)) 0) as [H1|H1].
  - rewrite H0, H1 in Hne. done.
  - rewrite H0. simpl Z.log2. apply Z.max_lub_lt; [lia|]. apply Z.log2_lt_pow2; lia.
  - rewrite H1. simpl Z.log2. apply Z.max_lub_lt; [|lia]. apply Z.log2_lt_pow2; lia.
  - apply Z.max_lub_lt; apply Z.log2_lt_pow2; lia.
Qed.

(** The signature of [Helper<Ts...>]. *)
Lemma Helper_id_spec Ts :
  Forall (λ T, 0 ≤ Component_Id T < 64) Ts →
  0 ≤ Helper_id Ts < 2 ^ 64 ∧
  ∀ c, c ∈ EachComponent (Helper_id Ts) ↔ ∃ T, T ∈ Ts ∧ Component_Id T = c.
Proof.
  intros HTs.
  assert (HTs' : Forall (λ T, 0 ≤ Component_Id T < 64) (Utils.sortList Ts)).
  { by rewrite sortList_Permutation. }
  pose proof (HelperImplementation_id_range _ HTs') as Hrange.
  split; [done|]. intros c. unfold Helper_id in *.
  rewrite (EachComponent_elem _ c Hrange). split.
  - intros [Hc Hbit]. apply HelperImplementation_id_bit in Hbit as (T & HT & <-);
      [|eapply Forall_impl; [exact HTs'|]; intros; simpl in *; lia | done].
    exists T. split; [|done]. by rewrite sortList_Permutation in HT.
  - intros (T & HT & <-).
    pose proof (proj1 (Forall_forall _ _) HTs T HT) as HTr. simpl in HTr.
    split; [lia|]. apply HelperImplementation_id_bit;
      [eapply Forall_impl; [exact HTs'|]; intros; simpl in *; lia | lia |].
    exists T. split; [|done]. by rewrite sortList_Permutation.
Qed.

(** X9: the signature [Helper<Ts...>::id] of component types numbered below
    64 fits 64 bits, and the components [EachComponent] finds in it are
    exactly the ids of the types of the list, whatever their order and
    however often a type is repeated. *)
Theorem Helper_id_components Ts :
  Ts ≠ [] →
  Forall (λ T, 0 ≤ Component_Id T < 64) Ts →
  0 ≤ Helper_id Ts < 2 ^ 64 ∧
  ∀ c, c ∈ EachComponent (Helper_id Ts) ↔ ∃ T, T ∈ Ts ∧ Component_Id T = c.
Proof. intros _. apply Helper_id_spec. Qed.

Lemma Helper_id_components_witness :
  0 ≤ Helper_id [Examples.Velocity; Examples.Position] < 2 ^ 64 ∧
  ∀ c, c ∈ EachComponent (Helper_id [Examples.Velocity; Examples.Position])
       ↔ ∃ T, T ∈ [Examples.Velocity; Examples.Position] ∧ Component_Id T = c.
Proof.
  apply Helper_id_components; [done|]. repeat constructor; vm_compute; congruence.
Defined.

(** [Contains] on the signature of a list of types. *)
Lemma Contains_Helper_id m Ts :
  Forall (λ T, 0 ≤ Component_Id T) Ts →
  Contains m (Helper_id Ts) = true ↔
  ∀ T, T ∈ Ts → Z.testbit (id m) (Component_Id T) = true.
Proof.
  intros HTs.
  assert (HTs' : Forall (λ T, 0 ≤ Component_Id T) (Utils.sortList Ts)).
  { by rewrite sortList_Permutation. }
  unfold Contains, Helper_id. rewrite Z.eqb_eq. split.
  - intros Hland T HT.
    pose proof (proj1 (Forall_forall _ _) HTs T HT) as HTr. simpl in HTr.
    assert (Hbit : Z.testbit (HelperImplementation_id (Utils.sortList Ts))
                     (Component_Id T) = true).
    { apply HelperImplementation_id_bit; [done..|]. exists T.
      split; [|done]. by rewrite sortList_Permutation. }
    rewrite <- Hland, Z.land_spec in Hbit. by apply andb_true_iff in Hbit as [? _].
  - intros Hall. apply Z.bits_inj'. intros c Hc. rewrite Z.land_spec.
    destruct (Z.testbit (HelperImplementation_id _) c) eqn:Hbit;
      [|apply andb_false_r].
    apply HelperImplementation_id_bit in Hbit as (T & HT & <-); [|done..].
    rewrite sortList_Permutation in HT. by rewrite (Hall T HT).
Qed.

(** X10: [Contains(Helper<Ts...>::id)] holds for a block exactly when the
    bit of every type of [Ts] is set in the signature of the block. *)
Theorem Contains_all_components m Ts :
  Ts ≠ [] →
  Forall (λ T, 0 ≤ Component_Id T) Ts →
  Contains m (Helper_id Ts) = true ↔
  ∀ T, T ∈ Ts → Z.testbit (id m) (Component_Id T) = true.
Proof. intros _. apply Contains_Helper_id. Qed.

Lemma Contains_all_components_witness :
  Contains (construct 7) (Helper_id [Examples.Velocity; Examples.Position]) = true ↔
  ∀ T, T ∈ [Examples.Velocity; Examples.Position] →
       Z.testbit (id (construct 7)) (Component_Id T) = true.
Proof.
  apply Contains_all_components; [done|]. repeat constructor; vm_compute; congruence.
Defined.

End TypeSignature.

(** ** Rows and slots *)
Section Rows.
Import Component ArchetypeManager EntityReference Invariants.

Lemma columns_ok_mono m n n' : columns_ok m n → n' ≤ n → columns_ok m n'.
Proof.
  intros (ks & Hks & Hnodup & Hall) Hn. exists ks. split; [done|]. split; [done|].
  eapply Forall_impl; [exact Hall|]. intros k (Hk & col & Hcol & Hlen).
  split; [done|]. exists col. split; [done | lia].
Qed.

(** [ReserveRecord] on a block that is in order, with all allocations
    succeeding: the state afterwards. *)
Lemma ReserveRecord_spec alloc_ok s a m pool1 i r :
  (∀ n, alloc_ok n = true) →
  get_at (managers s) a = Some m →
  0 ≤ size m ≤ capacity m → capacity m < 65536 →
  (size m = capacity m → grow (capacity m) < 65536) →
  len (recordIndices m) = capacity m →
  columns_ok m (capacity m) →
  EntityRecord.Reserve alloc_ok (pool s) = Returns (pool1, EntityRecord.At i) →
  get_at (EntityRecord.records pool1) i = Some r →
  ∃ m',
    ReserveRecord alloc_ok s a
    = Returns (mkState
                 (EntityRecord.mkPool (EntityRecord.capacity pool1)
                    (EntityRecord.last pool1) (EntityRecord.freeList pool1)
                    (<[Z.to_nat i := EntityRecord.mk (toIndex a) (size m)
                                        (EntityRecord.version r)]>
                       (EntityRecord.records pool1))
                    (EntityRecord.invalidRecord pool1))
                 (<[Z.to_nat a := m']> (managers s)),
               EntityRecord.At i) ∧
    id m' = id m ∧ internalIndex m' = internalIndex m ∧ size m' = size m + 1 ∧
    size m' ≤ capacity m' ∧ capacity m' < 65536 ∧
    len (recordIndices m') = capacity m' ∧
    get_at (recordIndices m') (size m) = Some (toIndex i) ∧
    (∀ j, j < size m → get_at (recordIndices m') j = get_at (recordIndices m) j) ∧
    columns_ok m' (capacity m') ∧
    (∀ k col, get_at (componentArrays m) k = Some col →
       ∃ col', get_at (componentArrays m') k = Some col' ∧
               ∀ j, j < size m → get_at col' j = get_at col j).
Proof.
  intros Hok Hm Hsize Hcap Hfit Hrows Hcols Hreserve Hr.
  unfold ReserveRecord. rewrite Hreserve. simpl. rewrite Hm. simpl.
  pose proof (set_at_in_range (EntityRecord.records pool1) i
                (EntityRecord.mk (toIndex a) (size m) (EntityRecord.version r))
                (get_at_lt _ _ _ Hr)) as Hset2.
  destruct (Z.geb_spec (size m) (capacity m)) as [Hfull|Hroom].
  - assert (Heq : size m = capacity m) by lia. specialize (Hfit Heq).
    pose proof (grow_bounds (capacity m) ltac:(lia)) as Hgrow.
    assert (Hgrow' : capacity m < grow (capacity m)) by lia.
    assert (Hcap' : toIndex (grow (capacity m)) = grow (capacity m)).
    { apply toIndex_small. lia. }
    rewrite Hcap'.
    destruct Hcols as (ks & Hks & Hnodup & Hall).
    destruct (foldM_columns
                (λ col, snd <$> returned
                          (ResizeArray alloc_ok col (grow (capacity m)) (size m)))
                (internalIndex m) (EachComponent (id m)) ks (componentArrays m)
                Hks Hnodup)
      as (arrays' & Hfold & Hlen & Hin & Hout).
    { apply Forall_forall. intros k Hk.
      destruct (proj1 (Forall_forall _ _) Hall k Hk) as (_ & col & Hcol & Hn).
      exists col. split; [done|].
      destruct (ResizeArray_spec alloc_ok col (grow (capacity m)) (size m))
        as (col' & -> & _); [done | lia | lia | by eexists]. }
    rewrite resizeColumns_on_column, Hfold by done. simpl.
    unfold realloc. rewrite Hok.
    set (rows := take (Z.to_nat (grow (capacity m))) (recordIndices m)
                 ++ fresh (grow (capacity m) - len (recordIndices m)) 0).
    assert (Hrowslen : len rows = grow (capacity m)).
    { unfold rows, len, fresh in *.
      rewrite length_app, length_take, length_replicate. lia. }
    pose proof (set_at_in_range rows (size m) (toIndex i) ltac:(lia)) as Hset1.
    rewrite Hset1. simpl. rewrite Hr. simpl. rewrite Hset2. simpl.
    match goal with |- context [set_at (managers s) a ?x] =>
      pose proof (set_at_in_range (managers s) a x (get_at_lt _ _ _ Hm)) as Hset3;
      rewrite Hset3 end.
    simpl. eexists. split; [reflexivity|]. simpl.
    split; [done|]. split; [done|].
    split; [apply toIndex_small; lia|].
    rewrite (toIndex_small (size m + 1)) by lia.
    split; [lia|]. split; [done|].
    split; [by rewrite (len_set_at _ _ _ _ Hset1)|].
    split; [apply (get_set_at_eq _ _ _ _ Hset1)|].
    split; [|split].
    + intros j Hj. rewrite (get_set_at_ne _ _ _ _ _ Hset1) by lia.
      unfold rows. rewrite get_at_app_l, get_at_take; [done | lia |].
      unfold len in *. rewrite length_take. lia.
    + exists ks. split; [done|]. split; [done|].
      apply Forall_forall. intros k Hk.
      destruct (proj1 (Forall_forall _ _) Hall k Hk) as (Hused & col & Hcol & Hn).
      split; [done|].
      destruct (ResizeArray_spec alloc_ok col (grow (capacity m)) (size m))
        as (col' & Hresize & Hlen' & Hkeep); [done | lia | lia |].
      exists col'. simpl. rewrite (Hin k col Hk Hcol), Hresize. simpl.
      split; [done | lia].
    + intros k col Hcol. destruct (decide (k ∈ ks)) as [Hk|Hk].
      * destruct (proj1 (Forall_forall _ _) Hall k Hk) as (_ & col0 & Hcol0 & Hn).
        assert (col0 = col) as -> by congruence.
        destruct (ResizeArray_spec alloc_ok col (grow (capacity m)) (size m))
          as (col' & Hresize & Hlen' & Hkeep); [done | lia | lia |].
        exists col'. rewrite (Hin k col Hk Hcol), Hresize. by simpl.
      * exists col. by rewrite (Hout k Hk).
  - simpl.
    pose proof (set_at_in_range (recordIndices m) (size m) (toIndex i) ltac:(lia))
      as Hset1.
    rewrite Hset1. simpl. rewrite Hr. simpl. rewrite Hset2. simpl.
    match goal with |- context [set_at (managers s) a ?x] =>
      pose proof (set_at_in_range (managers s) a x (get_at_lt _ _ _ Hm)) as Hset3;
      rewrite Hset3 end.
    simpl. eexists. split; [reflexivity|]. simpl.
    split; [done|]. split; [done|].
    split; [apply toIndex_small; lia|].
    rewrite (toIndex_small (size m + 1)) by lia.
    split; [lia|]. split; [done|].
    split; [by rewrite (len_set_at _ _ _ _ Hset1)|].
    split; [apply (get_set_at_eq _ _ _ _ Hset1)|].
    split; [|split].
    + intros j Hj. by rewrite (get_set_at_ne _ _ _ _ _ Hset1) by lia.
    + done.
    + intros k col Hcol. by exists col.
Qed.

Lemma columns_ok_update m n ri arrays' cap sz :
  columns_ok m n →
  (∀ k col, get_at (componentArrays m) k = Some col →
     ∃ col', get_at arrays' k = Some col' ∧ len col ≤ len col') →
  columns_ok (ArchetypeManager.mk (id m) ri arrays' (internalIndex m) cap sz) n.
Proof.
  intros (ks & Hks & Hnodup & Hall) Hcols. exists ks. simpl.
  split; [done|]. split; [done|].
  eapply Forall_impl; [exact Hall|]. intros k (Hk & col & Hcol & Hlen).
  split; [done|]. destruct (Hcols k col Hcol) as (col' & Hcol' & Hlen').
  exists col'. split; [done | lia].
Qed.

(** Distinct components of the signature have distinct columns. *)
Lemma columns_ok_inj m n c1 c2 k :
  columns_ok m n →
  c1 ∈ EachComponent (id m) → c2 ∈ EachComponent (id m) →
  get_at (internalIndex m) c1 = Some k → get_at (internalIndex m) c2 = Some k →
  c1 = c2.
Proof.
  intros (ks & Hks & Hnodup & _) [j1 Hj1]%list_elem_of_lookup_1
    [j2 Hj2]%list_elem_of_lookup_1 Hk1 Hk2.
  destruct (Forall2_lookup_l _ _ _ _ _ Hks Hj1) as (k1 & Hk1' & Hc1).
  destruct (Forall2_lookup_l _ _ _ _ _ Hks Hj2) as (k2 & Hk2' & Hc2).
  assert (k1 = k) as -> by congruence. assert (k2 = k) as -> by congruence.
  assert (j1 = j2) as -> by (by eapply NoDup_lookup).
  congruence.
Qed.

(** The stores of an initialising lambda on a row of a block whose columns
    are in order. *)
Lemma initialise_spec m n row Ts values :
  columns_ok m n → 0 ≤ row < n →
  Forall (λ T, Component_Id T ∈ EachComponent (id m)) Ts →
  NoDup (Component_Id <$> Ts) →
  (length values ≤ length Ts)%nat →
  ∃ m',
    World.initialise m row Ts values = Some m' ∧
    id m' = id m ∧ recordIndices m' = recordIndices m ∧
    internalIndex m' = internalIndex m ∧
    capacity m' = capacity m ∧ size m' = size m ∧
    columns_ok m' n ∧
    (∀ j T v, Ts !! j = Some T → values !! j = Some v →
       ∃ k col, get_at (internalIndex m) (Component_Id T) = Some k ∧ k ≠ Unused ∧
                get_at (componentArrays m') k = Some col ∧
                get_at col row = Some v) ∧
    (∀ k col, get_at (componentArrays m) k = Some col →
       ∃ col', get_at (componentArrays m') k = Some col' ∧ len col' = len col ∧
               ∀ j, j ≠ row → get_at col' j = get_at col j) ∧
    (∀ k, (∀ T, T ∈ Ts → get_at (internalIndex m) (Component_Id T) ≠ Some k) →
          get_at (componentArrays m') k = get_at (componentArrays m) k).
Proof.
  intros Hcols Hrow HTs Hnodup. revert m values Hcols HTs.
  assert (Hnone : ∀ (m : ArchetypeManager.t) (Ts : list CType), columns_ok m n →
            ∃ m',
              Some m = Some m' ∧
              id m' = id m ∧ recordIndices m' = recordIndices m ∧
              internalIndex m' = internalIndex m ∧
              capacity m' = capacity m ∧ size m' = size m ∧
              columns_ok m' n ∧
              (∀ (j : nat) (T : CType) (v : Value),
                 Ts !! j = Some T → @nil Value !! j = Some v →
                 ∃ k col, get_at (internalIndex m) (Component_Id T) = Some k ∧
                          k ≠ Unused ∧
                          get_at (componentArrays m') k = Some col ∧
                          get_at col row = Some v) ∧
              (∀ k col, get_at (componentArrays m) k = Some col →
                 ∃ col', get_at (componentArrays m') k = Some col' ∧
                         len col' = len col ∧
                         ∀ j, j ≠ row → get_at col' j = get_at col j) ∧
              (∀ k, (∀ T, T ∈ Ts →
                          get_at (internalIndex m) (Component_Id T) ≠ Some k) →
                    get_at (componentArrays m') k = get_at (componentArrays m) k)).
  { intros m Ts' Hcols. exists m. do 6 (split; [done|]). split; [done|].
    split; [by intros j T v ?|]. split; [|done].
    intros k col Hcol. by exists col. }
  induction Ts as [|T Ts IH]; intros m values Hcols HTs Hlen.
  - destruct values; [|simpl in Hlen; lia]. by apply Hnone.
  - destruct values as [|x values]; [by apply Hnone|].
    assert (Hlen' : (length values ≤ length Ts)%nat) by (simpl in Hlen; lia).
    clear Hlen. rename Hlen' into Hlen.
    apply Forall_cons in HTs as [HT HTs].
    rewrite fmap_cons in Hnodup. apply NoDup_cons in Hnodup as [Hfresh Hnodup].
    destruct (columns_ok_lookup m n T Hcols HT) as (k & col & Hk & Hused & Hcol & Hn).
    pose proof (set_at_in_range col row x ltac:(lia)) as Hset1.
    pose proof (set_at_in_range (componentArrays m) k (<[Z.to_nat row := x]> col)
                  (get_at_lt _ _ _ Hcol)) as Hset2.
    set (m1 := ArchetypeManager.mk (id m) (recordIndices m)
                 (<[Z.to_nat k := <[Z.to_nat row := x]> col]> (componentArrays m))
                 (internalIndex m) (capacity m) (size m)).
    assert (Hstep : ∀ k0 col0, get_at (componentArrays m) k0 = Some col0 →
              ∃ col', get_at (componentArrays m1) k0 = Some col' ∧
                      len col' = len col0 ∧
                      ∀ j, j ≠ row → get_at col' j = get_at col0 j).
    { intros k0 col0 Hcol0. simpl. destruct (Z.eq_dec k0 k) as [->|Hne].
      - assert (col0 = col) as -> by congruence.
        exists (<[Z.to_nat row := x]> col).
        split; [apply (get_set_at_eq _ _ _ _ Hset2)|].
        split; [apply (len_set_at _ _ _ _ Hset1)|].
        intros j Hj. by apply (get_set_at_ne _ _ _ _ _ Hset1).
      - exists col0. by rewrite (get_set_at_ne _ _ _ _ _ Hset2). }
    assert (Hcols1 : columns_ok m1 n).
    { apply columns_ok_update; [done|]. intros k0 col0 Hcol0.
      destruct (Hstep k0 col0 Hcol0) as (col' & Hcol' & Hlen' & _).
      exists col'. split; [done | lia]. }
    destruct (IH Hnodup m1 values Hcols1 HTs Hlen)
      as (m' & Hinit & Hid & Hri & Hii & Hcap & Hsz & Hcols' & Hvals & Hframe & Hout).
    exists m'. split.
    { simpl. unfold GetComponentArray. rewrite Hk. simpl. rewrite Hcol. simpl.
      rewrite Hcol. simpl. rewrite Hset1. simpl. rewrite Hset2. simpl. exact Hinit. }
    do 5 (split; [done|]). split; [done|]. split; [|split].
    + intros [|j] T' v HT' Hv; simpl in HT', Hv.
      * injection HT' as <-. injection Hv as <-. exists k.
        assert (Hkeep : get_at (componentArrays m') k = get_at (componentArrays m1) k).
        { apply Hout. intros T' HT' Hk'. simpl in Hk'. apply Hfresh.
          apply list_elem_of_fmap. exists T'. split; [|done].
          pose proof (proj1 (Forall_forall _ _) HTs T' HT') as HT'in. simpl in HT'in.
          by apply (columns_ok_inj m n _ _ k Hcols). }
        exists (<[Z.to_nat row := x]> col). split; [done|]. split; [done|].
        split; [rewrite Hkeep; apply (get_set_at_eq _ _ _ _ Hset2)|].
        apply (get_set_at_eq _ _ _ _ Hset1).
      * apply (Hvals j T' v HT' Hv).
    + intros k0 col0 Hcol0.
      destruct (Hstep k0 col0 Hcol0) as (col1 & Hcol1 & Hlen1 & Hkeep1).
      destruct (Hframe k0 col1 Hcol1) as (col' & Hcol' & Hlen' & Hkeep').
      exists col'. split; [done|]. split; [congruence|].
      intros j Hj. by rewrite Hkeep', Hkeep1.
    + intros k0 Hk0. rewrite Hout.
      * simpl. apply (get_set_at_ne _ _ _ _ _ Hset2). intros ->.
        apply (Hk0 T); [left | done].
      * intros T' HT'. simpl. apply Hk0. by right.
Qed.

Lemma block_ok_frame p p' a m :
  block_ok p a m →
  (∀ i, live p i →
        live p' i ∧ get_at (EntityRecord.records p') i = get_at (EntityRecord.records p) i) →
  block_ok p' a m.
Proof.
  intros (Hsize & Hcap & Hri & Hcols & Hrows) Hframe.
  do 4 (split; [done|]). intros row Hrow.
  destruct (Hrows row Hrow) as (i & v & Hi & Hlive & Hsmall & Hrec).
  destruct (Hframe i Hlive) as [Hlive' Hrec'].
  exists i, v. by rewrite Hrec'.
Qed.

Lemma get_at_insert_eq {A} (l : list A) i x :
  0 ≤ i < len l → get_at (<[Z.to_nat i := x]> l) i = Some x.
Proof. intros Hi. apply (get_set_at_eq l _ i x). by apply set_at_in_range. Qed.

Lemma get_at_insert_ne {A} (l : list A) i j x :
  0 ≤ i → i ≠ j → get_at (<[Z.to_nat i := x]> l) j = get_at l j.
Proof.
  intros Hi Hne. unfold get_at. destruct (Z.leb_spec 0 j); [|done].
  apply list_lookup_insert_ne. lia.
Qed.

Lemma len_insert {A} (l : list A) i x : len (<[i := x]> l) = len l.
Proof. unfold len. by rewrite length_insert. Qed.

(** What [CreateEntity(lambda)] does once the block is found: a record is
    reserved, linked to a new row of the block, and the row is filled. *)
Lemma reserve_and_initialise alloc_ok s a m Ts values :
  (∀ n, alloc_ok n = true) →
  state_ok s →
  EntityRecord.last (pool s) < 65535 →
  get_at (managers s) a = Some m →
  (size m = capacity m → grow (capacity m) < 65536) →
  Forall (λ T, Component_Id T ∈ EachComponent (id m)) Ts →
  NoDup (Component_Id <$> Ts) →
  (length values ≤ length Ts)%nat →
  ∃ s' h,
    ('(s1, record) ← ReserveRecord alloc_ok s a;
     r ← defined (EntityRecord.read (pool s1) record);
     m1 ← defined (get_at (managers s1) a);
     m2 ← defined (World.initialise m1 (EntityRecord.row r) Ts values);
     managers2 ← defined (set_at (managers s1) a m2);
     h ← defined (EntityReference.of_record (pool s1) record);
     Returns (mkState (pool s1) managers2, h)) = Returns (s', h) ∧
    (values = [] →
     ReserveRecord alloc_ok s a = Returns (s', EntityRecord.At (recordIndex h)) ∧
     EntityReference.of_record (pool s') (EntityRecord.At (recordIndex h)) = Some h) ∧
    state_ok s' ∧
    entity s' h a (size m) ∧
    (∃ m', get_at (managers s') a = Some m' ∧ id m' = id m ∧ size m' = size m + 1) ∧
    (∀ b, b ≠ a → get_at (managers s') b = get_at (managers s) b) ∧
    (∀ j T v, Ts !! j = Some T → values !! j = Some v → read s' h T = Some v) ∧
    (∀ j r, get_at (EntityRecord.records (pool s)) j = Some r →
            ∃ r', get_at (EntityRecord.records (pool s')) j = Some r' ∧
                  EntityRecord.version r' = EntityRecord.version r) ∧
    (∀ h0 a0 row0,
       entity s h0 a0 row0 →
       h0 ≠ h ∧ entity s' h0 a0 row0 ∧
       ∀ m0 T, get_at (managers s) a0 = Some m0 →
               Component_Id T ∈ EachComponent (id m0) →
               read s' h0 T = read s h0 T).
Proof.
  intros Hok (Hpool & Hlen & Hblocks) Hlast Hm Hfit HTs Hnodup Hvalues.
  pose proof (get_at_lt _ _ _ Hm) as Ha.
  assert (Hatoi : toIndex a = a) by (apply toIndex_small; lia).
  (* the record *)
  destruct (Reserve_pool_ok alloc_ok (pool s) Hpool)
    as [(pool1 & i & Hreserve & Hpool1 & Hlast1 & Hkept & Hnotlive & Hlive1 &
         Hothers & [r Hr] & _)
       |(? & _ & Hfail & _)];
    [|  |by rewrite Hok in Hfail].
  { destruct Hpool as (? & ? & _). lia. }
  assert (Hi : 0 ≤ i < 65535) by (destruct Hlive1; lia).
  assert (Hitoi : toIndex i = i) by (apply toIndex_small; lia).
  (* the row *)
  destruct (Hblocks a m Hm) as (Hsize & Hcap & Hri & Hcols & Hrows).
  destruct (ReserveRecord_spec alloc_ok s a m pool1 i r Hok Hm Hsize Hcap Hfit Hri
              Hcols Hreserve Hr)
    as (m1 & Hreserved & Hid1 & Hii1 & Hsize1 & Hfits1 & Hcap1 & Hri1 & Hrow1 &
        Hrows1 & Hcols1 & Hkeep1).
  rewrite Hatoi, Hitoi in *.
  pose proof Hreserved as Hreserved'.
  assert (Hrec2' : get_at (<[Z.to_nat i := EntityRecord.mk a (size m)
                                            (EntityRecord.version r)]>
                           (EntityRecord.records pool1)) i
                   = Some (EntityRecord.mk a (size m) (EntityRecord.version r))).
  { apply get_at_insert_eq. eapply get_at_lt. eassumption. }
  rewrite Hreserved. cbn [mbind outcome_bind defined pool managers
                            EntityRecord.read EntityRecord.records].
  pose proof (get_at_lt _ _ _ Hr) as Hir.
  rewrite get_at_insert_eq by done.
  cbn [mbind outcome_bind defined EntityRecord.row].
  rewrite get_at_insert_eq by done. cbn [mbind outcome_bind defined].
  (* the stores *)
  destruct (initialise_spec m1 (capacity m1) (size m) Ts values Hcols1 ltac:(lia))
    as (m2 & Hinit & Hid2 & Hri2 & Hii2 & Hcap2 & Hsize2 & Hcols2 & Hvals & Hkeep2 & _);
    [by rewrite Hid1 | done | done |].
  cbn [EntityRecord.row]. rewrite Hinit. cbn [mbind outcome_bind defined].
  rewrite set_at_in_range by (by rewrite len_insert).
  cbn [mbind outcome_bind defined]. unfold of_record.
  cbn [EntityRecord.GetIndex mbind option_bind EntityRecord.read EntityRecord.records].
  rewrite get_at_insert_eq by done.
  cbn [mbind outcome_bind option_bind defined EntityRecord.version]. rewrite Hitoi.
  rewrite list_insert_insert_eq.
  set (pool2 := EntityRecord.mkPool _ _ _ _ _).
  set (h := EntityReference.mk i (EntityRecord.version r)).
  eexists _, _. split; [reflexivity|].
  split.
  { intros ->.
    assert (m2 = m1) as -> by (destruct Ts; simpl in Hinit; congruence).
    split; [done|]. unfold of_record.
    cbn [EntityRecord.GetIndex mbind option_bind EntityRecord.read pool
           EntityRecord.records recordIndex h].
    unfold pool2. cbn [EntityRecord.records]. rewrite Hrec2'.
    cbn [mbind option_bind EntityRecord.version]. by rewrite Hitoi. }
  (* the slots in use *)
  assert (Hlive2 : ∀ j, live (pool s) j →
            live pool2 j ∧
            get_at (EntityRecord.records pool2) j
            = get_at (EntityRecord.records (pool s)) j).
  { intros j Hj. assert (Hji : j ≠ i) by (by intros ->). split.
    - by apply Hothers.
    - simpl. rewrite get_at_insert_ne by lia.
      destruct Hj as [Hj _]. destruct Hpool as (Hl & Hc & _).
      destruct (get_at_is_Some (EntityRecord.records (pool s)) j ltac:(lia))
        as [x Hx].
      by rewrite Hx, (Hkept j x Hx). }
  assert (Hrec2 : get_at (EntityRecord.records pool2) i
                  = Some (EntityRecord.mk a (size m) (EntityRecord.version r))).
  { simpl. by apply get_at_insert_eq. }
  assert (Hm2 : get_at (<[Z.to_nat a := m2]> (managers s)) a = Some m2).
  { by apply get_at_insert_eq. }
  assert (Hrow2 : ∀ row, 0 ≤ row < size m →
            ∃ j v, get_at (recordIndices m2) row = Some j ∧ live (pool s) j ∧
                   j ≠ i ∧ j < 65535 ∧
                   get_at (EntityRecord.records (pool s)) j
                   = Some (EntityRecord.mk a row v)).
  { intros row Hrow. destruct (Hrows row Hrow) as (j & v & Hj & Hjlive & Hjs & Hjr).
    exists j, v. rewrite Hri2, Hrows1 by lia.
    split; [done|]. split; [done|]. split; [by intros ->|]. done. }
  split; [|split; [|split; [|split; [|split; [|split]]]]].
  - (* the state is in order *)
    split; [|split].
    + destruct Hpool1 as (? & Hc1 & ? & ? & ?). unfold pool_ok. simpl.
      rewrite len_insert. done.
    + simpl. by rewrite len_insert.
    + simpl. intros b mb Hmb. destruct (Z.eq_dec b a) as [->|Hba].
      * rewrite Hm2 in Hmb. injection Hmb as <-.
        split; [lia|]. split; [lia|]. split; [congruence|].
        split; [by rewrite Hcap2|]. intros row Hrow.
        destruct (Z.eq_dec row (size m)) as [->|Hne].
        -- exists i, (EntityRecord.version r).
           split; [by rewrite Hri2|]. split; [done|]. split; [lia|]. done.
        -- destruct (Hrow2 row ltac:(lia)) as (j & v & Hj & Hjlive & Hji & Hjs & Hjr).
           destruct (Hlive2 j Hjlive) as [Hjlive2 Hjr2].
           exists j, v. by rewrite Hjr2.
      * rewrite get_at_insert_ne in Hmb by lia.
        apply (block_ok_frame (pool s)); [by apply Hblocks | done].
  - (* the new entity *)
    exists m2. simpl. split; [done|]. split; [lia|]. split; [by rewrite Hri2|]. done.
  - exists m2. simpl. split; [done|]. split; [congruence | lia].
  - intros b Hb. simpl. by apply get_at_insert_ne; [lia|].
  - (* it reads what was stored *)
    intros j T v HT Hv.
    destruct (Hvals j T v HT Hv) as (k & col & Hk & Hused & Hcol & Hcell).
    rewrite (read_spec (mkState pool2 (<[Z.to_nat a := m2]> (managers s))) h T
               (EntityRecord.mk a (size m) (EntityRecord.version r)) m2 k col);
      simpl; try done.
    + unfold InvalidIndex. lia.
    + congruence.
  - (* the generations *)
    intros j r0 Hr0. simpl. destruct (Z.eq_dec j i) as [->|Hji].
    + rewrite get_at_insert_eq by done. eexists. split; [done|]. simpl.
      rewrite (Hkept i r0 Hr0) in Hr. by injection Hr as ->.
    + rewrite get_at_insert_ne by lia. exists r0. split; [by apply Hkept | done].
  - (* the entities there were *)
    intros h0 a0 row0 (m0 & Hm0 & Hrow0 & Hslot0 & Hrec0).
    destruct (Hblocks a0 m0 Hm0) as (Hsize0 & Hcap0 & Hri0 & Hcols0 & Hrows0).
    destruct (Hrows0 row0 Hrow0) as (j & v & Hj & Hjlive & Hjs & Hjr).
    assert (j = recordIndex h0) as -> by congruence.
    destruct (Hlive2 _ Hjlive) as [Hjlive2 Hjr2]. simpl in Hjr2.
    assert (Hne : recordIndex h0 ≠ i) by (by intros Heq; rewrite Heq in Hjlive).
    split; [by intros ->|].
    destruct (Z.eq_dec a0 a) as [->|Ha0].
    + assert (m0 = m) as -> by congruence. split.
      * exists m2. simpl. split; [done|]. split; [lia|].
        split; [by rewrite Hri2, Hrows1 by lia|]. by rewrite Hjr2.
      * intros m0 T Hm0' HT. assert (m0 = m) as -> by congruence.
        destruct (columns_ok_lookup m _ T Hcols HT)
          as (k & col & Hk & Hused & Hcol & Hn).
        destruct (Hkeep1 k col Hcol) as (col1 & Hcol1 & Hsame1).
        destruct (Hkeep2 k col1 Hcol1) as (col2 & Hcol2 & _ & Hsame2).
        rewrite (read_spec s h0 T (EntityRecord.mk a row0 (version h0)) m k col) by
          (try done; unfold InvalidIndex; lia).
        rewrite (read_spec (mkState pool2 (<[Z.to_nat a := m2]> (managers s))) h0 T
                   (EntityRecord.mk a row0 (version h0)) m2 k col2);
          simpl; try done; try congruence;
          try (unfold InvalidIndex; lia);
          try (by rewrite Hsame2, Hsame1 by lia).
    + split.
      * exists m0. simpl. rewrite get_at_insert_ne by lia.
        split; [done|]. split; [done|]. split; [done|]. by rewrite Hjr2.
      * intros m0' T Hm0' HT. assert (m0' = m0) as -> by congruence.
        destruct (columns_ok_lookup m0 _ T Hcols0 HT)
          as (k & col & Hk & Hused & Hcol & Hn).
        rewrite (read_spec s h0 T (EntityRecord.mk a0 row0 (version h0)) m0 k col) by
          (try done; unfold InvalidIndex; lia).
        rewrite (read_spec (mkState pool2 (<[Z.to_nat a := m2]> (managers s))) h0 T
                   (EntityRecord.mk a0 row0 (version h0)) m0 k col);
          simpl; try done; try congruence; try (unfold InvalidIndex; lia);
          try (by rewrite get_at_insert_ne by lia).
Qed.

Lemma state_ok_empty : state_ok ArchetypeManager.empty.
Proof.
  split; [|split].
  - unfold pool_ok. simpl. unfold len. simpl.
    split; [lia|]. split; [done|]. split; [done|]. split; constructor.
  - unfold len. simpl. lia.
  - intros a m Hm. apply get_at_lt in Hm. unfold len in Hm. simpl in Hm. lia.
Qed.

Lemma block_ok_construct p a newId :
  0 ≤ newId < 2 ^ 64 → block_ok p a (construct newId).
Proof.
  intros Hid.
  destruct (construct_spec newId Hid) as (_ & Hsize & Hcap & Hri & _ & _ & Hcols).
  unfold block_ok. rewrite Hsize, Hcap, Hri.
  split; [lia|]. split; [lia|]. split; [done|]. split; [done|]. lia.
Qed.

(** [CreateEntity(lambda)] and [CreateEntity<Ts...>()] on a state that is in
    order. *)
Lemma CreateEntity_with_spec alloc_ok s Ts values :
  (∀ n, alloc_ok n = true) →
  state_ok s →
  EntityRecord.last (pool s) < 65535 →
  len (managers s) < 65536 →
  Forall (λ m, grow (capacity m) < 65536) (managers s) →
  Forall (λ T, 0 ≤ Component_Id T < 64) Ts →
  NoDup (Component_Id <$> Ts) →
  (length values ≤ length Ts)%nat →
  ∃ s' h a row,
    World.CreateEntity_with alloc_ok s Ts values = Returns (s', h) ∧
    (values = [] → World.CreateEntity alloc_ok s Ts = Returns (s', h)) ∧
    state_ok s' ∧
    entity s' h a row ∧
    (∃ m', get_at (managers s') a = Some m' ∧ id m' = Helper_id Ts) ∧
    (∀ j T v, Ts !! j = Some T → values !! j = Some v → read s' h T = Some v) ∧
    (∀ j r, get_at (EntityRecord.records (pool s)) j = Some r →
            ∃ r', get_at (EntityRecord.records (pool s')) j = Some r' ∧
                  EntityRecord.version r' = EntityRecord.version r) ∧
    (∀ h0 a0 row0,
       entity s h0 a0 row0 →
       h0 ≠ h ∧ entity s' h0 a0 row0 ∧
       ∀ m0 T, get_at (managers s) a0 = Some m0 →
               Component_Id T ∈ EachComponent (id m0) →
               read s' h0 T = read s h0 T).
Proof.
  intros Hok Hstate Hlast Hlen Hgrow HTs Hnodup Hvalues.
  destruct s as [p ms]. simpl in *.
  destruct (Helper_id_spec Ts HTs) as [Hrange Hcomps].
  assert (HTs' : ∀ m, id m = Helper_id Ts →
            Forall (λ T, Component_Id T ∈ EachComponent (id m)) Ts).
  { intros m ->. apply Forall_forall. intros T HT. apply Hcomps. by exists T. }
  unfold World.CreateEntity_with, World.CreateEntity, GetInstance, Find. simpl.
  destruct (Find_loop ms 0 (Helper_id Ts)) as [k|] eqn:Hloop.
  - apply Find_loop_Some in Hloop as (_ & (m & Hm & Hid) & _).
    rewrite Z.sub_0_r in Hm.
    destruct (reserve_and_initialise alloc_ok (mkState p ms) k m Ts values)
      as (s' & h & Hrun & Hrun0 & Hok' & Hentity & (m' & Hm' & Hid' & _) & _ & Hreads &
          Hversions & Hframe); try done.
    { intros _. apply (proj1 (Forall_forall _ _) Hgrow m).
      apply get_at_Some in Hm as [_ Hm]. by apply list_elem_of_lookup_2 in Hm. }
    { by apply HTs'. }
    exists s', h, k, (size m). split; [exact Hrun|].
    split; [intros Hnil; destruct (Hrun0 Hnil) as [-> Hof]; simpl; by rewrite Hof|].
    split; [done|].
    split; [done|]. split; [|done]. exists m'. split; [done | congruence].
  - destruct Hstate as (Hpool & _ & Hblocks). simpl in *.
    assert (Hnew : get_at (ms ++ [construct (Helper_id Ts)]) (len ms)
                   = Some (construct (Helper_id Ts))).
    { apply get_at_Some. split; [unfold len; lia|].
      unfold len. rewrite Nat2Z.id. apply list_lookup_middle. done. }
    assert (Hold : ∀ b mb, get_at ms b = Some mb →
                     get_at (ms ++ [construct (Helper_id Ts)]) b = Some mb).
    { intros b mb Hmb. rewrite get_at_app_l; [done|]. apply get_at_lt in Hmb. lia. }
    destruct (reserve_and_initialise alloc_ok
                (mkState p (ms ++ [construct (Helper_id Ts)])) (len ms)
                (construct (Helper_id Ts)) Ts values)
      as (s' & h & Hrun & Hrun0 & Hok' & Hentity & (m' & Hm' & Hid' & _) & _ & Hreads &
          Hversions & Hframe); try done.
    { split; [done|]. split.
      - simpl. unfold len in *. rewrite length_app. simpl. lia.
      - simpl. intros b mb Hmb. destruct (Z.lt_ge_cases b (len ms)) as [Hb|Hb].
        + rewrite get_at_app_l in Hmb by done. by apply Hblocks.
        + pose proof (get_at_lt _ _ _ Hmb) as Hb'. unfold len in Hb, Hb'.
          rewrite length_app in Hb'. simpl in Hb'.
          assert (b = len ms) as -> by (unfold len; lia).
          rewrite Hnew in Hmb. injection Hmb as <-.
          by apply block_ok_construct. }
    { intros _. destruct (construct_spec _ Hrange) as (_ & _ & -> & _).
      by vm_compute. }
    { apply HTs'. apply construct_id. }
    exists s', h, (len ms), (size (construct (Helper_id Ts))).
    split; [exact Hrun|].
    split; [intros Hnil; destruct (Hrun0 Hnil) as [-> Hof]; simpl; by rewrite Hof|].
    split; [done|]. split; [done|].
    split; [exists m'; split; [done|]; by rewrite Hid', construct_id|].
    split; [done|]. split; [done|].
    intros h0 a0 row0 (m0 & Hm0 & Hrow0 & Hslot0 & Hrec0). simpl in *.
    destruct (Hframe h0 a0 row0) as (Hne & Hentity0 & Hread0).
    { exists m0. simpl. split; [by apply Hold | done]. }
    split; [done|]. split; [done|].
    intros m0' T Hm0' HT. assert (m0' = m0) as -> by congruence.
    rewrite (Hread0 m0 T (Hold _ _ Hm0) HT).
    destruct (Hblocks a0 m0 Hm0) as (_ & _ & _ & Hcols0 & Hrows0).
    destruct (Hrows0 row0 Hrow0) as (j & v & Hj & _ & Hjs & _).
    assert (j = recordIndex h0) as -> by congruence.
    destruct (columns_ok_lookup m0 _ T Hcols0 HT) as (k & col & Hk & Hused & Hcol & _).
    rewrite (read_spec (mkState p (ms ++ [construct (Helper_id Ts)])) h0 T
               (EntityRecord.mk a0 row0 (version h0)) m0 k col);
      simpl; try done; try (unfold InvalidIndex; lia); try (by apply Hold).
    rewrite (read_spec (mkState p ms) h0 T
               (EntityRecord.mk a0 row0 (version h0)) m0 k col);
      simpl; try done; try (unfold InvalidIndex; lia).
Qed.


(** X11: [CreateEntity(lambda)], for a lambda that stores [values] in
    components of distinct types [Ts], on a state that is in order and with
    all allocations succeeding, fewer than 65535 slots in the active range,
    fewer than 65536 blocks and block capacities that can still grow within
    an [Index].  The state stays in order; the handle returned is the one of
    a new row in a block with the signature of [Ts], and through it every
    component reads the value stored; no record changes its generation;
    every entity there was keeps its handle, its block and row, and the
    values of its components. *)
Theorem CreateEntity_adds_entity alloc_ok s Ts values :
  Ts ≠ [] →
  (∀ n, alloc_ok n = true) →
  state_ok s →
  EntityRecord.last (pool s) < 65535 →
  len (managers s) < 65536 →
  Forall (λ m, grow (capacity m) < 65536) (managers s) →
  Forall (λ T, 0 ≤ Component_Id T < 64) Ts →
  NoDup (Component_Id <$> Ts) →
  length values = length Ts →
  ∃ s' h a row,
    World.CreateEntity_with alloc_ok s Ts values = Returns (s', h) ∧
    state_ok s' ∧
    entity s' h a row ∧
    (∃ m', get_at (managers s') a = Some m' ∧ id m' = Helper_id Ts) ∧
    (∀ j T v, Ts !! j = Some T → values !! j = Some v → read s' h T = Some v) ∧
    (∀ j r, get_at (EntityRecord.records (pool s)) j = Some r →
            ∃ r', get_at (EntityRecord.records (pool s')) j = Some r' ∧
                  EntityRecord.version r' = EntityRecord.version r) ∧
    (∀ h0 a0 row0,
       entity s h0 a0 row0 →
       h0 ≠ h ∧ entity s' h0 a0 row0 ∧
       ∀ m0 T, get_at (managers s) a0 = Some m0 →
               Component_Id T ∈ EachComponent (id m0) →
               read s' h0 T = read s h0 T).
Proof.
  intros _ Hok Hstate Hlast Hlen Hgrow HTs Hnodup Hvalues.
  destruct (CreateEntity_with_spec alloc_ok s Ts values)
    as (s' & h & a & row & Hrun & _ & Hrest); try done; [lia|].
  by exists s', h, a, row.
Qed.

Lemma CreateEntity_adds_entity_witness :
  ∃ s' h,
    World.CreateEntity_with Examples.always ArchetypeManager.empty
      [Examples.Position; Examples.Velocity] [10; 20] = Returns (s', h) ∧
    state_ok s' ∧
    read s' h Examples.Position = Some 10 ∧
    read s' h Examples.Velocity = Some 20.
Proof.
  destruct (CreateEntity_adds_entity Examples.always ArchetypeManager.empty
              [Examples.Position; Examples.Velocity] [10; 20])
    as (s' & h & a & row & Hrun & Hok & _ & _ & Hreads & _).
  - done.
  - reflexivity.
  - apply state_ok_empty.
  - vm_compute. reflexivity.
  - vm_compute. reflexivity.
  - constructor.
  - repeat constructor; vm_compute; congruence.
  - change (NoDup [0; 1]). apply NoDup_cons. split; [|apply NoDup_singleton].
    intros Hin%list_elem_of_singleton. discriminate.
  - reflexivity.
  - exists s', h. split; [done|]. split; [done|]. split.
    + by apply (Hreads 0%nat).
    + by apply (Hreads 1%nat).
Defined.

End Rows.

(** ** Destroying an entity *)
Section Removal.
Import Component ArchetypeManager EntityReference Invariants.

Lemma toIndex_succ_ne v : toIndex (v + 1) ≠ v.
Proof.
  unfold toIndex. intros Heq.
  pose proof (Z.mod_pos_bound (v + 1) 65536 ltac:(lia)) as Hrange.
  destruct (Z.eq_dec v 65535) as [->|Hne]; [by vm_compute in Heq|].
  rewrite Z.mod_small in Heq by lia. lia.
Qed.

(** [RemoveRow] on the last row of a block only shortens the block. *)
Lemma RemoveRow_last s a m :
  get_at (managers s) a = Some m → 0 < size m →
  RemoveRow s a (size m - 1)
  = Some (mkState (pool s)
            (<[Z.to_nat a := ArchetypeManager.mk (id m) (recordIndices m)
                               (componentArrays m) (internalIndex m) (capacity m)
                               (size m - 1)]> (managers s))).
Proof.
  intros Hm Hsize. unfold RemoveRow. rewrite Hm. simpl.
  destruct (Z.eqb_spec (size m) 0) as [|_]; [lia|].
  rewrite Z.eqb_refl. simpl.
  by rewrite set_at_in_range by (eapply get_at_lt; eassumption).
Qed.

(** [RemoveRow] on a row that is not the last, in a block whose columns
    are in order: the state afterwards. *)
Lemma RemoveRow_inner s a m n row removed moved rr rm :
  get_at (managers s) a = Some m →
  0 ≤ row < size m - 1 → size m ≤ n →
  columns_ok m n →
  get_at (recordIndices m) row = Some removed →
  get_at (recordIndices m) (size m - 1) = Some moved →
  get_at (EntityRecord.records (pool s)) removed = Some rr →
  get_at (EntityRecord.records (pool s)) moved = Some rm →
  removed ≠ moved →
  ∃ pool1 m',
    EntityRecord.Release (pool s) removed = Some pool1 ∧
    EntityRecord.records pool1
    = <[Z.to_nat removed := EntityRecord.mk InvalidIndex InvalidIndex
                              (toIndex (EntityRecord.version rr + 1))]>
        (EntityRecord.records (pool s)) ∧
    RemoveRow s a row
    = Some (mkState
              (EntityRecord.mkPool (EntityRecord.capacity pool1)
                 (EntityRecord.last pool1) (EntityRecord.freeList pool1)
                 (<[Z.to_nat moved := EntityRecord.mk (EntityRecord.archetype rm) row
                                        (EntityRecord.version rm)]>
                    (EntityRecord.records pool1))
                 (EntityRecord.invalidRecord pool1))
              (<[Z.to_nat a := m']> (managers s))) ∧
    id m' = id m ∧ internalIndex m' = internalIndex m ∧
    capacity m' = capacity m ∧ size m' = size m - 1 ∧
    recordIndices m' = <[Z.to_nat row := moved]> (recordIndices m) ∧
    columns_ok m' n ∧
    (∀ k col, get_at (componentArrays m) k = Some col →
       ∃ col', get_at (componentArrays m') k = Some col' ∧
               ∀ j, j ≠ row → j ≠ size m - 1 → get_at col' j = get_at col j) ∧
    (∀ c k col,
       c ∈ EachComponent (id m) →
       get_at (internalIndex m) c = Some k →
       get_at (componentArrays m) k = Some col →
       ∃ col', get_at (componentArrays m') k = Some col' ∧
               get_at col' row = get_at col (size m - 1)).
Proof.
  intros Hm Hrow Hn Hcols Hremoved Hmoved Hrr Hrm Hdiff.
  unfold RemoveRow. rewrite Hm. simpl.
  destruct (Z.eqb_spec (size m) 0) as [|_]; [lia|].
  destruct (Z.eqb_spec row (size m - 1)) as [|_]; [lia|]. simpl.
  pose proof Hcols as (ks & Hks & Hnodup & Hall).
  destruct (foldM_columns (move_within row (size m - 1)) (internalIndex m)
              (EachComponent (id m)) ks (componentArrays m) Hks Hnodup)
    as (arrays' & Hfold & Hlen & Hin & Hout).
  { apply Forall_forall. intros k Hk.
    destruct (proj1 (Forall_forall _ _) Hall k Hk) as (_ & col & Hcol & Hlencol).
    exists col. split; [done|].
    destruct (move_within_spec row (size m - 1) col) as (col' & x & -> & _);
      [lia | lia | done]. }
  rewrite moveRows_on_column, Hfold. simpl.
  rewrite Hremoved. simpl.
  destruct (Release_records (pool s) removed rr Hrr) as (pool1 & Hrelease & Hrecords1).
  rewrite Hrelease. simpl. rewrite Hmoved. simpl.
  assert (Hrm1 : get_at (EntityRecord.records pool1) moved = Some rm).
  { rewrite Hrecords1, get_at_insert_ne; [done | | done].
    apply get_at_lt in Hrr. lia. }
  rewrite Hrm1. simpl.
  rewrite set_at_in_range by (eapply get_at_lt; eassumption). simpl.
  rewrite set_at_in_range by (eapply get_at_lt; eassumption). simpl.
  rewrite set_at_in_range by (eapply get_at_lt; eassumption). simpl.
  assert (Hcolumns : ∀ k col, get_at (componentArrays m) k = Some col →
            ∃ col', get_at arrays' k = Some col' ∧ len col' = len col ∧
                    (k ∈ ks → get_at col' row = get_at col (size m - 1)) ∧
                    ∀ j, j ≠ row → j ≠ size m - 1 → get_at col' j = get_at col j).
  { intros k col Hcol. destruct (decide (k ∈ ks)) as [Hk|Hk].
    - destruct (proj1 (Forall_forall _ _) Hall k Hk) as (_ & col0 & Hcol0 & Hlencol).
      assert (col0 = col) as -> by congruence.
      destruct (move_within_spec row (size m - 1) col)
        as (col' & x & Hmove & Hx & Hlen' & Hatrow & Hothers); [lia | lia |].
      exists col'. rewrite (Hin k col Hk Hcol), Hmove, Hx.
      split; [done|]. split; [done|]. split; [|done]. intros _. apply Hatrow. lia.
    - exists col. rewrite (Hout k Hk). done. }
  eexists _, _. split; [reflexivity|]. split; [done|]. split; [reflexivity|]. simpl.
  do 5 (split; [done|]). split; [|split].
  - apply columns_ok_update; [done|]. intros k col Hcol.
    destruct (Hcolumns k col Hcol) as (col' & Hcol' & Hlen' & _).
    exists col'. split; [done | lia].
  - intros k col Hcol. destruct (Hcolumns k col Hcol) as (col' & Hcol' & _ & _ & Hkeep).
    by exists col'.
  - intros c k col [j Hj]%list_elem_of_lookup_1 Hk Hcol.
    destruct (Forall2_lookup_l _ _ _ _ _ Hks Hj) as (k' & Hk' & Hc').
    assert (k' = k) as -> by congruence.
    apply list_elem_of_lookup_2 in Hk'.
    destruct (Hcolumns k col Hcol) as (col' & Hcol' & _ & Hatrow & _).
    exists col'. split; [done | by apply Hatrow].
Qed.

End Removal.

(** ** Destroying an entity, continued *)
Section Destruction.
Import Component ArchetypeManager EntityReference Invariants.

Lemma entity_handle_eq s h h0 a row a0 row0 :
  entity s h a row → entity s h0 a0 row0 →
  recordIndex h0 = recordIndex h → h0 = h.
Proof.
  destruct h as [i v], h0 as [i0 v0]. simpl.
  intros (m & _ & _ & _ & Hr) (m0 & _ & _ & _ & Hr0) ->. simpl in *.
  rewrite Hr in Hr0. by injection Hr0 as _ _ ->.
Qed.

(** [Destroy()] on the handle of an entity, in a state that is in order. *)
Lemma Destroy_spec s h a row :
  state_ok s → entity s h a row →
  ∃ s' m m',
    Destroy s h = Some (s', EntityReference.mk InvalidIndex (version h)) ∧
    state_ok s' ∧
    get_at (managers s) a = Some m ∧ get_at (managers s') a = Some m' ∧
    id m' = id m ∧ size m' = size m - 1 ∧
    (∀ b, b ≠ a → get_at (managers s') b = get_at (managers s) b) ∧
    (row < size m - 1 →
     ∀ Components, Access s' h Components = Some (false, None)) ∧
    (∀ h0 a0 row0,
       entity s h0 a0 row0 → h0 ≠ h →
       entity s' h0 a0 (if decide (a0 = a ∧ row0 = size m - 1) then row else row0) ∧
       ∀ m0 T, get_at (managers s) a0 = Some m0 →
               Component_Id T ∈ EachComponent (id m0) →
               read s' h0 T = read s h0 T).
Proof.
  intros Hstate Hentity.
  pose proof Hstate as (Hpool & Hlen & Hblocks).
  pose proof Hentity as (m & Hm & Hrow & Hslot & Hrec).
  destruct (Hblocks a m Hm) as (Hsize & Hcap & Hri & Hcols & Hrows).
  destruct (Hrows row Hrow) as (i & v & Hi & Hlive & Hsmall & Hreci).
  assert (i = recordIndex h) as -> by congruence. clear Hi Hreci v.
  pose proof (get_at_lt _ _ _ Hm) as Ha.
  assert (Hvalid : recordIndex h ≠ InvalidIndex) by (unfold InvalidIndex; lia).
  (* what the entities there were read *)
  assert (Hreads : ∀ h0 a0 row0 m0 T k col,
            entity s h0 a0 row0 → get_at (managers s) a0 = Some m0 →
            get_at (internalIndex m0) (Component_Id T) = Some k → k ≠ Unused →
            get_at (componentArrays m0) k = Some col →
            read s h0 T = get_at col row0).
  { intros h0 a0 row0 m0 T k col (m0' & Hm0' & Hrow0 & Hslot0 & Hrec0) Hm0 Hk Hused Hcol.
    assert (m0' = m0) as -> by congruence.
    destruct (Hblocks a0 m0 Hm0) as (_ & _ & _ & _ & Hrows0).
    destruct (Hrows0 row0 Hrow0) as (j & w & Hj & _ & Hjs & _).
    assert (j = recordIndex h0) as -> by congruence.
    rewrite (read_spec s h0 T (EntityRecord.mk a0 row0 (version h0)) m0 k col);
      try done. unfold InvalidIndex. lia. }
  unfold Destroy. destruct (Z.eqb_spec (recordIndex h) InvalidIndex); [done|].
  simpl. rewrite Hrec. simpl. rewrite Z.eqb_refl.
  destruct (Z.eq_dec row (size m - 1)) as [->|Hinner].
  - (* the last row *)
    rewrite RemoveRow_last by (done || lia). simpl.
    set (m' := ArchetypeManager.mk (id m) (recordIndices m) (componentArrays m)
                 (internalIndex m) (capacity m) (size m - 1)).
    assert (Hm' : get_at (<[Z.to_nat a := m']> (managers s)) a = Some m').
    { by apply get_at_insert_eq. }
    eexists _, m, m'. split; [reflexivity|]. simpl.
    split; [|split; [done|split; [done|split; [done|split; [done|split; [|split]]]]]].
    + split; [done|]. split; [simpl; by rewrite len_insert|].
      simpl. intros b mb Hmb. destruct (Z.eq_dec b a) as [->|Hba].
      * rewrite Hm' in Hmb. injection Hmb as <-.
        split; [simpl; lia|]. do 3 (split; [done|]).
        intros row0 Hrow0. simpl in Hrow0. apply Hrows. lia.
      * rewrite get_at_insert_ne in Hmb by lia. by apply Hblocks.
    + intros b Hb. apply get_at_insert_ne; lia.
    + lia.
    + intros h0 a0 row0 Hentity0 Hne.
      pose proof Hentity0 as (m0 & Hm0 & Hrow0 & Hslot0 & Hrec0).
      destruct (decide (a0 = a ∧ row0 = size m - 1)) as [[-> ->]|Hother].
      { exfalso. apply Hne. apply (entity_handle_eq s h h0 a (size m - 1) a (size m - 1));
          try done. congruence. }
      assert (Hentity' : entity (mkState (pool s) (<[Z.to_nat a := m']> (managers s)))
                           h0 a0 row0).
      { destruct (Z.eq_dec a0 a) as [->|Ha0].
        - assert (m0 = m) as -> by congruence.
          exists m'. simpl. split; [done|]. split; [lia|]. done.
        - exists m0. simpl. rewrite get_at_insert_ne by lia. done. }
      split; [done|]. intros m0' T Hm0' HT. assert (m0' = m0) as -> by congruence.
      destruct (Hblocks a0 m0 Hm0) as (_ & _ & _ & Hcols0 & Hrows0).
      destruct (columns_ok_lookup m0 _ T Hcols0 HT) as (k & col & Hk & Hused & Hcol & _).
      rewrite (Hreads h0 a0 row0 m0 T k col) by done.
      destruct (Hrows0 row0 Hrow0) as (j & w & Hj & _ & Hjs & _).
      assert (j = recordIndex h0) as -> by congruence.
      destruct (Z.eq_dec a0 a) as [->|Ha0].
      * assert (m0 = m) as -> by congruence.
        rewrite (read_spec _ h0 T (EntityRecord.mk a row0 (version h0)) m' k col);
          try done. unfold InvalidIndex. lia.
      * rewrite (read_spec _ h0 T (EntityRecord.mk a0 row0 (version h0)) m0 k col);
          try done; [unfold InvalidIndex; lia|].
        simpl. by rewrite get_at_insert_ne by lia.
  - (* a row before the last *)
    assert (Hrow' : 0 ≤ row < size m - 1) by lia.
    destruct (Hrows (size m - 1) ltac:(lia))
      as (moved & vm & Hmoved & Hmlive & Hmsmall & Hmrec).
    assert (Hdiff : recordIndex h ≠ moved).
    { intros Heq. rewrite <- Heq, Hrec in Hmrec. injection Hmrec as ? ?. lia. }
    destruct (RemoveRow_inner s a m (capacity m) row (recordIndex h) moved _ _
                Hm Hrow' ltac:(lia) Hcols Hslot Hmoved Hrec Hmrec Hdiff)
      as (pool1 & m' & Hrelease & Hrecords1 & Hremove & Hid' & Hii' & Hcap' & Hsize' &
          Hri' & Hcols' & Hkeep & Hmovedcell).
    destruct (Release_pool_ok (pool s) (recordIndex h) Hpool Hlive ltac:(lia))
      as (pool1' & Hrelease' & Hpool1 & Hlive1).
    assert (pool1' = pool1) as -> by congruence.
    rewrite Hremove. simpl.
    set (records2 := <[Z.to_nat moved := _]> (EntityRecord.records pool1)).
    set (pool2 := EntityRecord.mkPool _ _ _ records2 _).
    assert (Hm' : get_at (<[Z.to_nat a := m']> (managers s)) a = Some m').
    { by apply get_at_insert_eq. }
    pose proof (get_at_lt _ _ _ Hrec) as Hir.
    pose proof (get_at_lt _ _ _ Hmrec) as Hmr.
    assert (Hrecords2 : ∀ j, j ≠ recordIndex h → j ≠ moved →
              get_at records2 j = get_at (EntityRecord.records (pool s)) j).
    { intros j Hj1 Hj2. unfold records2.
      rewrite get_at_insert_ne by lia. rewrite Hrecords1.
      by rewrite get_at_insert_ne by lia. }
    assert (Hmoved2 : get_at records2 moved = Some (EntityRecord.mk a row vm)).
    { unfold records2. rewrite get_at_insert_eq; [done|].
      rewrite Hrecords1, len_insert. done. }
    assert (Hremoved2 : get_at records2 (recordIndex h)
              = Some (EntityRecord.mk InvalidIndex InvalidIndex
                        (toIndex (version h + 1)))).
    { unfold records2. rewrite get_at_insert_ne by lia.
      rewrite Hrecords1. by rewrite get_at_insert_eq. }
    assert (Hlive2 : ∀ j, live (pool s) j → j ≠ recordIndex h → live pool2 j).
    { intros j Hj Hne. by apply Hlive1. }
    eexists _, m, m'. split; [reflexivity|]. simpl.
    split; [|split; [done|split; [done|split; [done|split; [done|split; [|split]]]]]].
    + split; [|split].
      * destruct Hpool1 as (? & Hc1 & ? & ? & ?). unfold pool_ok, pool2, records2.
        simpl. rewrite len_insert. done.
      * simpl. by rewrite len_insert.
      * simpl. intros b mb Hmb. destruct (Z.eq_dec b a) as [->|Hba].
        -- rewrite Hm' in Hmb. injection Hmb as <-.
           split; [lia|]. split; [lia|].
           split; [by rewrite Hri', len_insert, Hcap'|].
           split; [by rewrite Hcap'|]. intros row0 Hrow0. rewrite Hri'.
           destruct (Z.eq_dec row0 row) as [->|Hne].
           ++ exists moved, vm. rewrite get_at_insert_eq by lia.
              split; [done|]. split; [by apply Hlive2|]. done.
           ++ destruct (Hrows row0 ltac:(lia)) as (j & w & Hj & Hjlive & Hjs & Hjr).
              assert (j ≠ recordIndex h).
              { intros ->. rewrite Hrec in Hjr. by injection Hjr as ?. }
              assert (j ≠ moved).
              { intros ->. rewrite Hmrec in Hjr. injection Hjr as ?. lia. }
              exists j, w. rewrite get_at_insert_ne by lia.
              split; [done|]. split; [by apply Hlive2|]. split; [done|].
              simpl. by rewrite Hrecords2.
        -- rewrite get_at_insert_ne in Hmb by lia.
           destruct (Hblocks b mb Hmb) as (? & ? & ? & ? & Hrowsb).
           do 4 (split; [done|]). intros row0 Hrow0.
           destruct (Hrowsb row0 Hrow0) as (j & w & Hj & Hjlive & Hjs & Hjr).
           assert (j ≠ recordIndex h).
           { intros ->. rewrite Hrec in Hjr. by injection Hjr as ?. }
           assert (j ≠ moved).
           { intros ->. rewrite Hmrec in Hjr. by injection Hjr as ?. }
           exists j, w. split; [done|]. split; [by apply Hlive2|]. split; [done|].
           simpl. by rewrite Hrecords2.
    + intros b Hb. apply get_at_insert_ne; lia.
    + intros _ Components. unfold Access. simpl.
      destruct (Z.eqb_spec (recordIndex h) InvalidIndex); [done|]. simpl.
      fold records2. rewrite Hremoved2. simpl.
      destruct (Z.eqb_spec (version h) (toIndex (version h + 1))) as [Heq|]; [|done].
      symmetry in Heq. by apply toIndex_succ_ne in Heq.
    + intros h0 a0 row0 Hentity0 Hne.
      pose proof Hentity0 as (m0 & Hm0 & Hrow0 & Hslot0 & Hrec0).
      assert (Hne' : recordIndex h0 ≠ recordIndex h).
      { intros Heq. apply Hne. by apply (entity_handle_eq s h h0 a row a0 row0). }
      destruct (Hblocks a0 m0 Hm0) as (_ & _ & _ & Hcols0 & Hrows0).
      destruct (Hrows0 row0 Hrow0) as (j & w & Hj & Hjlive & Hjs & Hjr).
      assert (j = recordIndex h0) as -> by congruence. clear Hj Hjr w.
      destruct (decide (a0 = a ∧ row0 = size m - 1)) as [[-> ->]|Hother].
      * assert (m0 = m) as -> by congruence.
        assert (recordIndex h0 = moved) as Hidx by congruence.
        assert (vm = version h0) as -> by (rewrite <- Hidx, Hrec0 in Hmrec; congruence).
        split.
        -- exists m'. simpl. split; [done|]. split; [lia|].
           rewrite Hri', Hidx, get_at_insert_eq by lia. split; [done|].
           fold records2. done.
        -- intros m0 T Hm0' HT. assert (m0 = m) as -> by congruence.
           destruct (columns_ok_lookup m _ T Hcols HT)
             as (k & col & Hk & Hused & Hcol & _).
           destruct (Hmovedcell _ k col HT Hk Hcol) as (col' & Hcol' & Hcell).
           rewrite (Hreads h0 a (size m - 1) m T k col) by done.
           rewrite (read_spec _ h0 T (EntityRecord.mk a row (version h0)) m' k col');
             simpl; try done; try congruence; try (unfold InvalidIndex; lia);
             try (by rewrite Hidx).
      * assert (Hnm : recordIndex h0 ≠ moved).
        { intros Heq. rewrite Heq, Hmrec in Hrec0. injection Hrec0 as ? ? ?.
          apply Hother. done. }
        assert (Hrec2 : get_at records2 (recordIndex h0)
                        = Some (EntityRecord.mk a0 row0 (version h0))).
        { by rewrite Hrecords2. }
        destruct (Z.eq_dec a0 a) as [->|Ha0].
        -- assert (m0 = m) as -> by congruence.
           assert (Hr0 : row0 ≠ row) by (intros ->; congruence).
           assert (Hr1 : row0 ≠ size m - 1) by (intros ->; by apply Hother).
           split.
           ++ exists m'. simpl. split; [done|]. split; [lia|].
              rewrite Hri', get_at_insert_ne by lia. done.
           ++ intros m0 T Hm0' HT. assert (m0 = m) as -> by congruence.
              destruct (columns_ok_lookup m _ T Hcols HT)
                as (k & col & Hk & Hused & Hcol & _).
              destruct (Hkeep k col Hcol) as (col' & Hcol' & Hsame).
              rewrite (Hreads h0 a row0 m T k col) by done.
              rewrite (read_spec _ h0 T (EntityRecord.mk a row0 (version h0)) m' k col');
                simpl; try done; try congruence; try (unfold InvalidIndex; lia);
                try (by apply Hsame).
        -- split.
           ++ exists m0. simpl. rewrite get_at_insert_ne by lia. done.
           ++ intros m0' T Hm0' HT. assert (m0' = m0) as -> by congruence.
              destruct (columns_ok_lookup m0 _ T Hcols0 HT)
                as (k & col & Hk & Hused & Hcol & _).
              rewrite (Hreads h0 a0 row0 m0 T k col) by done.
              rewrite (read_spec _ h0 T (EntityRecord.mk a0 row0 (version h0)) m0 k col);
                simpl; try done; try (unfold InvalidIndex; lia);
                try (by rewrite get_at_insert_ne by lia).
Qed.

(** X12: [Destroy()] on the handle of an entity, in a state that is in
    order.  The state stays in order and the block of the entity loses one
    row; the other blocks are left alone.  Every other entity keeps its
    handle and the values of its components, and its row too, except the
    entity of the last row, which takes the row of the destroyed one.  When
    the destroyed entity was not in the last row, every copy of its handle
    is refused by [Access] from then on. *)
Theorem Destroy_removes_entity s h a row :
  state_ok s → entity s h a row →
  ∃ s' m m',
    Destroy s h = Some (s', EntityReference.mk InvalidIndex (version h)) ∧
    state_ok s' ∧
    get_at (managers s) a = Some m ∧ get_at (managers s') a = Some m' ∧
    id m' = id m ∧ size m' = size m - 1 ∧
    (∀ b, b ≠ a → get_at (managers s') b = get_at (managers s) b) ∧
    (row < size m - 1 →
     ∀ Components, Access s' h Components = Some (false, None)) ∧
    (∀ h0 a0 row0,
       entity s h0 a0 row0 → h0 ≠ h →
       entity s' h0 a0 (if decide (a0 = a ∧ row0 = size m - 1) then row else row0) ∧
       ∀ m0 T, get_at (managers s) a0 = Some m0 →
               Component_Id T ∈ EachComponent (id m0) →
               read s' h0 T = read s h0 T).
Proof. apply Destroy_spec. Qed.

Lemma state_ok_state3 : state_ok Examples.state3.
Proof.
  split; [|split].
  - unfold pool_ok. simpl. unfold len. simpl.
    split; [lia|]. split; [done|]. split; [done|]. split; constructor.
  - unfold len. simpl. lia.
  - intros a m Hm. pose proof (get_at_lt _ _ _ Hm) as Ha.
    unfold len in Ha. simpl in Ha. assert (a = 0) as -> by lia.
    injection Hm as <-. split; [simpl; lia|]. split; [simpl; lia|].
    split; [done|]. split.
    + exists [0; 1]. split; [|split].
      * repeat constructor.
      * compute_done.
      * repeat constructor; try (vm_compute; discriminate);
          eexists; (split; [reflexivity | vm_compute; discriminate]).
    + simpl. intros row Hrow.
      assert (row = 0 ∨ row = 1 ∨ row = 2) as Hcases by lia.
      destruct Hcases as [Hr|[Hr|Hr]]; subst row.
      * exists 0, 0. split; [done|]. split; [|done].
        split; [simpl; lia | apply not_elem_of_nil].
      * exists 1, 0. split; [done|]. split; [|done].
        split; [simpl; lia | apply not_elem_of_nil].
      * exists 2, 0. split; [done|]. split; [|done].
        split; [simpl; lia | apply not_elem_of_nil].
Qed.

Lemma Destroy_removes_entity_witness :
  ∃ s',
    Destroy Examples.state3 Examples.e1
    = Some (s', EntityReference.mk InvalidIndex 0) ∧
    state_ok s' ∧
    entity s' Examples.e2 0 1 ∧
    Access s' Examples.e1 [Examples.Position] = Some (false, None).
Proof.
  destruct (Destroy_removes_entity Examples.state3 Examples.e1 0 1)
    as (s' & m & m' & Hrun & Hok & Hm & _ & _ & _ & _ & Hstale & Hframe).
  - apply state_ok_state3.
  - exists Examples.block3. repeat split; reflexivity || (simpl; lia).
  - injection Hm as <-. exists s'. split; [done|]. split; [done|]. split.
    + destruct (Hframe Examples.e2 0 2) as [Hentity _]; [|done|done].
      exists Examples.block3. repeat split; reflexivity || (simpl; lia).
    + apply Hstale. simpl. lia.
Defined.

End Destruction.

(** ** Iterating over the entities of a query *)
Section Iteration.
Import Component ArchetypeManager EntityReference Invariants Queries Visits.

Lemma EachComponent_loop_bit n id' c0 j :
  (j < n)%nat → Z.testbit id' (Z.of_nat j) = true →
  c0 + Z.of_nat j ∈ EachComponent_loop n id' c0.
Proof.
  revert id' c0 j; induction n as [|n IH]; intros id' c0 j Hj Hbit; [lia|].
  simpl EachComponent_loop. apply elem_of_app.
  assert (Hbit0 : Z.land 1 id' = Z.b2z (Z.testbit id' 0)).
  { rewrite Z.land_comm. change 1 with (Z.ones 1).
    rewrite Z.land_ones by lia. change (2 ^ 1) with 2.
    by rewrite Z.bit0_mod. }
  destruct j as [|j].
  - left. change (Z.of_nat 0) with 0 in Hbit. rewrite Hbit0, Hbit. simpl.
    rewrite Z.add_0_r. by apply list_elem_of_singleton.
  - right.
    assert (Hbit' : Z.testbit (Z.shiftr id' 1) (Z.of_nat j) = true).
    { rewrite Z.shiftr_spec by lia. rewrite <- Hbit. f_equal. lia. }
    destruct (Z.eqb_spec (Z.shiftr id' 1) 0) as [Hz|Hnz].
    { rewrite Hz, Z.testbit_0_l in Hbit'. done. }
    replace (c0 + Z.of_nat (S j)) with (c0 + 1 + Z.of_nat j) by lia.
    apply IH; [lia | done].
Qed.

Lemma EachComponent_bit id' c :
  0 ≤ c < 64 → Z.testbit id' c = true → c ∈ EachComponent id'.
Proof.
  intros Hc Hbit. unfold EachComponent.
  replace c with (0 + Z.of_nat (Z.to_nat c)) by lia.
  apply EachComponent_loop_bit; [lia|]. by rewrite Z2Nat.id by lia.
Qed.

Lemma mapM_cons_option {A B} (f : A → option B) x l :
  mapM f (x :: l) = y ← f x; k ← mapM f l; Some (y :: k).
Proof. done. Qed.

Lemma store_same m p x : load m p = Some x → store m p x = Some m.
Proof.
  destruct p as [|k r]; [done|]. simpl.
  destruct (get_at (componentArrays m) k) as [col|] eqn:Hcol; [|done]. simpl.
  intros Hx.
  rewrite set_at_in_range by (eapply get_at_lt; eassumption). simpl.
  rewrite set_at_in_range by (eapply get_at_lt; eassumption). simpl.
  apply get_at_Some in Hx as [? Hx]. apply get_at_Some in Hcol as [? Hcol].
  rewrite (list_insert_id _ _ _ Hx), (list_insert_id _ _ _ Hcol). by destruct m.
Qed.

Lemma store_all_same m ptrs values :
  mapM (load m) ptrs = Some values →
  World.EntityIterator.store_all m ptrs values = Some m.
Proof.
  intros H%mapM_Some. induction H as [|p x ptrs values Hp _ IH]; simpl; [done|].
  by rewrite (store_same _ _ _ Hp).
Qed.

Lemma through_first_app {A} (P : A → bool) l1 l2 :
  through_first P (l1 ++ l2)
  = if existsb P l1 then through_first P l1 else l1 ++ through_first P l2.
Proof.
  induction l1 as [|x l1 IH]; simpl; [done|].
  destruct (P x); simpl; [done|]. rewrite IH. by destruct (existsb P l1).
Qed.

Lemma matched_columns p b m Cs :
  block_ok p b m →
  Forall (λ T, 0 ≤ Component_Id T < 64) Cs →
  Contains m (Helper_id Cs) = true →
  ∃ ks, columns_of m Cs ks ∧
        mapM (λ T, GetComponentArray m T 0) Cs = Some ((λ k, cell k 0) <$> ks).
Proof.
  intros (Hsize & Hcap & Hri & Hcols & Hrows) HCs Hcontains.
  assert (Hbits : ∀ T, T ∈ Cs → Z.testbit (id m) (Component_Id T) = true).
  { apply Contains_Helper_id; [|done].
    eapply Forall_impl; [exact HCs|]. intros; simpl in *; lia. }
  clear Hcontains. induction HCs as [|T Cs HT HCs IH].
  - exists []. split; [constructor | done].
  - destruct IH as (ks & Hks & Hmap); [intros T' HT'; apply Hbits; by right|].
    assert (Hin : Component_Id T ∈ EachComponent (id m)).
    { apply EachComponent_bit; [done|]. apply Hbits. left. }
    destruct (columns_ok_lookup m _ T Hcols Hin) as (k & col & Hk & Hused & Hcol & Hlen).
    exists (k :: ks). split.
    + constructor; [|done]. split; [done|]. split; [done|].
      exists col. split; [done | lia].
    + assert (HT1 : GetComponentArray m T 0 = Some (cell k 0)).
      { unfold GetComponentArray. rewrite Hk. simpl. by rewrite Hcol. }
      rewrite mapM_cons_option, HT1. simpl. by rewrite Hmap.
Qed.

Lemma state_same s b m :
  get_at (managers s) b = Some m →
  set_at (managers s) b m = Some (managers s) ∧
  mkState (pool s) (managers s) = s.
Proof.
  intros Hm. split; [|by destruct s].
  rewrite set_at_in_range by (eapply get_at_lt; eassumption).
  apply get_at_Some in Hm as [_ Hm]. by rewrite (list_insert_id _ _ _ Hm).
Qed.

(** What the lambda is handed at a row of a matched block. *)
Lemma visit_at s b m Cs ks r st :
  state_ok s → get_at (managers s) b = Some m →
  columns_of m Cs ks → 0 ≤ r < size m →
  ∃ h values,
    World.EntityIterator.GetCurrentEntity s (World.EntityIterator.mk (Some b) r st)
    = Some h ∧
    mapM (load m) ((λ k, cell k r) <$> ks) = Some values ∧
    visit s Cs (b, r) (Some h, values).
Proof.
  intros (Hpool & Hlen & Hblocks) Hm Hks Hr.
  destruct (Hblocks b m Hm) as (Hsize & Hcap & Hri & Hcols & Hrows).
  destruct (Hrows r Hr) as (i & v & Hi & Hlive & Hsmall & Hrec).
  assert (Hi0 : 0 ≤ i) by (by destruct Hlive as [[? _] _]).
  exists (EntityReference.mk i v).
  assert (Hentity : entity s (EntityReference.mk i v) b r).
  { exists m. by simpl. }
  assert (Hvalues : ∃ values,
            mapM (load m) ((λ k, cell k r) <$> ks) = Some values ∧
            Forall2 (λ T x, read s (EntityReference.mk i v) T = Some x) Cs values).
  { clear Hentity. induction Hks as [|T k Cs ks (Hk & Hused & col & Hcol & Hlencol) _ IH].
    - exists []. split; [done | constructor].
    - destruct IH as (values & Hmap & Hreads).
      destruct (get_at_is_Some col r ltac:(lia)) as [x Hx].
      exists (x :: values). split.
      + rewrite fmap_cons, mapM_cons_option. simpl. rewrite Hcol. simpl. rewrite Hx. simpl.
        by rewrite Hmap.
      + constructor; [|done].
        rewrite (read_spec s (EntityReference.mk i v) T (EntityRecord.mk b r v) m k col);
          simpl; try done. unfold InvalidIndex. lia. }
  destruct Hvalues as (values & Hmap & Hreads).
  exists values. split; [|split; [done|]].
  - unfold World.EntityIterator.GetCurrentEntity. simpl.
    destruct (Z.eqb_spec r InvalidIndex) as [Heq|_];
      [unfold InvalidIndex in Heq; lia|]. simpl.
    rewrite Hm. simpl. rewrite Hi. simpl. unfold of_record. simpl.
    rewrite Hrec. simpl. by rewrite toIndex_small by lia.
  - exists (EntityReference.mk i v). by simpl.
Qed.

Lemma rows_stopped {A} fuel (f : World.EntityIterator.lambda A) b ptrs s it acc m :
  fuel ≠ O → get_at (managers s) b = Some m →
  World.EntityIterator.stop it = true →
  World.EntityIterator.rows fuel f b ptrs s it acc = Some (s, it, acc).
Proof.
  intros Hfuel Hm Hstop. destruct fuel as [|fuel]; [done|]. simpl.
  rewrite Hm. simpl. by rewrite Hstop.
Qed.

Lemma seqZ_first m n : 0 < n → seqZ m n = m :: seqZ (m + 1) (n - 1).
Proof.
  intros Hn. replace n with (Z.succ (n - 1)) at 1 by lia.
  rewrite seqZ_cons by lia. f_equal. f_equal; lia.
Qed.

(** The loop over the rows of a matched block, for the lambda that notes
    its calls. *)
Lemma rows_logger stop_at s b m Cs ks (n : nat) r0 fuel log :
  state_ok s → get_at (managers s) b = Some m →
  columns_of m Cs ks →
  0 ≤ r0 → size m - r0 = Z.of_nat n → (n < fuel)%nat →
  ∃ entries it',
    Forall2 (visit s Cs) ((λ r, (b, r)) <$> seqZ r0 (size m - r0)) entries ∧
    World.EntityIterator.rows fuel (logger stop_at) b ((λ k, cell k r0) <$> ks) s
      (World.EntityIterator.mk (Some b) r0 false) log
    = Some (s, it', log ++ through_first (stops stop_at) entries) ∧
    World.EntityIterator.stop it' = existsb (stops stop_at) entries.
Proof.
  intros Hstate Hm Hks. revert r0 fuel log.
  induction n as [|n IH]; intros r0 fuel log Hr0 Hn Hfuel.
  - destruct fuel as [|fuel]; [lia|]. exists [], (World.EntityIterator.mk (Some b) r0 false).
    replace (size m - r0) with 0 by lia. split; [constructor|].
    split; [|done]. simpl. rewrite Hm. simpl.
    destruct (Z.ltb_spec r0 (size m)); [lia|]. by rewrite app_nil_r.
  - destruct fuel as [|fuel]; [lia|].
    destruct (visit_at s b m Cs ks r0 false Hstate Hm Hks ltac:(lia))
      as (h & values & Hcurrent & Hload & Hvisit).
    destruct (state_same s b m Hm) as [Hset Hs].
    assert (Hblock : block_ok (pool s) b m) by (by apply Hstate).
    assert (Hnext : toIndex (r0 + 1) = r0 + 1).
    { apply toIndex_small. destruct Hblock as (? & ? & _). lia. }
    rewrite (seqZ_first r0) by lia. rewrite fmap_cons.
    assert (Hstep : ∀ rest,
              World.EntityIterator.rows fuel (logger stop_at) b
                ((λ k, cell k (r0 + 1)) <$> ks) s
                (World.EntityIterator.mk (Some b) (r0 + 1) (stops stop_at (Some h, values)))
                (log ++ [(Some h, values)]) = Some rest →
              World.EntityIterator.rows (S fuel) (logger stop_at) b
                ((λ k, cell k r0) <$> ks) s
                (World.EntityIterator.mk (Some b) r0 false) log = Some rest).
    { intros rest Hrest. simpl. rewrite Hm. simpl.
      destruct (Z.ltb_spec r0 (size m)); [|lia]. rewrite Hload. simpl.
      unfold logger at 1. rewrite Hcurrent.
      rewrite (store_all_same _ _ _ Hload). simpl. rewrite Hset. simpl.
      rewrite Hs, Hnext. rewrite <- list_fmap_compose. exact Hrest. }
    destruct (stops stop_at (Some h, values)) eqn:Hstops.
    + (* the lambda stops the iteration *)
      destruct (IH (r0 + 1) (S fuel) [] ltac:(lia) ltac:(lia) ltac:(lia))
        as (entries & _ & Hentries & _).
      exists ((Some h, values) :: entries),
        (World.EntityIterator.mk (Some b) (r0 + 1) true).
      replace (size m - r0 - 1) with (size m - (r0 + 1)) by lia.
      split; [by constructor|]. split.
      * simpl through_first. rewrite Hstops. apply Hstep.
        apply (rows_stopped fuel _ _ _ _ _ _ m); [lia | done | done].
      * simpl. by rewrite Hstops.
    + destruct (IH (r0 + 1) fuel (log ++ [(Some h, values)])
                  ltac:(lia) ltac:(lia) ltac:(lia))
        as (entries & it' & Hentries & Hrun & Hstop).
      exists ((Some h, values) :: entries), it'.
      replace (size m - r0 - 1) with (size m - (r0 + 1)) by lia.
      split; [by constructor|]. split.
      * simpl through_first. rewrite Hstops. apply Hstep. rewrite Hrun.
        by rewrite <- app_assoc.
      * simpl. by rewrite Hstops.
Qed.

Lemma through_first_none {A} (P : A → bool) l :
  existsb P l = false → through_first P l = l.
Proof.
  induction l as [|x l IH]; simpl; [done|].
  destruct (P x); simpl; [done|]. intros Hl. by rewrite IH.
Qed.

Lemma foldM_cons {A B} (f : A → B → option A) a b l :
  foldM f a (b :: l) = a' ← f a b; foldM f a' l.
Proof. done. Qed.

Lemma blocks_stopped {A} (f : World.EntityIterator.lambda A) Cs s it acc bs :
  World.EntityIterator.stop it = true →
  foldM (World.EntityIterator.block f Cs) (s, it, acc) bs = Some (s, it, acc).
Proof.
  intros Hstop. induction bs as [|b bs IH]; simpl; [done|].
  rewrite Hstop. simpl. exact IH.
Qed.

(** The loop over the matched blocks, for the lambda that notes its
    calls. *)
Lemma blocks_logger stop_at s Cs bs it log :
  state_ok s →
  Forall (λ T, 0 ≤ Component_Id T < 64) Cs →
  Forall (λ b, ∃ m, get_at (managers s) b = Some m ∧
                    Contains m (Helper_id Cs) = true) bs →
  World.EntityIterator.stop it = false →
  ∃ entries it',
    Forall2 (visit s Cs) (bs ≫= block_rows (managers s)) entries ∧
    foldM (World.EntityIterator.block (logger stop_at) Cs) (s, it, log) bs
    = Some (s, it', log ++ through_first (stops stop_at) entries) ∧
    World.EntityIterator.stop it' = existsb (stops stop_at) entries.
Proof.
  intros Hstate HCs Hbs. revert it log.
  induction Hbs as [|b bs (m & Hm & Hcontains) Hbs IH]; intros it log Hstop.
  - exists [], it. split; [constructor|]. simpl. by rewrite app_nil_r.
  - destruct (matched_columns (pool s) b m Cs) as (ks & Hks & Hmap);
      [by apply Hstate | done | done |].
    destruct (rows_logger stop_at s b m Cs ks (Z.to_nat (size m)) 0
                (S (Z.to_nat (size m))) log Hstate Hm Hks)
      as (entries1 & it1 & Hentries1 & Hrun1 & Hstop1); [lia | | lia |].
    { destruct Hstate as (_ & _ & Hblocks).
      destruct (Hblocks b m Hm) as (? & _). lia. }
    rewrite Z.sub_0_r in Hentries1.
    assert (Hrows : block_rows (managers s) b = (λ r, (b, r)) <$> seqZ 0 (size m)).
    { unfold block_rows. by rewrite Hm. }
    assert (Hstep : ∀ rest,
              foldM (World.EntityIterator.block (logger stop_at) Cs)
                (s, it1, log ++ through_first (stops stop_at) entries1) bs = Some rest →
              foldM (World.EntityIterator.block (logger stop_at) Cs) (s, it, log)
                (b :: bs) = Some rest).
    { intros rest Hrest.
      assert (Hblock : World.EntityIterator.block (logger stop_at) Cs (s, it, log) b
                = Some (s, it1, log ++ through_first (stops stop_at) entries1)).
      { unfold World.EntityIterator.block. rewrite Hstop, Hm.
        cbn [mbind option_bind]. rewrite Hmap. cbn [mbind option_bind].
        exact Hrun1. }
      rewrite foldM_cons, Hblock. exact Hrest. }
    destruct (existsb (stops stop_at) entries1) eqn:Hfound.
    + destruct (IH it [] Hstop) as (entries2 & _ & Hentries2 & _).
      exists (entries1 ++ entries2), it1. split; [|split].
      * simpl. rewrite Hrows. by apply Forall2_app.
      * rewrite through_first_app, Hfound. apply Hstep. by apply blocks_stopped.
      * by rewrite existsb_app, Hfound.
    + destruct (IH it1 (log ++ through_first (stops stop_at) entries1) Hstop1)
        as (entries2 & it2 & Hentries2 & Hrun2 & Hstop2).
      exists (entries1 ++ entries2), it2. split; [|split].
      * simpl. rewrite Hrows. by apply Forall2_app.
      * rewrite through_first_app, Hfound. apply Hstep. rewrite Hrun2.
        by rewrite through_first_none, <- app_assoc by done.
      * by rewrite existsb_app, Hfound.
Qed.

Lemma positions_elem expected ms b r :
  (b, r) ∈ positions expected ms ↔
  ∃ m, get_at ms b = Some m ∧ Z.land (id m) expected = expected ∧ 0 ≤ r < size m.
Proof.
  unfold positions. rewrite list_elem_of_bind. split.
  - intros (b' & Hin & Hb'). unfold block_rows in Hin.
    apply list_elem_of_fmap in Hin as (r' & [= -> ->] & Hr').
    apply matching_from_elem in Hb' as (_ & m & Hm & Htest).
    rewrite Z.sub_0_r in Hm. rewrite Hm in Hr'. simpl in Hr'.
    apply elem_of_seqZ in Hr'. exists m. split; [done|]. split; [done | lia].
  - intros (m & Hm & Htest & Hr). exists b. split.
    + unfold block_rows. rewrite Hm. simpl. apply list_elem_of_fmap.
      exists r. split; [done|]. apply elem_of_seqZ. lia.
    + apply matching_from_elem. pose proof (get_at_lt _ _ _ Hm).
      split; [lia|]. exists m. by rewrite Z.sub_0_r.
Qed.

Lemma positions_NoDup expected ms : NoDup (positions expected ms).
Proof.
  unfold positions. apply NoDup_bind.
  - intros b1 b2 [b r] _ _ Hin1 Hin2. unfold block_rows in *.
    apply list_elem_of_fmap in Hin1 as (? & [= -> ->] & _).
    by apply list_elem_of_fmap in Hin2 as (? & [= -> ->] & _).
  - intros b _. unfold block_rows. apply (NoDup_fmap_2 _), NoDup_seqZ.
  - apply StronglySorted_lt_NoDup, matching_from_sorted.
Qed.

(** The result of [Iterate] for the lambda that notes its calls. *)
Lemma Iterate_logger stop_at s c it Cs :
  state_ok s →
  cache_inv (Helper_id Cs) (managers s, c) →
  Forall (λ T, 0 ≤ Component_Id T < 64) Cs →
  ∃ full it',
    Forall2 (visit s Cs) (positions (Helper_id Cs) (managers s)) full ∧
    World.EntityIterator.Iterate (logger stop_at) Cs s c it []
    = Some (s, Update Cs (managers s) c, it', through_first (stops stop_at) full) ∧
    World.EntityIterator.currentRow it' = InvalidIndex ∧
    World.EntityIterator.stop it' = existsb (stops stop_at) full.
Proof.
  intros Hstate Hcache HCs. unfold World.EntityIterator.Iterate.
  assert (Hmatched : matchedIndices (Update Cs (managers s) c)
                     = matching (Helper_id Cs) (managers s)).
  { rewrite Update_signature, (Update_with_inv _ _ _ Hcache). simpl.
    apply matching_from_toIndex; [lia|]. destruct Hstate as (_ & Hlen & _). lia. }
  rewrite Hmatched.
  destruct (blocks_logger stop_at s Cs (matching (Helper_id Cs) (managers s))
              (World.EntityIterator.mk (World.EntityIterator.currentManager it)
                 (World.EntityIterator.currentRow it) false) [] Hstate HCs)
    as (full & it' & Hfull & Hrun & Hstop); [|done|].
  { apply Forall_forall. intros b (_ & m & Hm & Htest)%matching_from_elem.
    rewrite Z.sub_0_r in Hm. exists m. split; [done|].
    unfold Contains. by apply Z.eqb_eq. }
  exists full, (World.EntityIterator.mk (World.EntityIterator.currentManager it')
                  InvalidIndex (World.EntityIterator.stop it')).
  split; [done|]. split; [|done]. rewrite Hrun. done.
Qed.

(** X13: [Iterate(lambda)], in a state that is in order and with the cache
    of the query in step with the blocks, for a lambda that notes the
    current entity and the values of its components [Cs] at each call,
    leaves the components as they are and stops the iteration when it sees
    fit.  The lambda is called for the rows of the blocks whose signature
    has the bits of all of [Cs], block by block and row by row, each row
    once, up to the call that stops the iteration; at each call
    [GetCurrentEntity()] is the handle of the entity of the row and the
    values are those of its components.  The state is left as it was, and
    the iterator ends without a current row. *)
Theorem Iterate_visits_matching_rows stop_at s c it Cs :
  Cs ≠ [] →
  state_ok s →
  cache_inv (Helper_id Cs) (managers s, c) →
  Forall (λ T, 0 ≤ Component_Id T < 64) Cs →
  NoDup (positions (Helper_id Cs) (managers s)) ∧
  (∀ b r, (b, r) ∈ positions (Helper_id Cs) (managers s) ↔
          ∃ m, get_at (managers s) b = Some m ∧ 0 ≤ r < size m ∧
               ∀ T, T ∈ Cs → Z.testbit (id m) (Component_Id T) = true) ∧
  ∃ full it',
    Forall2 (visit s Cs) (positions (Helper_id Cs) (managers s)) full ∧
    World.EntityIterator.Iterate (logger stop_at) Cs s c it []
    = Some (s, Update Cs (managers s) c, it', through_first (stops stop_at) full) ∧
    World.EntityIterator.currentRow it' = InvalidIndex ∧
    World.EntityIterator.stop it' = existsb (stops stop_at) full.
Proof.
  intros _ Hstate Hcache HCs. split; [apply positions_NoDup|]. split.
  - intros b r. rewrite positions_elem. split.
    + intros (m & Hm & Htest & Hr). exists m. split; [done|]. split; [done|].
      apply Contains_Helper_id;
        [eapply Forall_impl; [exact HCs|]; intros; simpl in *; lia|].
      unfold Contains. by apply Z.eqb_eq.
    + intros (m & Hm & Hr & Hbits). exists m. split; [done|]. split; [|done].
      apply Z.eqb_eq. apply (proj2 (Contains_Helper_id m Cs
        ltac:(eapply Forall_impl; [exact HCs|]; intros; simpl in *; lia)) Hbits).
  - by apply Iterate_logger.
Qed.

Lemma Iterate_visits_matching_rows_witness :
  ∃ full it',
    Forall2 (visit Examples.state3 [Examples.Velocity])
      (positions (Helper_id [Examples.Velocity]) (managers Examples.state3)) full ∧
    World.EntityIterator.Iterate (logger (λ _ _, false)) [Examples.Velocity]
      Examples.state3 emptyCache World.EntityIterator.initial []
    = Some (Examples.state3,
            Update [Examples.Velocity] (managers Examples.state3) emptyCache,
            it', through_first (stops (λ _ _, false)) full).
Proof.
  destruct (Iterate_visits_matching_rows (λ _ _, false) Examples.state3 emptyCache
              World.EntityIterator.initial [Examples.Velocity])
    as (_ & _ & full & it' & Hfull & Hrun & _).
  - done.
  - apply state_ok_state3.
  - split; [vm_compute; split; congruence | reflexivity].
  - repeat constructor; vm_compute; congruence.
  - by exists full, it'.
Defined.

End Iteration.

(** ** Iterating with a lambda that writes *)
Section Updating.
Import Component ArchetypeManager EntityReference Invariants Queries Visits.

(** The stores of a lambda through pointers into distinct columns. *)
Lemma store_all_spec m ks r values :
  NoDup ks →
  Forall (λ k, ∃ col, get_at (componentArrays m) k = Some col ∧ 0 ≤ r < len col) ks →
  length values = length ks →
  ∃ m',
    World.EntityIterator.store_all m ((λ k, cell k r) <$> ks) values = Some m' ∧
    id m' = id m ∧ recordIndices m' = recordIndices m ∧
    internalIndex m' = internalIndex m ∧
    capacity m' = capacity m ∧ size m' = size m ∧
    Forall2 (cell_value m' r) ks values ∧
    (∀ k col, get_at (componentArrays m) k = Some col →
       ∃ col', get_at (componentArrays m') k = Some col' ∧ len col' = len col ∧
               ∀ j, k ∉ ks ∨ j ≠ r → get_at col' j = get_at col j).
Proof.
  intros Hnodup. revert m values.
  induction ks as [|k ks IH]; intros m values Hks Hlen.
  - destruct values; [|done].
    exists m. simpl. do 6 (split; [done|]). split; [constructor|].
    intros k col Hcol. by exists col.
  - destruct values as [|x values]; [done|]. injection Hlen as Hlen.
    apply NoDup_cons in Hnodup as [Hfresh Hnodup].
    apply Forall_cons in Hks as [(col & Hcol & Hr) Hks].
    pose proof (set_at_in_range col r x Hr) as Hset1.
    pose proof (set_at_in_range (componentArrays m) k (<[Z.to_nat r := x]> col)
                  (get_at_lt _ _ _ Hcol)) as Hset2.
    set (m1 := ArchetypeManager.mk (id m) (recordIndices m)
                 (<[Z.to_nat k := <[Z.to_nat r := x]> col]> (componentArrays m))
                 (internalIndex m) (capacity m) (size m)).
    assert (Hstep : ∀ k0 col0, get_at (componentArrays m) k0 = Some col0 →
              ∃ col', get_at (componentArrays m1) k0 = Some col' ∧
                      len col' = len col0 ∧
                      ∀ j, k0 ≠ k ∨ j ≠ r → get_at col' j = get_at col0 j).
    { intros k0 col0 Hcol0. simpl. destruct (Z.eq_dec k0 k) as [->|Hne].
      - assert (col0 = col) as -> by congruence.
        exists (<[Z.to_nat r := x]> col).
        split; [apply (get_set_at_eq _ _ _ _ Hset2)|].
        split; [apply (len_set_at _ _ _ _ Hset1)|].
        intros j [?|Hj]; [done|]. by apply (get_set_at_ne _ _ _ _ _ Hset1).
      - exists col0. by rewrite (get_set_at_ne _ _ _ _ _ Hset2). }
    destruct (IH Hnodup m1 values) as
      (m' & Hstore & Hid & Hri & Hii & Hcap & Hsz & Hvals & Hframe); [|done|].
    { eapply Forall_impl; [exact Hks|]. intros k0 (col0 & Hcol0 & Hr0).
      destruct (Hstep k0 col0 Hcol0) as (col' & Hcol' & Hlen' & _).
      exists col'. split; [done | lia]. }
    exists m'. split.
    { simpl. rewrite Hcol. simpl. rewrite Hset1. simpl. rewrite Hset2. simpl.
      exact Hstore. }
    do 5 (split; [done|]). split.
    + constructor; [|done].
      destruct (Hframe k (<[Z.to_nat r := x]> col)) as (col' & Hcol' & _ & Hsame).
      { simpl. apply (get_set_at_eq _ _ _ _ Hset2). }
      exists col'. split; [done|]. rewrite Hsame by (by left).
      apply (get_set_at_eq _ _ _ _ Hset1).
    + intros k0 col0 Hcol0.
      destruct (Hstep k0 col0 Hcol0) as (col1 & Hcol1 & Hlen1 & Hkeep1).
      destruct (Hframe k0 col1 Hcol1) as (col' & Hcol' & Hlen' & Hkeep').
      exists col'. split; [done|]. split; [congruence|].
      intros j Hj. rewrite Hkeep', Hkeep1; [done | |].
      * destruct Hj as [Hj|Hj]; [|by right]. left. intros ->. apply Hj. left.
      * destruct Hj as [Hj|Hj]; [|by right]. left. intros Hin. apply Hj. by right.
Qed.

Lemma load_all m ks r :
  Forall (λ k, ∃ col, get_at (componentArrays m) k = Some col ∧ 0 ≤ r < len col) ks →
  ∃ values,
    mapM (load m) ((λ k, cell k r) <$> ks) = Some values ∧
    Forall2 (cell_value m r) ks values.
Proof.
  induction 1 as [|k ks (col & Hcol & Hr) _ (values & Hmap & Hvalues)].
  - exists []. split; [done | constructor].
  - destruct (get_at_is_Some col r Hr) as [x Hx].
    exists (x :: values). split.
    + rewrite fmap_cons, mapM_cons_option. simpl. rewrite Hcol. simpl.
      rewrite Hx. simpl. by rewrite Hmap.
    + constructor; [by exists col | done].
Qed.

(** The loop over the rows of a block, for a lambda that replaces the
    values of its components by [g] of them. *)
Lemma rows_updater g b ks m0 (n : nat) r0 fuel s1 m1 :
  (∀ values, length (g values) = length values) →
  NoDup ks →
  Forall (λ k, ∃ col, get_at (componentArrays m0) k = Some col ∧ size m0 ≤ len col) ks →
  size m0 < 65536 →
  get_at (managers s1) b = Some m1 →
  block_updated g ks r0 m0 m1 →
  0 ≤ r0 → size m0 - r0 = Z.of_nat n → (n < fuel)%nat →
  ∃ it' m2,
    World.EntityIterator.rows fuel (updater g) b ((λ k, cell k r0) <$> ks) s1
      (World.EntityIterator.mk (Some b) r0 false) tt
    = Some (mkState (pool s1) (<[Z.to_nat b := m2]> (managers s1)), it', tt) ∧
    World.EntityIterator.stop it' = false ∧
    block_updated g ks (size m0) m0 m2.
Proof.
  intros Hg Hnodup Hks Hsmall. revert r0 fuel s1 m1.
  induction n as [|n IH]; intros r0 fuel s1 m1 Hm1 Hupd Hr0 Hn Hfuel.
  - destruct fuel as [|fuel]; [lia|].
    exists (World.EntityIterator.mk (Some b) r0 false), m1.
    pose proof Hupd as (_ & _ & _ & _ & Hsize & _).
    split; [|split; [done|]].
    + simpl. rewrite Hm1. simpl.
      destruct (Z.ltb_spec r0 (size m1)); [lia|].
      apply get_at_Some in Hm1 as [_ Hm1]. rewrite (list_insert_id _ _ _ Hm1).
      by destruct s1.
    + replace (size m0) with r0 by lia. done.
  - destruct fuel as [|fuel]; [lia|].
    destruct Hupd as (Hid & Hri & Hii & Hcap & Hsize & Hcolumns & Hrows).
    assert (Hks1 : Forall (λ k, ∃ col, get_at (componentArrays m1) k = Some col ∧
                                       0 ≤ r0 < len col) ks).
    { eapply Forall_impl; [exact Hks|]. intros k (col & Hcol & Hlen).
      destruct (Hcolumns k col Hcol) as (col' & Hcol' & Hlen' & _).
      exists col'. split; [done | lia]. }
    destruct (load_all m1 ks r0 Hks1) as (values & Hload & Hvalues).
    assert (Hvalues0 : Forall2 (cell_value m0 r0) ks values).
    { apply Forall2_same_length_lookup in Hvalues as [Hlength Hvalues].
      apply Forall2_same_length_lookup. split; [done|].
      intros i k v Hk Hv'. destruct (Hvalues i k v Hk Hv') as (col1 & Hcol1 & Hv).
      apply list_elem_of_lookup_2 in Hk.
      destruct (proj1 (Forall_forall _ _) Hks k Hk) as (col & Hcol & _).
      destruct (Hcolumns k col Hcol) as (col' & Hcol' & _ & Hsame).
      assert (col' = col1) as -> by congruence.
      exists col. split; [done|]. rewrite <- Hsame; [done | right; lia]. }
    destruct (store_all_spec m1 ks r0 (g values) Hnodup Hks1)
      as (m1' & Hstore & Hid' & Hri' & Hii' & Hcap' & Hsize' & Hstored & Hframe).
    { rewrite Hg. symmetry. by eapply Forall2_length. }
    assert (Hupd' : block_updated g ks (r0 + 1) m0 m1').
    { do 5 (split; [congruence|]). split.
      - intros k col Hcol.
        destruct (Hcolumns k col Hcol) as (col1 & Hcol1 & Hlen1 & Hsame1).
        destruct (Hframe k col1 Hcol1) as (col1' & Hcol1' & Hlen1' & Hsame1').
        exists col1'. split; [done|]. split; [congruence|].
        intros j Hj. rewrite Hsame1', Hsame1; [done | |]; destruct Hj; (by left) || (right; lia).
      - intros r Hr. destruct (Z.eq_dec r r0) as [->|Hne]; [by exists values|].
        destruct (Hrows r ltac:(lia)) as (values_r & Hold & Hnew).
        exists values_r. split; [done|].
        eapply Forall2_impl; [exact Hnew|].
        intros k v (col1 & Hcol1 & Hv).
        destruct (Hframe k col1 Hcol1) as (col1' & Hcol1' & _ & Hsame1').
        exists col1'. split; [done|]. rewrite Hsame1'; [done | by right]. }
    destruct (IH (r0 + 1) fuel
                (mkState (pool s1) (<[Z.to_nat b := m1']> (managers s1))) m1')
      as (it' & m2 & Hrun & Hstop & Hupd2); [| done | lia | lia | lia |].
    { simpl. apply get_at_insert_eq. eapply get_at_lt. eassumption. }
    exists it', m2. split; [|done].
    simpl. rewrite Hm1. simpl.
    destruct (Z.ltb_spec r0 (size m1)); [|lia].
    rewrite Hload. simpl. rewrite Hstore. simpl.
    rewrite set_at_in_range by (eapply get_at_lt; eassumption). simpl.
    rewrite toIndex_small by lia. rewrite <- list_fmap_compose.
    simpl in Hrun. rewrite list_insert_insert_eq in Hrun. exact Hrun.
Qed.

Lemma block_updated_refl g ks m : block_updated g ks 0 m m.
Proof.
  do 5 (split; [done|]). split.
  - intros k col Hcol. by exists col.
  - intros r Hr. lia.
Qed.

(** The loop over the matched blocks, for a lambda that replaces the values
    of its components by [g] of them. *)
Lemma blocks_updater g Cs bs s1 it :
  (∀ values, length (g values) = length values) →
  NoDup bs →
  World.EntityIterator.stop it = false →
  Forall (λ b, ∃ m ks,
            get_at (managers s1) b = Some m ∧ columns_of m Cs ks ∧ NoDup ks ∧
            0 ≤ size m < 65536 ∧
            mapM (λ T, GetComponentArray m T 0) Cs = Some ((λ k, cell k 0) <$> ks)) bs →
  ∃ s2 it',
    foldM (World.EntityIterator.block (updater g) Cs) (s1, it, tt) bs
    = Some (s2, it', tt) ∧
    pool s2 = pool s1 ∧ len (managers s2) = len (managers s1) ∧
    (∀ b, b ∉ bs → get_at (managers s2) b = get_at (managers s1) b) ∧
    (∀ b, b ∈ bs →
       ∃ m ks m',
         get_at (managers s1) b = Some m ∧ columns_of m Cs ks ∧
         get_at (managers s2) b = Some m' ∧ block_updated g ks (size m) m m').
Proof.
  intros Hg Hnodup. revert s1 it.
  induction bs as [|b bs IH]; intros s1 it Hstop Hbs.
  - exists s1, it. simpl. split; [done|]. split; [done|]. split; [done|].
    split; [done|]. by intros b ?%elem_of_nil.
  - apply NoDup_cons in Hnodup as [Hfresh Hnodup].
    apply Forall_cons in Hbs as [(m & ks & Hm & Hks & Hksnodup & Hsize & Hmap) Hbs].
    destruct (rows_updater g b ks m (Z.to_nat (size m)) 0 (S (Z.to_nat (size m))) s1 m)
      as (it1 & m2 & Hrun & Hstop1 & Hupd); try done; try lia.
    { apply Forall_forall. intros k [i Hi]%list_elem_of_lookup_1.
      destruct (Forall2_lookup_r _ _ _ _ _ Hks Hi) as (T & _ & _ & _ & Hcol). done. }
    { apply block_updated_refl. }
    set (s1' := mkState (pool s1) (<[Z.to_nat b := m2]> (managers s1))) in *.
    assert (Hother : ∀ b', b' ≠ b → get_at (managers s1') b' = get_at (managers s1) b').
    { intros b' Hb'. simpl. apply get_at_insert_ne; [|done].
      apply get_at_lt in Hm. lia. }
    destruct (IH Hnodup s1' it1 Hstop1) as (s2 & it2 & Hrun2 & Hpool & Hlen & Hout & Hin).
    { apply Forall_forall. intros b' Hb'.
      destruct (proj1 (Forall_forall _ _) Hbs b' Hb') as (m' & ks' & Hm' & Hrest).
      exists m', ks'. rewrite Hother; [done|]. by intros ->. }
    exists s2, it2. split; [|split; [done|split; [|split]]].
    + assert (Hblock : World.EntityIterator.block (updater g) Cs (s1, it, ()) b
                       = Some (s1', it1, ())).
      { unfold World.EntityIterator.block. rewrite Hstop, Hm.
        cbn [mbind option_bind]. rewrite Hmap. cbn [mbind option_bind]. exact Hrun. }
      by rewrite foldM_cons, Hblock.
    + rewrite Hlen. simpl. by rewrite len_insert.
    + intros b' [Hne Hb']%not_elem_of_cons. rewrite Hout by done. by apply Hother.
    + intros b' [->|Hb']%elem_of_cons.
      * exists m, ks, m2. split; [done|]. split; [done|]. split; [|done].
        rewrite Hout by done. simpl. apply get_at_insert_eq.
        eapply get_at_lt. eassumption.
      * destruct (Hin b' Hb') as (m' & ks' & m'' & Hm' & Hrest).
        exists m', ks', m''. split; [|done]. rewrite <- Hother; [done|]. by intros ->.
Qed.

Lemma matched_members m Cs :
  Forall (λ T, 0 ≤ Component_Id T < 64) Cs →
  Contains m (Helper_id Cs) = true →
  Forall (λ T, Component_Id T ∈ EachComponent (id m)) Cs.
Proof.
  intros HCs Hcontains. apply Forall_forall. intros T HT.
  apply EachComponent_bit; [by apply (proj1 (Forall_forall _ _) HCs)|].
  apply (proj1 (Contains_Helper_id m Cs
           ltac:(eapply Forall_impl; [exact HCs|]; intros; simpl in *; lia))
           Hcontains T HT).
Qed.

Lemma columns_of_NoDup m n Cs ks :
  columns_ok m n →
  Forall (λ T, Component_Id T ∈ EachComponent (id m)) Cs →
  NoDup (Component_Id <$> Cs) →
  columns_of m Cs ks → NoDup ks.
Proof.
  intros Hcols HCs Hnodup Hks. apply NoDup_alt. intros i j k Hi Hj.
  destruct (Forall2_lookup_r _ _ _ _ _ Hks Hi) as (Ti & HTi & Hki & _).
  destruct (Forall2_lookup_r _ _ _ _ _ Hks Hj) as (Tj & HTj & Hkj & _).
  assert (Heq : Component_Id Ti = Component_Id Tj).
  { apply (columns_ok_inj m n _ _ k Hcols); try done.
    - apply (proj1 (Forall_forall _ _) HCs). by eapply list_elem_of_lookup_2.
    - apply (proj1 (Forall_forall _ _) HCs). by eapply list_elem_of_lookup_2. }
  apply (proj1 (NoDup_alt _) Hnodup i j (Component_Id Ti)).
  - by rewrite list_lookup_fmap, HTi.
  - by rewrite list_lookup_fmap, HTj, Heq.
Qed.

(** What a handle reads in a block whose columns are known. *)
Lemma reads_of_cells s h b r m Cs ks values :
  entity s h b r → recordIndex h ≠ InvalidIndex →
  get_at (managers s) b = Some m →
  columns_of m Cs ks →
  Forall2 (cell_value m r) ks values →
  Forall2 (λ T v, read s h T = Some v) Cs values.
Proof.
  intros (m' & Hm' & Hr & Hslot & Hrec) Hvalid Hm Hks Hvalues.
  apply Forall2_same_length_lookup in Hvalues as [Hlength Hvalues].
  apply Forall2_same_length_lookup. split.
  { apply Forall2_length in Hks. congruence. }
  intros i T v HT Hv.
  destruct (Forall2_lookup_l _ _ _ _ _ Hks HT) as (k & Hk & Hii & Hused & _).
  destruct (Hvalues i k v Hk Hv) as (col & Hcol & Hcell).
  by rewrite (read_spec s h T (EntityRecord.mk b r (version h)) m k col).
Qed.

(** X14: [Iterate(lambda)], in a state that is in order and with the cache
    of the query in step with the blocks, for a lambda that replaces the
    values of its components, of distinct types [Cs], by [g] of them.  The
    state stays in order and the slot table is left alone; every entity
    keeps its handle, block and row.  An entity of a block that has all the
    components of [Cs] reads [g] of its former values in them, and its
    former values in its other components; the entities of the other blocks
    read what they read before. *)
Theorem Iterate_updates_matching_rows g s c it Cs :
  Cs ≠ [] →
  state_ok s →
  cache_inv (Helper_id Cs) (managers s, c) →
  Forall (λ T, 0 ≤ Component_Id T < 64) Cs →
  NoDup (Component_Id <$> Cs) →
  (∀ values, length (g values) = length values) →
  ∃ s' it',
    World.EntityIterator.Iterate (updater g) Cs s c it tt
    = Some (s', Update Cs (managers s) c, it', tt) ∧
    state_ok s' ∧ pool s' = pool s ∧
    ∀ h b r m,
      entity s h b r → get_at (managers s) b = Some m →
      entity s' h b r ∧
      (Contains m (Helper_id Cs) = true →
       ∃ values,
         Forall2 (λ T v, read s h T = Some v) Cs values ∧
         Forall2 (λ T v, read s' h T = Some v) Cs (g values)) ∧
      (∀ T, Component_Id T ∈ EachComponent (id m) →
            Contains m (Helper_id Cs) = false ∨
            Component_Id T ∉ Component_Id <$> Cs →
            read s' h T = read s h T).
Proof.
  intros _ Hstate Hcache HCs Hnodup Hg.
  pose proof Hstate as (Hpool & Hlen & Hblocks).
  unfold World.EntityIterator.Iterate.
  assert (Hmatched : matchedIndices (Update Cs (managers s) c)
                     = matching (Helper_id Cs) (managers s)).
  { rewrite Update_signature, (Update_with_inv _ _ _ Hcache). simpl.
    apply matching_from_toIndex; lia. }
  rewrite Hmatched.
  assert (Hmatch : ∀ b, b ∈ matching (Helper_id Cs) (managers s) ↔
            ∃ m, get_at (managers s) b = Some m ∧ Contains m (Helper_id Cs) = true).
  { intros b. unfold matching. rewrite matching_from_elem. unfold Contains.
    split.
    - intros (_ & m & Hm & Htest). rewrite Z.sub_0_r in Hm. exists m.
      split; [done | by apply Z.eqb_eq].
    - intros (m & Hm & Htest%Z.eqb_eq). pose proof (get_at_lt _ _ _ Hm).
      split; [lia|]. exists m. by rewrite Z.sub_0_r. }
  destruct (blocks_updater g Cs (matching (Helper_id Cs) (managers s)) s
              (World.EntityIterator.mk (World.EntityIterator.currentManager it)
                 (World.EntityIterator.currentRow it) false) Hg)
    as (s' & it' & Hrun & Hpool' & Hlen' & Hout & Hin); [| done | |].
  { apply StronglySorted_lt_NoDup, matching_from_sorted. }
  { apply Forall_forall. intros b (m & Hm & Hcontains)%Hmatch.
    pose proof (Hblocks b m Hm) as Hblock.
    destruct (matched_columns (pool s) b m Cs Hblock HCs Hcontains) as (ks & Hks & Hmap).
    destruct Hblock as (Hsize & Hcap & _ & Hcols & _).
    exists m, ks. split; [done|]. split; [done|]. split; [|split; [lia | done]].
    apply (columns_of_NoDup m _ Cs ks Hcols); [|done..].
    by apply matched_members. }
  rewrite Hrun. cbn [mbind option_bind]. eexists _, _. split; [reflexivity|].
  (* the blocks afterwards *)
  assert (Hafter : ∀ b m, get_at (managers s) b = Some m →
            ∃ m', get_at (managers s') b = Some m' ∧
                  id m' = id m ∧ recordIndices m' = recordIndices m ∧
                  internalIndex m' = internalIndex m ∧
                  capacity m' = capacity m ∧ size m' = size m ∧
                  (∀ k col, get_at (componentArrays m) k = Some col →
                     ∃ col', get_at (componentArrays m') k = Some col' ∧
                             len col' = len col) ∧
                  (Contains m (Helper_id Cs) = false → m' = m)).
  { intros b m Hm. destruct (Contains m (Helper_id Cs)) eqn:Hcontains.
    - destruct (Hin b) as (m0 & ks & m' & Hm0 & Hks & Hm' & Hupd);
        [apply Hmatch; by exists m|].
      assert (m0 = m) as -> by congruence.
      destruct Hupd as (? & ? & ? & ? & ? & Hcolumns & _).
      exists m'. do 6 (split; [done|]). split; [|done].
      intros k col Hcol. destruct (Hcolumns k col Hcol) as (col' & ? & ? & _).
      by exists col'.
    - exists m. rewrite Hout.
      + do 6 (split; [done|]). split; [|done]. intros k col Hcol. by exists col.
      + intros (m0 & Hm0 & Hcontains0)%Hmatch. congruence. }
  split; [|split; [done|]].
  - split; [by rewrite Hpool'|]. split; [lia|].
    intros b m' Hm'. rewrite Hpool'.
    destruct (get_at_is_Some (managers s) b) as [m Hm];
      [apply get_at_lt in Hm'; lia|].
    destruct (Hafter b m Hm) as (m'' & Hm'' & Hid & Hri & Hii & Hcap & Hsize & Hcolumns & _).
    assert (m'' = m') as -> by congruence.
    destruct (Hblocks b m Hm) as (? & ? & ? & Hcols & Hrows).
    split; [lia|]. split; [lia|]. split; [congruence|]. split.
    + destruct m' as [id' ri' arrays' ii' cap' size']. simpl in *. subst.
      apply columns_ok_update; [done|]. intros k col Hcol.
      destruct (Hcolumns k col Hcol) as (col' & Hcol' & Hlencol).
      exists col'. split; [done | lia].
    + rewrite Hsize, Hri. exact Hrows.
  - intros h b r m Hentity Hm.
    pose proof Hentity as (m0 & Hm0 & Hr & Hslot & Hrec).
    assert (m0 = m) as -> by congruence.
    destruct (Hblocks b m Hm) as (_ & _ & _ & Hcols & Hrows).
    destruct (Hrows r Hr) as (i & v & Hi & _ & Hsmall & _).
    assert (i = recordIndex h) as -> by congruence.
    assert (Hvalid : recordIndex h ≠ InvalidIndex) by (unfold InvalidIndex; lia).
    destruct (Hafter b m Hm) as (m' & Hm' & Hid & Hri & Hii & Hcap & Hsize & _ & Hsame).
    assert (Hentity' : entity s' h b r).
    { exists m'. rewrite Hsize, Hri, Hpool'. done. }
    split; [done|]. split.
    + intros Hcontains.
      destruct (Hin b) as (m0 & ks & m'' & Hm0' & Hks & Hm'' & Hupd);
        [apply Hmatch; by exists m|].
      assert (m0 = m) as -> by congruence. assert (m'' = m') as -> by congruence.
      destruct Hupd as (_ & _ & _ & _ & _ & Hcolumns & Hcells).
      destruct (Hcells r Hr) as (values & Hold & Hnew).
      exists values. split.
      * by apply (reads_of_cells s h b r m Cs ks).
      * apply (reads_of_cells s' h b r m' Cs ks); try done.
        eapply Forall2_impl; [exact Hks|].
        intros T k (Hk & Hused & col & Hcol & Hlencol).
        rewrite Hii. split; [done|]. split; [done|].
        destruct (Hcolumns k col Hcol) as (col' & Hcol' & Hlencol' & _).
        exists col'. split; [done | lia].
    + intros T HT Hwhich.
      destruct (columns_ok_lookup m _ T Hcols HT) as (k & col & Hk & Hused & Hcol & _).
      rewrite (read_spec s h T (EntityRecord.mk b r (version h)) m k col) by done.
      destruct (Contains m (Helper_id Cs)) eqn:Hcontains.
      * destruct Hwhich as [|Hnotin]; [done|].
        destruct (Hin b) as (m0 & ks & m'' & Hm0' & Hks & Hm'' & Hupd);
          [apply Hmatch; by exists m|].
        assert (m0 = m) as -> by congruence. assert (m'' = m') as -> by congruence.
        destruct Hupd as (_ & _ & _ & _ & _ & Hcolumns & _).
        destruct (Hcolumns k col Hcol) as (col' & Hcol' & _ & Hkeep).
        rewrite (read_spec s' h T (EntityRecord.mk b r (version h)) m' k col');
          try done; try congruence.
        apply Hkeep. left. intros [i Hi']%list_elem_of_lookup_1.
        destruct (Forall2_lookup_r _ _ _ _ _ Hks Hi') as (T' & HT' & Hk' & _).
        apply Hnotin. apply list_elem_of_fmap. exists T'.
        split; [|by eapply list_elem_of_lookup_2].
        apply (columns_ok_inj m _ _ _ k Hcols); try done.
        apply (proj1 (Forall_forall _ _) (matched_members m Cs HCs Hcontains)).
        by eapply list_elem_of_lookup_2.
      * rewrite (Hsame eq_refl) in Hm'.
        rewrite (read_spec s' h T (EntityRecord.mk b r (version h)) m k col);
          try done; congruence.
Qed.

Lemma Iterate_updates_matching_rows_witness :
  ∃ s' it',
    World.EntityIterator.Iterate (updater (map (Z.add 1))) [Examples.Velocity]
      Examples.state3 emptyCache World.EntityIterator.initial tt
    = Some (s', Update [Examples.Velocity] (managers Examples.state3) emptyCache,
            it', tt) ∧
    state_ok s' ∧ pool s' = pool Examples.state3.
Proof.
  destruct (Iterate_updates_matching_rows (map (Z.add 1)) Examples.state3 emptyCache
              World.EntityIterator.initial [Examples.Velocity])
    as (s' & it' & Hrun & Hok & Hpool & _).
  - done.
  - apply state_ok_state3.
  - split; [vm_compute; split; congruence | reflexivity].
  - repeat constructor; vm_compute; congruence.
  - apply NoDup_singleton.
  - intros values. apply length_map.
  - by exists s', it'.
Defined.

End Updating.

(** ** Further properties of single operations *)
Section Operations.
Import Component ArchetypeManager EntityReference Invariants Queries.

(** X15: [CreateEntity<Ts...>()], under the conditions of
    [CreateEntity(lambda)]: the state stays in order; the handle returned is
    the one of a new row in a block with the signature of [Ts]; no record
    changes its generation; every entity there was keeps its handle, its
    block and row, and the values of its components. *)
Theorem CreateEntity_default_adds_entity alloc_ok s Ts :
  Ts ≠ [] →
  (∀ n, alloc_ok n = true) →
  state_ok s →
  EntityRecord.last (pool s) < 65535 →
  len (managers s) < 65536 →
  Forall (λ m, grow (capacity m) < 65536) (managers s) →
  Forall (λ T, 0 ≤ Component_Id T < 64) Ts →
  NoDup (Component_Id <$> Ts) →
  ∃ s' h a row,
    World.CreateEntity alloc_ok s Ts = Returns (s', h) ∧
    state_ok s' ∧
    entity s' h a row ∧
    (∃ m', get_at (managers s') a = Some m' ∧ id m' = Helper_id Ts) ∧
    (∀ j r, get_at (EntityRecord.records (pool s)) j = Some r →
            ∃ r', get_at (EntityRecord.records (pool s')) j = Some r' ∧
                  EntityRecord.version r' = EntityRecord.version r) ∧
    (∀ h0 a0 row0,
       entity s h0 a0 row0 →
       h0 ≠ h ∧ entity s' h0 a0 row0 ∧
       ∀ m0 T, get_at (managers s) a0 = Some m0 →
               Component_Id T ∈ EachComponent (id m0) →
               read s' h0 T = read s h0 T).
Proof.
  intros _ Hok Hstate Hlast Hlen Hgrow HTs Hnodup.
  destruct (CreateEntity_with_spec alloc_ok s Ts [])
    as (s' & h & a & row & _ & Hrun & Hok' & Hentity & Hblock & _ & Hrest);
    try done; [simpl; lia|].
  exists s', h, a, row. split; [by apply Hrun|]. done.
Qed.

Lemma CreateEntity_default_adds_entity_witness :
  ∃ s' h a row,
    World.CreateEntity Examples.always Examples.state3 [Examples.Health]
    = Returns (s', h) ∧
    state_ok s' ∧ entity s' h a row ∧ entity s' Examples.e1 0 1.
Proof.
  destruct (CreateEntity_default_adds_entity Examples.always Examples.state3
              [Examples.Health])
    as (s' & h & a & row & Hrun & Hok & Hentity & _ & _ & Hframe).
  - done.
  - reflexivity.
  - apply state_ok_state3.
  - vm_compute. reflexivity.
  - vm_compute. reflexivity.
  - repeat constructor.
  - repeat constructor; vm_compute; congruence.
  - apply NoDup_singleton.
  - exists s', h, a, row. split; [done|]. split; [done|]. split; [done|].
    apply Hframe. exists Examples.block3. repeat split; reflexivity || (simpl; lia).
Defined.

(** The cells after [MoveElement]. *)
Lemma MoveElement_spec mem dstArray dstPos srcArray srcPos dst x :
  get_at mem dstArray = Some dst → 0 ≤ dstPos < len dst →
  cell_at mem srcArray srcPos = Some x →
  ∃ mem',
    MoveElement mem dstArray dstPos srcArray srcPos = Some mem' ∧
    len mem' = len mem ∧
    (∀ a col, get_at mem a = Some col →
              ∃ col', get_at mem' a = Some col' ∧ len col' = len col) ∧
    ∀ a p,
      cell_at mem' a p
      = if decide (a = srcArray ∧ p = srcPos) then Some DefaultValue
        else if decide (a = dstArray ∧ p = dstPos) then Some x
        else cell_at mem a p.
Proof.
  intros Hdst Hpos Hx. unfold cell_at in Hx.
  destruct (get_at mem srcArray) as [src|] eqn:Hsrc; [|done]. simpl in Hx.
  unfold MoveElement. rewrite Hsrc. simpl. rewrite Hx. simpl. rewrite Hdst. simpl.
  pose proof (set_at_in_range dst dstPos x Hpos) as Hset1. rewrite Hset1. simpl.
  pose proof (set_at_in_range mem dstArray (<[Z.to_nat dstPos := x]> dst)
                (get_at_lt _ _ _ Hdst)) as Hset2.
  rewrite Hset2. simpl.
  set (mem1 := <[Z.to_nat dstArray := <[Z.to_nat dstPos := x]> dst]> mem) in *.
  assert (Hsrc1 : ∃ src1, get_at mem1 srcArray = Some src1 ∧ len src1 = len src ∧
            ∀ p, get_at src1 p
                 = if decide (srcArray = dstArray ∧ p = dstPos) then Some x
                   else get_at src p).
  { destruct (Z.eq_dec srcArray dstArray) as [->|Hne].
    - assert (src = dst) as -> by congruence.
      exists (<[Z.to_nat dstPos := x]> dst).
      split; [apply (get_set_at_eq _ _ _ _ Hset2)|].
      split; [apply (len_set_at _ _ _ _ Hset1)|].
      intros p. destruct (decide _) as [[_ ->]|Hp].
      + apply (get_set_at_eq _ _ _ _ Hset1).
      + apply (get_set_at_ne _ _ _ _ _ Hset1). intros ->. by apply Hp.
    - exists src. rewrite (get_set_at_ne _ _ _ _ _ Hset2) by done.
      split; [done|]. split; [done|]. intros p.
      destruct (decide _) as [[? _]|_]; [done | done]. }
  destruct Hsrc1 as (src1 & Hsrc1 & Hlen1 & Hcells1).
  rewrite Hsrc1. simpl.
  pose proof (get_at_lt _ _ _ Hx) as Hsp.
  pose proof (set_at_in_range src1 srcPos DefaultValue ltac:(lia)) as Hset3.
  rewrite Hset3. simpl.
  pose proof (set_at_in_range mem1 srcArray (<[Z.to_nat srcPos := DefaultValue]> src1)
                (get_at_lt _ _ _ Hsrc1)) as Hset4.
  rewrite Hset4. eexists. split; [reflexivity|].
  split; [by rewrite len_insert, (len_set_at _ _ _ _ Hset2)|].
  split.
  { intros a col Hcol. destruct (Z.eq_dec a srcArray) as [->|Hna].
    - rewrite (get_set_at_eq _ _ _ _ Hset4). eexists. split; [done|].
      rewrite len_insert, Hlen1. congruence.
    - rewrite (get_set_at_ne _ _ _ _ _ Hset4) by done.
      destruct (Z.eq_dec a dstArray) as [->|Hnd].
      + rewrite (get_set_at_eq _ _ _ _ Hset2). eexists. split; [done|].
        rewrite len_insert. congruence.
      + rewrite (get_set_at_ne _ _ _ _ _ Hset2) by done. by exists col. }
  intros a p. unfold cell_at.
  destruct (Z.eq_dec a srcArray) as [->|Hna].
  - rewrite (get_set_at_eq _ _ _ _ Hset4). simpl.
    destruct (Z.eq_dec p srcPos) as [->|Hnp].
    + rewrite (get_set_at_eq _ _ _ _ Hset3).
      destruct (decide _) as [_|Hno]; [done | by destruct Hno].
    + rewrite (get_set_at_ne _ _ _ _ _ Hset3) by done. rewrite Hcells1, Hsrc. simpl.
      destruct (decide (srcArray = srcArray ∧ p = srcPos)) as [[_ ?]|_]; done.
  - rewrite (get_set_at_ne _ _ _ _ _ Hset4) by done.
    destruct (decide (a = srcArray ∧ p = srcPos)) as [[? _]|_]; [done|].
    destruct (Z.eq_dec a dstArray) as [->|Hnd].
    + rewrite (get_set_at_eq _ _ _ _ Hset2), Hdst. simpl.
      destruct (decide (dstArray = dstArray ∧ p = dstPos)) as [[_ ->]|Hp].
      * apply (get_set_at_eq _ _ _ _ Hset1).
      * apply (get_set_at_ne _ _ _ _ _ Hset1). intros ->. by apply Hp.
    + rewrite (get_set_at_ne _ _ _ _ _ Hset2) by done.
      destruct (decide (a = dstArray ∧ p = dstPos)) as [[? _]|_]; done.
Qed.

(** X16: [MoveElement] leaves the value of the source cell in the
    destination cell and the default value in the source cell, and no other
    cell is touched; when source and destination are the same cell, the
    value is lost and the cell holds the default value. *)
Theorem MoveElement_cells mem dstArray dstPos srcArray srcPos dst x :
  get_at mem dstArray = Some dst → 0 ≤ dstPos < len dst →
  cell_at mem srcArray srcPos = Some x →
  ∃ mem',
    MoveElement mem dstArray dstPos srcArray srcPos = Some mem' ∧
    ∀ a p,
      cell_at mem' a p
      = if decide (a = srcArray ∧ p = srcPos) then Some DefaultValue
        else if decide (a = dstArray ∧ p = dstPos) then Some x
        else cell_at mem a p.
Proof.
  intros Hdst Hpos Hx.
  destruct (MoveElement_spec mem dstArray dstPos srcArray srcPos dst x Hdst Hpos Hx)
    as (mem' & Hrun & _ & _ & Hcells).
  by exists mem'.
Qed.

Lemma MoveElement_cells_witness :
  ∃ mem',
    MoveElement [[10; 11; 12]] 0 1 0 1 = Some mem' ∧
    cell_at mem' 0 1 = Some DefaultValue.
Proof.
  destruct (MoveElement_cells [[10; 11; 12]] 0 1 0 1 [10; 11; 12] 11)
    as (mem' & Hrun & Hcells).
  - reflexivity.
  - vm_compute. split; congruence.
  - reflexivity.
  - exists mem'. split; [done|]. by rewrite Hcells.
Defined.

(** X17: [GetComponent<T>(row)] on a block as constructed, for a type
    numbered below 64.  When the block has the component, the result is the
    cell [row] of the column of the component, which is the column
    [GetComponentArray<T>()] returns, and never null; when it does not, the
    result is null for the component numbered 0 and the cell [row] of the
    first column for any other. *)
Theorem GetComponent_by_signature newId T row :
  0 < newId < 2 ^ 64 → 0 ≤ Component_Id T < 64 →
  let m := construct newId in
  (Contains m (IdBinary T) = true →
   ∃ j, EachComponent newId !! j = Some (Component_Id T) ∧
        GetComponent m T row = Some (cell (Z.of_nat j) row) ∧
        GetComponentArray m T row = Some (cell (Z.of_nat j) row)) ∧
  (Contains m (IdBinary T) = false →
   GetComponent m T row
   = Some (if Component_Id T =? 0 then nullptr else cell 0 row)).
Proof.
  intros Hid HT m. split; [|by apply GetComponent_absent].
  intros Hcontains.
  destruct (construct_spec newId ltac:(lia))
    as (Hidm & _ & _ & _ & Harrays & Hnumbers & _).
  fold m in Hidm, Harrays, Hnumbers.
  assert (Hbit : Z.testbit newId (Component_Id T) = true).
  { unfold Contains in Hcontains. apply Z.eqb_eq in Hcontains.
    rewrite Hidm in Hcontains.
    assert (Hb : Z.testbit (IdBinary T) (Component_Id T) = true)
      by (apply IdBinary_bit; lia).
    rewrite <- Hcontains, Z.land_spec in Hb. by apply andb_true_iff in Hb as [? _]. }
  destruct (list_elem_of_lookup_1 _ _ (EachComponent_bit newId _ HT Hbit)) as [j Hj].
  pose proof (lookup_lt_Some _ _ _ Hj) as Hjlt.
  pose proof (EachComponent_loop_length 64 newId 0) as Hlen.
  fold (EachComponent newId) in Hlen.
  assert (Hcol : get_at (componentArrays m) (Z.of_nat j) = Some []).
  { rewrite Harrays. apply get_at_Some. split; [lia|]. unfold fresh, len.
    rewrite !Nat2Z.id. by apply lookup_replicate_2. }
  exists j. split; [done|].
  unfold GetComponent, GetComponentArray. rewrite (Hnumbers j _ Hj). simpl.
  rewrite Hcol. simpl.
  destruct (Z.eqb_spec (Z.of_nat j) Unused) as [Heq|_]; [unfold Unused in Heq; lia|].
  done.
Qed.

Lemma GetComponent_by_signature_witness :
  let m := construct 5 in
  (Contains m (IdBinary Examples.Health) = true →
   ∃ j, EachComponent 5 !! j = Some (Component_Id Examples.Health) ∧
        GetComponent m Examples.Health 0 = Some (cell (Z.of_nat j) 0) ∧
        GetComponentArray m Examples.Health 0 = Some (cell (Z.of_nat j) 0)) ∧
  (Contains m (IdBinary Examples.Health) = false →
   GetComponent m Examples.Health 0
   = Some (if Component_Id Examples.Health =? 0 then nullptr else cell 0 0)).
Proof.
  apply (GetComponent_by_signature 5 Examples.Health 0);
    vm_compute; split; congruence.
Defined.

(** X18: [Update()] only appends to the matched indices, leaves a cache
    alone that has seen all the blocks, moves the cursor of any other cache
    to the number of blocks, and does nothing when called again with the
    same blocks. *)
Theorem Update_again Ts managers c :
  0 ≤ lastIndexChecked c →
  let c' := Update Ts managers c in
  (∃ new, matchedIndices c' = matchedIndices c ++ new) ∧
  (len managers ≤ lastIndexChecked c → c' = c) ∧
  (lastIndexChecked c ≤ len managers → lastIndexChecked c' = len managers) ∧
  Update Ts managers c' = c'.
Proof.
  intros Hc c'. unfold c', Update, Update_with.
  destruct (Z.ltb_spec (lastIndexChecked c) (len managers)) as [Hlt|Hge].
  - rewrite Update_loop_spec. simpl.
    assert (Hlen : lastIndexChecked c
                   + len (drop (Z.to_nat (lastIndexChecked c)) managers)
                   = len managers).
    { unfold len in *. rewrite length_drop. lia. }
    rewrite Hlen. split; [by eexists|]. split; [lia|]. split; [done|].
    by rewrite Z.ltb_irrefl.
  - split; [exists []; by rewrite app_nil_r|]. split; [done|]. split; [lia|].
    destruct (Z.ltb_spec (lastIndexChecked c) (len managers)); [lia | done].
Qed.

Lemma Update_again_witness :
  let c' := Update [Examples.Position] [Examples.block3] emptyCache in
  (∃ new, matchedIndices c' = matchedIndices emptyCache ++ new) ∧
  (len [Examples.block3] ≤ lastIndexChecked emptyCache → c' = emptyCache) ∧
  (lastIndexChecked emptyCache ≤ len [Examples.block3] →
   lastIndexChecked c' = len [Examples.block3]) ∧
  Update [Examples.Position] [Examples.block3] c' = c'.
Proof. apply Update_again. simpl. lia. Defined.

End Operations.

(** ** Moving an entity to another block *)
Section Migration.
Import Component ArchetypeManager EntityReference Invariants Queries.

Lemma EachComponent_loop_sound n id' c0 x :
  x ∈ EachComponent_loop n id' c0 →
  c0 ≤ x < c0 + Z.of_nat n ∧ Z.testbit id' (x - c0) = true.
Proof.
  revert id' c0; induction n as [|n IH]; intros id' c0; simpl;
    [by intros ?%elem_of_nil|].
  assert (Hbit0 : Z.land 1 id' = Z.b2z (Z.testbit id' 0)).
  { rewrite Z.land_comm. change 1 with (Z.ones 1).
    rewrite Z.land_ones by lia. change (2 ^ 1) with 2.
    by rewrite Z.bit0_mod. }
  intros [Hhere|Hrest]%elem_of_app.
  - destruct (Z.eqb_spec (Z.land 1 id') 0) as [|Hone];
      [by apply elem_of_nil in Hhere|].
    apply list_elem_of_singleton in Hhere as ->. split; [lia|].
    rewrite Z.sub_diag. destruct (Z.testbit id' 0); [done|]. by rewrite Hbit0 in Hone.
  - destruct (Z.eqb_spec (Z.shiftr id' 1) 0) as [|Hnz];
      [by apply elem_of_nil in Hrest|].
    apply IH in Hrest as [Hx Hbit]. split; [lia|].
    rewrite Z.shiftr_spec in Hbit by lia. rewrite <- Hbit. f_equal. lia.
Qed.

(** The components [EachCommonComponent] visits are in both signatures. *)
Lemma EachCommonComponent_elem idA idB c :
  c ∈ EachCommonComponent idA idB →
  c ∈ EachComponent idA ∧ c ∈ EachComponent idB.
Proof.
  unfold EachCommonComponent. rewrite EachCommonComponent_loop_land.
  intros [Hc Hbit]%EachComponent_loop_sound.
  rewrite Z.sub_0_r, Z.land_spec in Hbit. apply andb_true_iff in Hbit as [HA HB].
  split; apply EachComponent_bit; (done || lia).
Qed.

Lemma EachCommonComponent_intro idA idB c :
  c ∈ EachComponent idA → c ∈ EachComponent idB →
  c ∈ EachCommonComponent idA idB.
Proof.
  intros [Hc HA]%EachComponent_loop_sound [_ HB]%EachComponent_loop_sound.
  unfold EachCommonComponent. rewrite EachCommonComponent_loop_land.
  rewrite Z.sub_0_r in HA, HB. apply (EachComponent_bit (Z.land idA idB) c); [lia|].
  by rewrite Z.land_spec, HA, HB.
Qed.

Lemma EachCommonComponent_NoDup idA idB : NoDup (EachCommonComponent idA idB).
Proof.
  unfold EachCommonComponent. rewrite EachCommonComponent_loop_land.
  apply StronglySorted_lt_NoDup, EachComponent_loop_sorted.
Qed.

Lemma get_at_app_r {A} (l k : list A) i :
  0 ≤ i → get_at (l ++ k) (len l + i) = get_at k i.
Proof.
  intros Hi. unfold get_at, len.
  destruct (Z.leb_spec 0 (Z.of_nat (length l) + i)); [|lia].
  destruct (Z.leb_spec 0 i); [|lia].
  rewrite lookup_app_r by lia. f_equal. lia.
Qed.

Lemma get_at_drop {A} (l : list A) (n : nat) i :
  get_at (drop n l) i = if 0 <=? i then get_at l (Z.of_nat n + i) else None.
Proof.
  unfold get_at. destruct (Z.leb_spec 0 i); [|done].
  destruct (Z.leb_spec 0 (Z.of_nat n + i)); [|lia].
  rewrite lookup_drop. f_equal. lia.
Qed.

Lemma get_at_take_len {A} (l : list A) (n : nat) i :
  get_at (take n l) i = if i <? Z.of_nat n then get_at l i else None.
Proof.
  unfold get_at. destruct (Z.leb_spec 0 i).
  - destruct (Z.ltb_spec i (Z.of_nat n)).
    + apply lookup_take_lt. lia.
    + apply lookup_take_ge. lia.
  - by destruct (i <? Z.of_nat n).
Qed.

(** What a handle reads, as a cell of its block. *)
Lemma read_cell s h T b r m k col :
  entity s h b r → recordIndex h ≠ InvalidIndex →
  get_at (managers s) b = Some m →
  get_at (internalIndex m) (Component_Id T) = Some k → k ≠ Unused →
  get_at (componentArrays m) k = Some col →
  read s h T = cell_at (componentArrays m) k r.
Proof.
  intros (m' & Hm' & Hr & Hslot & Hrec) Hvalid Hm Hk Hused Hcol.
  rewrite (read_spec s h T (EntityRecord.mk b r (version h)) m k col) by done.
  unfold cell_at. by rewrite Hcol.
Qed.

(** A state stays in order when only the cells of its columns change. *)
Lemma state_ok_cells s s' :
  state_ok s → pool s' = pool s → len (managers s') = len (managers s) →
  (∀ b m, get_at (managers s) b = Some m →
     ∃ m', get_at (managers s') b = Some m' ∧
           id m' = id m ∧ recordIndices m' = recordIndices m ∧
           internalIndex m' = internalIndex m ∧
           capacity m' = capacity m ∧ size m' = size m ∧
           ∀ k col, get_at (componentArrays m) k = Some col →
             ∃ col', get_at (componentArrays m') k = Some col' ∧ len col' = len col) →
  state_ok s'.
Proof.
  intros (Hpool & Hlen & Hblocks) Hpool' Hlen' Hshape.
  split; [by rewrite Hpool'|]. split; [lia|].
  intros b m' Hm'. rewrite Hpool'.
  destruct (get_at_is_Some (managers s) b) as [m Hm];
    [apply get_at_lt in Hm'; lia|].
  destruct (Hshape b m Hm) as (m'' & Hm'' & Hid & Hri & Hii & Hcap & Hsize & Hcolumns).
  assert (m'' = m') as -> by congruence.
  destruct (Hblocks b m Hm) as (? & ? & ? & Hcols & Hrows).
  split; [lia|]. split; [lia|]. split; [congruence|]. split.
  - destruct m' as [id' ri' arrays' ii' cap' size']. simpl in *. subst.
    apply columns_ok_update; [done|]. intros k col Hcol.
    destruct (Hcolumns k col Hcol) as (col' & Hcol' & Hlencol).
    exists col'. split; [done | lia].
  - rewrite Hsize, Hri. exact Hrows.
Qed.

Lemma Destroy_RemoveRow s h a r s' h1 :
  entity s h a r → recordIndex h ≠ InvalidIndex →
  Destroy s h = Some (s', h1) → RemoveRow s a r = Some s'.
Proof.
  intros (m & Hm & Hr & Hslot & Hrec) Hvalid. unfold Destroy.
  destruct (Z.eqb_spec (recordIndex h) InvalidIndex); [done|]. simpl.
  rewrite Hrec. simpl. rewrite Z.eqb_refl.
  destruct (RemoveRow s a r); simpl; congruence.
Qed.

(** One step of the [EachCommonComponent] call of [MoveEntity], between two
    different blocks. *)
Lemma moveCommon_spec ms this source row sourceRow c dst src kd ks cold x :
  this ≠ source →
  get_at ms this = Some dst → get_at ms source = Some src →
  get_at (internalIndex dst) c = Some kd → get_at (internalIndex src) c = Some ks →
  get_at (componentArrays dst) kd = Some cold → 0 ≤ row < len cold →
  cell_at (componentArrays src) ks sourceRow = Some x →
  ∃ arraysd arrayss,
    moveCommon ms this source row sourceRow c
    = Some (<[Z.to_nat source :=
                ArchetypeManager.mk (id src) (recordIndices src) arrayss
                  (internalIndex src) (capacity src) (size src)]>
              (<[Z.to_nat this :=
                   ArchetypeManager.mk (id dst) (recordIndices dst) arraysd
                     (internalIndex dst) (capacity dst) (size dst)]> ms)) ∧
    (∀ k col, get_at (componentArrays dst) k = Some col →
              ∃ col', get_at arraysd k = Some col' ∧ len col' = len col) ∧
    (∀ k col, get_at (componentArrays src) k = Some col →
              ∃ col', get_at arrayss k = Some col' ∧ len col' = len col) ∧
    (∀ k p, cell_at arraysd k p
            = if decide (k = kd ∧ p = row) then Some x
              else cell_at (componentArrays dst) k p) ∧
    (∀ k p, cell_at arrayss k p
            = if decide (k = ks ∧ p = sourceRow) then Some DefaultValue
              else cell_at (componentArrays src) k p).
Proof.
  intros Hne Hdst Hsrc Hkd Hks Hcold Hrow Hx.
  assert (Hcols : ∃ cols, get_at (componentArrays src) ks = Some cols).
  { unfold cell_at in Hx. destruct (get_at (componentArrays src) ks); [by eexists | done]. }
  destruct Hcols as [cols Hcols].
  pose proof (get_at_lt _ _ _ Hcold) as Hkdr.
  pose proof (get_at_lt _ _ _ Hcols) as Hksr.
  set (n := length (componentArrays dst)).
  assert (Hn : len (componentArrays dst) = Z.of_nat n) by done.
  set (mem := componentArrays dst ++ componentArrays src).
  assert (Hmemd : ∀ k, k < Z.of_nat n → get_at mem k = get_at (componentArrays dst) k).
  { intros k Hk. apply get_at_app_l. lia. }
  assert (Hmems : ∀ k, 0 ≤ k → get_at mem (Z.of_nat n + k) = get_at (componentArrays src) k).
  { intros k Hk. rewrite <- Hn. by apply get_at_app_r. }
  destruct (MoveElement_spec mem kd row (Z.of_nat n + ks) sourceRow cold x)
    as (mem' & Hmove & Hlen & Hcolumns & Hcells); [by rewrite Hmemd by lia | done | |].
  { unfold cell_at. rewrite Hmems by lia. exact Hx. }
  exists (take n mem'), (drop n mem'). split; [|split; [|split; [|split]]].
  - unfold moveCommon. rewrite Hdst. simpl. rewrite Hsrc. simpl. rewrite Hkd. simpl.
    rewrite Hks. simpl. destruct (Z.eqb_spec this source); [done|].
    rewrite Hcold. simpl. rewrite Hcols. simpl. rewrite Hn. fold mem n.
    rewrite Hmove. simpl.
    rewrite set_at_in_range by (eapply get_at_lt; eassumption). simpl.
    rewrite set_at_in_range; [done|]. rewrite len_insert.
    eapply get_at_lt; eassumption.
  - intros k col Hcol. pose proof (get_at_lt _ _ _ Hcol) as Hk.
    destruct (Hcolumns k col) as (col' & Hcol' & Hlen'); [by rewrite Hmemd by lia|].
    exists col'. split; [|done]. rewrite get_at_take_len.
    destruct (Z.ltb_spec k (Z.of_nat n)); [done | lia].
  - intros k col Hcol. pose proof (get_at_lt _ _ _ Hcol) as Hk.
    destruct (Hcolumns (Z.of_nat n + k) col) as (col' & Hcol' & Hlen');
      [by rewrite Hmems by lia|].
    exists col'. split; [|done]. rewrite get_at_drop.
    destruct (Z.leb_spec 0 k); [done | lia].
  - intros k p. unfold cell_at at 1. rewrite get_at_take_len.
    destruct (Z.ltb_spec k (Z.of_nat n)) as [Hk|Hk].
    + fold (cell_at mem' k p). rewrite Hcells.
      destruct (decide (k = Z.of_nat n + ks ∧ p = sourceRow)) as [[? _]|_]; [lia|].
      destruct (decide (k = kd ∧ p = row)); [done|].
      unfold cell_at. by rewrite Hmemd.
    + simpl. destruct (decide (k = kd ∧ p = row)) as [[? _]|_]; [lia|].
      unfold cell_at. destruct (get_at (componentArrays dst) k) eqn:Hcol; [|done].
      apply get_at_lt in Hcol. lia.
  - intros k p. unfold cell_at at 1. rewrite get_at_drop.
    destruct (Z.leb_spec 0 k) as [Hk|Hk].
    + fold (cell_at mem' (Z.of_nat n + k) p). rewrite Hcells.
      destruct (decide (Z.of_nat n + k = Z.of_nat n + ks ∧ p = sourceRow)) as [[? ->]|Hno].
      * assert (k = ks) as -> by lia.
        destruct (decide (ks = ks ∧ sourceRow = sourceRow)) as [_|Hno]; [done|].
        by destruct Hno.
      * destruct (decide (k = ks ∧ p = sourceRow)) as [[-> ->]|_];
          [by destruct Hno|].
        destruct (decide (Z.of_nat n + k = kd ∧ p = row)) as [[? _]|_]; [lia|].
        unfold cell_at. by rewrite Hmems.
    + simpl. destruct (decide (k = ks ∧ p = sourceRow)) as [[? _]|_]; [lia|].
      unfold cell_at. destruct (get_at (componentArrays src) k) eqn:Hcol; [|done].
      apply get_at_lt in Hcol. lia.
Qed.

Lemma same_shape_refl m : same_shape m m.
Proof. do 5 (split; [done|]). intros k col Hcol. by exists col. Qed.

Lemma same_shape_trans m1 m2 m3 :
  same_shape m1 m2 → same_shape m2 m3 → same_shape m1 m3.
Proof.
  intros (? & ? & ? & ? & ? & H12) (? & ? & ? & ? & ? & H23).
  do 5 (split; [congruence|]). intros k col Hcol.
  destruct (H12 k col Hcol) as (col2 & Hcol2 & Hlen2).
  destruct (H23 k col2 Hcol2) as (col3 & Hcol3 & Hlen3).
  exists col3. split; [done | congruence].
Qed.

(** The [EachCommonComponent] call of [MoveEntity], between two different
    blocks. *)
Lemma moveCommon_all this source row sourceRow cs :
  this ≠ source → NoDup cs →
  ∀ ms dst src,
  get_at ms this = Some dst → get_at ms source = Some src →
  (∀ c, c ∈ cs →
     ∃ kd cold, get_at (internalIndex dst) c = Some kd ∧
                get_at (componentArrays dst) kd = Some cold ∧ 0 ≤ row < len cold) →
  (∀ c, c ∈ cs →
     ∃ ks x, get_at (internalIndex src) c = Some ks ∧
             cell_at (componentArrays src) ks sourceRow = Some x) →
  (∀ c1 c2 k, c1 ∈ cs → c2 ∈ cs →
     get_at (internalIndex dst) c1 = Some k → get_at (internalIndex dst) c2 = Some k →
     c1 = c2) →
  (∀ c1 c2 k, c1 ∈ cs → c2 ∈ cs →
     get_at (internalIndex src) c1 = Some k → get_at (internalIndex src) c2 = Some k →
     c1 = c2) →
  ∃ ms' dst' src',
    foldM (λ managers componentId,
             moveCommon managers this source row sourceRow componentId) ms cs
    = Some ms' ∧
    len ms' = len ms ∧
    get_at ms' this = Some dst' ∧ get_at ms' source = Some src' ∧
    (∀ b, b ≠ this → b ≠ source → get_at ms' b = get_at ms b) ∧
    same_shape dst dst' ∧ same_shape src src' ∧
    (∀ k p, p ≠ row →
       cell_at (componentArrays dst') k p = cell_at (componentArrays dst) k p) ∧
    (∀ k p, p ≠ sourceRow →
       cell_at (componentArrays src') k p = cell_at (componentArrays src) k p) ∧
    (∀ k, (∀ c, c ∈ cs → get_at (internalIndex dst) c ≠ Some k) →
       cell_at (componentArrays dst') k row = cell_at (componentArrays dst) k row) ∧
    (∀ c kd ks, c ∈ cs →
       get_at (internalIndex dst) c = Some kd → get_at (internalIndex src) c = Some ks →
       cell_at (componentArrays dst') kd row
       = cell_at (componentArrays src) ks sourceRow).
Proof.
  intros Hne Hnodup. induction cs as [|c cs IH];
    intros ms dst src Hdst Hsrc Hd Hs Hinjd Hinjs.
  - exists ms, dst, src. simpl. do 5 (split; [done|]).
    split; [apply same_shape_refl|]. split; [apply same_shape_refl|].
    do 3 (split; [done|]). by intros c kd ks ?%elem_of_nil.
  - apply NoDup_cons in Hnodup as [Hfresh Hnodup].
    destruct (Hd c ltac:(left)) as (kd & cold & Hkd & Hcold & Hrow).
    destruct (Hs c ltac:(left)) as (ks & x & Hks & Hx).
    destruct (moveCommon_spec ms this source row sourceRow c dst src kd ks cold x)
      as (arraysd & arrayss & Hstep & Hcolsd & Hcolss & Hcellsd & Hcellss); try done.
    set (dst1 := ArchetypeManager.mk (id dst) (recordIndices dst) arraysd
                   (internalIndex dst) (capacity dst) (size dst)) in *.
    set (src1 := ArchetypeManager.mk (id src) (recordIndices src) arrayss
                   (internalIndex src) (capacity src) (size src)) in *.
    set (ms1 := <[Z.to_nat source := src1]> (<[Z.to_nat this := dst1]> ms)) in *.
    pose proof (get_at_lt _ _ _ Hdst) as Hthis.
    pose proof (get_at_lt _ _ _ Hsrc) as Hsource.
    assert (Hdst1 : get_at ms1 this = Some dst1).
    { unfold ms1. rewrite get_at_insert_ne by lia. by apply get_at_insert_eq. }
    assert (Hsrc1 : get_at ms1 source = Some src1).
    { unfold ms1. apply get_at_insert_eq. by rewrite len_insert. }
    assert (Hshaped : same_shape dst dst1) by (by do 5 (split; [done|])).
    assert (Hshapes : same_shape src src1) by (by do 5 (split; [done|])).
    destruct (IH Hnodup ms1 dst1 src1 Hdst1 Hsrc1)
      as (ms' & dst' & src' & Hrun & Hlen & Hdst' & Hsrc' & Hothers & Hshaped' &
          Hshapes' & Hrowsd & Hrowss & Hframe & Hmoved).
    { intros c' Hc'. destruct (Hd c' ltac:(by right)) as (kd' & cold' & Hkd' & Hcold' & Hrow').
      destruct (Hcolsd kd' cold' Hcold') as (col' & Hcol' & Hlen').
      exists kd', col'. split; [done|]. split; [done | lia]. }
    { intros c' Hc'. destruct (Hs c' ltac:(by right)) as (ks' & x' & Hks' & Hx').
      exists ks', x'. split; [done|]. simpl. rewrite Hcellss.
      destruct (decide (ks' = ks ∧ sourceRow = sourceRow)) as [[-> _]|_]; [|done].
      exfalso. apply Hfresh.
      by rewrite (Hinjs c c' ks ltac:(left) ltac:(by right) Hks Hks'). }
    { intros c1 c2 k Hc1 Hc2. apply Hinjd; by right. }
    { intros c1 c2 k Hc1 Hc2. apply Hinjs; by right. }
    exists ms', dst', src'. split; [simpl; by rewrite Hstep|].
    split; [by rewrite Hlen; unfold ms1; rewrite !len_insert|].
    split; [done|]. split; [done|]. split.
    { intros b Hb1 Hb2. rewrite Hothers by done. unfold ms1.
      by rewrite !get_at_insert_ne by lia. }
    split; [by apply (same_shape_trans _ dst1)|].
    split; [by apply (same_shape_trans _ src1)|].
    split; [|split; [|split]].
    + intros k p Hp. rewrite Hrowsd by done. simpl. rewrite Hcellsd.
      destruct (decide (k = kd ∧ p = row)) as [[_ ?]|_]; done.
    + intros k p Hp. rewrite Hrowss by done. simpl. rewrite Hcellss.
      destruct (decide (k = ks ∧ p = sourceRow)) as [[_ ?]|_]; done.
    + intros k Hk. rewrite Hframe by (intros c' Hc'; apply Hk; by right).
      simpl. rewrite Hcellsd.
      destruct (decide (k = kd ∧ row = row)) as [[-> _]|_]; [|done].
      exfalso. by apply (Hk c ltac:(left)).
    + intros c' kd' ks' [->|Hc']%elem_of_cons Hkd' Hks'.
      * assert (kd' = kd) as -> by congruence. assert (ks' = ks) as -> by congruence.
        rewrite Hframe.
        -- simpl. rewrite Hcellsd, Hx.
           destruct (decide (kd = kd ∧ row = row)) as [_|Hno]; [done | by destruct Hno].
        -- intros c' Hc' Hk'. apply Hfresh.
           by rewrite (Hinjd c c' kd ltac:(left) ltac:(by right) Hkd Hk').
      * rewrite (Hmoved c' kd' ks' Hc' Hkd' Hks'). simpl. rewrite Hcellss.
        destruct (decide (ks' = ks ∧ sourceRow = sourceRow)) as [[-> _]|_]; [|done].
        exfalso. apply Hfresh.
        by rewrite (Hinjs c c' ks ltac:(left) ltac:(by right) Hks Hks').
Qed.

(** What the entities read when only cells of other rows change. *)
Lemma read_same_cells s s' h b r m m' T :
  entity s h b r → entity s' h b r → recordIndex h ≠ InvalidIndex →
  get_at (managers s) b = Some m → get_at (managers s') b = Some m' →
  same_shape m m' →
  columns_ok m (size m) →
  Component_Id T ∈ EachComponent (id m) →
  (∀ k, cell_at (componentArrays m') k r = cell_at (componentArrays m) k r) →
  read s' h T = read s h T.
Proof.
  intros Hentity Hentity' Hvalid Hm Hm' (Hid & Hri & Hii & Hcap & Hsize & Hcolumns)
    Hcols HT Hcells.
  destruct (columns_ok_lookup m _ T Hcols HT) as (k & col & Hk & Hused & Hcol & _).
  destruct (Hcolumns k col Hcol) as (col' & Hcol' & _).
  rewrite (read_cell s h T b r m k col) by done.
  rewrite (read_cell s' h T b r m' k col') by (done || congruence).
  apply Hcells.
Qed.

(** X19: [MoveEntity], which moves the entity of row [row] of the block
    [source] to the block [this], a different block, in a state that is in
    order, with all allocations succeeding, fewer than 65535 slots in the
    active range and a capacity of the block [this] that can still grow
    within an [Index].  The state stays in order.  The record returned is a
    new one, not the record of the entity: its handle [h'] differs from the
    handle [h] the entity had, and names a new row of the block [this] that
    reads, in the components both blocks have, what [h] read.  When the
    entity was not in the last row of its block, [h] is refused by [Access]
    from then on.  Every other entity keeps its handle and the values of
    its components, and its row too, except the entity of the last row of
    the block [source], which takes the row of the entity moved. *)
Theorem MoveEntity_moves_entity alloc_ok s this source h row dst :
  (∀ n, alloc_ok n = true) →
  state_ok s →
  EntityRecord.last (pool s) < 65535 →
  this ≠ source →
  get_at (managers s) this = Some dst →
  (size dst = capacity dst → grow (capacity dst) < 65536) →
  entity s h source row →
  ∃ s' h' src,
    MoveEntity alloc_ok s this source row
    = Returns (s', EntityRecord.At (recordIndex h')) ∧
    state_ok s' ∧
    get_at (managers s) source = Some src ∧
    h' ≠ h ∧
    entity s' h' this (size dst) ∧
    (∀ T, Component_Id T ∈ EachComponent (id dst) →
          Component_Id T ∈ EachComponent (id src) →
          read s' h' T = read s h T) ∧
    (row < size src - 1 →
     ∀ Components, Access s' h Components = Some (false, None)) ∧
    (∀ h0 a0 row0,
       entity s h0 a0 row0 → h0 ≠ h →
       h0 ≠ h' ∧
       entity s' h0 a0
         (if decide (a0 = source ∧ row0 = size src - 1) then row else row0) ∧
       ∀ m0 T, get_at (managers s) a0 = Some m0 →
               Component_Id T ∈ EachComponent (id m0) →
               read s' h0 T = read s h0 T).
Proof.
  intros Hok Hstate Hlast Hne Hdst Hfit Hentity.
  pose proof Hentity as (src & Hsrc & Hrow & Hslot & Hrec).
  pose proof Hstate as (_ & _ & Hblocks).
  (* the new record and row *)
  destruct (reserve_and_initialise alloc_ok s this dst [] [] Hok Hstate Hlast Hdst Hfit)
    as (s1 & h' & _ & Hres & Hstate1 & Hentity1 & (dst1 & Hdst1 & Hid1 & Hsize1) &
        Hothers1 & _ & _ & Hframe1); [constructor | constructor | done |].
  destruct (Hres eq_refl) as [Hreserve _]. clear Hres.
  pose proof Hstate1 as (_ & _ & Hblocks1).
  assert (Hsrc1 : get_at (managers s1) source = Some src).
  { rewrite Hothers1; [done|]. by intros ->. }
  destruct (Hframe1 h source row Hentity) as (Hhh' & Hentityh1 & Hreadsh1).
  pose proof Hentity1 as (dst1' & Hdst1' & Hrow' & Hslot' & Hrec').
  assert (dst1' = dst1) as -> by congruence.
  destruct (Hblocks1 this dst1 Hdst1) as (Hsized & Hcapd & _ & Hcolsd & Hrowsd).
  destruct (Hblocks1 source src Hsrc1) as (Hsizes & Hcaps & _ & Hcolss & Hrowss).
  assert (Hvalid' : recordIndex h' ≠ InvalidIndex).
  { destruct (Hrowsd (size dst) Hrow') as (i & v & Hi & _ & Hsmall & _).
    assert (i = recordIndex h') as -> by congruence. unfold InvalidIndex. lia. }
  assert (Hvalidity : ∀ st h0 a0 row0, state_ok st → entity st h0 a0 row0 →
                        recordIndex h0 ≠ InvalidIndex).
  { intros st h0 a0 row0 (_ & _ & Hb) (m0 & Hm0 & Hr0 & Hs0 & _).
    destruct (Hb a0 m0 Hm0) as (_ & _ & _ & _ & Hrows0).
    destruct (Hrows0 row0 Hr0) as (i & v & Hi & _ & Hsmall & _).
    assert (i = recordIndex h0) as -> by congruence. unfold InvalidIndex. lia. }
  (* the common components *)
  set (cs := EachCommonComponent (id dst1) (id src)).
  destruct (moveCommon_all this source (size dst) row cs Hne
              (EachCommonComponent_NoDup _ _) (managers s1) dst1 src Hdst1 Hsrc1)
    as (ms2 & dst2 & src2 & Hfold & Hlen2 & Hdst2 & Hsrc2 & Hothers2 & Hshaped &
        Hshapes & Hcellsd & Hcellss & _ & Hmoved).
  { intros c [Hc _]%EachCommonComponent_elem.
    destruct (columns_ok_lookup dst1 _ (mkCType 0 c) Hcolsd Hc)
      as (kd & cold & Hkd & _ & Hcold & Hlencold).
    exists kd, cold. split; [done|]. split; [done | lia]. }
  { intros c [_ Hc]%EachCommonComponent_elem.
    destruct (columns_ok_lookup src _ (mkCType 0 c) Hcolss Hc)
      as (ks & cols & Hks & _ & Hcols & Hlencols).
    destruct (get_at_is_Some cols row ltac:(lia)) as [x Hx].
    exists ks, x. split; [done|]. unfold cell_at. by rewrite Hcols. }
  { intros c1 c2 k [Hc1 _]%EachCommonComponent_elem [Hc2 _]%EachCommonComponent_elem.
    by apply (columns_ok_inj dst1 _ c1 c2 k Hcolsd). }
  { intros c1 c2 k [_ Hc1]%EachCommonComponent_elem [_ Hc2]%EachCommonComponent_elem.
    by apply (columns_ok_inj src _ c1 c2 k Hcolss). }
  set (s2 := mkState (pool s1) ms2).
  assert (Hshape2 : ∀ b m, get_at (managers s1) b = Some m →
            ∃ m', get_at (managers s2) b = Some m' ∧ same_shape m m' ∧
                  ∀ k r, (b = this → r ≠ size dst) → (b = source → r ≠ row) →
                         cell_at (componentArrays m') k r
                         = cell_at (componentArrays m) k r).
  { intros b m Hm. simpl. destruct (Z.eq_dec b this) as [->|Hb1].
    - assert (m = dst1) as -> by congruence. exists dst2.
      split; [done|]. split; [done|]. intros k r Hr _. apply Hcellsd. by apply Hr.
    - destruct (Z.eq_dec b source) as [->|Hb2].
      + assert (m = src) as -> by congruence. exists src2.
        split; [done|]. split; [done|]. intros k r _ Hr. apply Hcellss. by apply Hr.
      + exists m. rewrite Hothers2 by done. split; [done|].
        split; [apply same_shape_refl | done]. }
  assert (Hstate2 : state_ok s2).
  { apply (state_ok_cells s1); [done | done | done |].
    intros b m Hm. destruct (Hshape2 b m Hm) as (m' & Hm' & Hshape & _).
    exists m'. split; [done|]. exact Hshape. }
  assert (Hentity2 : ∀ h0 a0 row0, entity s1 h0 a0 row0 → entity s2 h0 a0 row0).
  { intros h0 a0 row0 (m0 & Hm0 & Hr0 & Hs0 & Hrec0).
    destruct (Hshape2 a0 m0 Hm0) as (m' & Hm' & (_ & Hri & _ & _ & Hsize & _) & _).
    exists m'. rewrite Hsize, Hri. done. }
  (* the source row *)
  destruct (Destroy_spec s2 h source row Hstate2 (Hentity2 _ _ _ Hentityh1))
    as (s3 & src2' & src3 & Hdestroy & Hstate3 & Hsrc2' & Hsrc3 & Hid3 & Hsize3 &
        Hothers3 & Hstale & Hframe3).
  assert (src2' = src2) as -> by (simpl in Hsrc2'; congruence).
  pose proof (Destroy_RemoveRow s2 h source row s3 _ (Hentity2 _ _ _ Hentityh1)
                (Hvalidity _ _ _ _ Hstate Hentity) Hdestroy) as Hremove.
  destruct Hshapes as (Hids & Hris & Hiis & Hcaps' & Hsizes' & Hcolumnss).
  exists s3, h', src. split.
  { unfold MoveEntity. rewrite Hreserve.
    cbn [mbind outcome_bind defined EntityRecord.read].
    rewrite Hrec'. cbn [mbind outcome_bind defined EntityRecord.row].
    rewrite Hdst1. cbn [mbind outcome_bind defined].
    rewrite Hsrc1. cbn [mbind outcome_bind defined].
    fold cs. rewrite Hfold. cbn [mbind outcome_bind defined].
    rewrite toIndex_small by lia. fold s2. by rewrite Hremove. }
  split; [done|]. split; [done|]. split; [by intros ->|].
  destruct (Hframe3 h' this (size dst) (Hentity2 _ _ _ Hentity1) ltac:(by intros ->))
    as [Hentity3 Hreads3].
  destruct (decide (this = source ∧ size dst = size src2 - 1)) as [[? _]|_]; [done|].
  split; [done|]. split; [|split].
  - (* the values that moved *)
    intros T HTd HTs. rewrite <- Hid1 in HTd.
    destruct Hshaped as (Hidd & Hrid & Hiid & Hcapd' & Hsized' & Hcolumnsd).
    rewrite (Hreads3 dst2 T Hdst2) by (by rewrite Hidd).
    destruct (columns_ok_lookup dst1 _ T Hcolsd HTd) as (kd & cold & Hkd & Husedd & Hcold & _).
    destruct (columns_ok_lookup src _ T Hcolss HTs) as (ks & cols & Hks & Hverds & Hcols & _).
    destruct (Hcolumnsd kd cold Hcold) as (cold' & Hcold' & _).
    rewrite (read_cell s2 h' T this (size dst) dst2 kd cold');
      [| by apply Hentity2 | done | done | congruence | done | done].
    rewrite (Hmoved (Component_Id T) kd ks); [| | done | done].
    + rewrite <- (Hreadsh1 src T Hsrc HTs).
      by rewrite (read_cell s1 h T source row src ks cols)
        by (done || by apply (Hvalidity s h source row)).
    + by apply EachCommonComponent_intro.
  - intros Hinner. apply Hstale. lia.
  - intros h0 a0 row0 Hentity0 Hne0.
    destruct (Hframe1 h0 a0 row0 Hentity0) as (Hne0' & Hentity01 & Hreads01).
    split; [done|].
    destruct (Hframe3 h0 a0 row0 (Hentity2 _ _ _ Hentity01) Hne0)
      as [Hentity03 Hreads03].
    rewrite Hsizes' in Hentity03. split; [done|].
    intros m0 T Hm0 HT.
    pose proof Hentity01 as (m1 & Hm1 & Hr1 & Hs1 & Hrec1).
    destruct (Hshape2 a0 m1 Hm1) as (m2 & Hm2 & Hshape & Hcells).
    assert (Hidm1 : id m1 = id m0).
    { destruct (Z.eq_dec a0 this) as [->|Hat].
      - assert (m0 = dst) as -> by congruence.
        assert (m1 = dst1) as -> by congruence. done.
      - rewrite Hothers1 in Hm1 by done. congruence. }
    rewrite (Hreads03 m2 T Hm2) by (destruct Hshape as (-> & _); by rewrite Hidm1).
    rewrite <- (Hreads01 m0 T Hm0 HT).
    apply (read_same_cells s1 s2 h0 a0 row0 m1 m2 T); try done.
    + by apply Hentity2.
    + by apply (Hvalidity s h0 a0 row0).
    + destruct (Hblocks1 a0 m1 Hm1) as (? & _ & _ & Hcols1 & _).
      apply (columns_ok_mono m1 (capacity m1)); [done | lia].
    + by rewrite Hidm1.
    + intros k. apply Hcells.
      * intros ->. pose proof Hentity0 as (m0' & Hm0' & Hr0 & _).
        assert (m0' = dst) as -> by congruence. lia.
      * intros -> ->. apply Hne0.
        apply (entity_handle_eq s h h0 source row source row); try done.
        destruct Hentity0 as (m0' & Hm0' & _ & Hs0 & _).
        assert (m0' = src) as -> by congruence. congruence.
Qed.

Lemma state_ok_two_blocks : state_ok Examples.two_blocks.
Proof.
  destruct state_ok_state3 as (Hpool & Hlen & Hblocks).
  split; [done|]. split; [unfold len; simpl; lia|].
  intros a m Hm. pose proof (get_at_lt _ _ _ Hm) as Ha.
  unfold len in Ha. simpl in Ha.
  assert (a = 0 ∨ a = 1) as Hcases by lia. destruct Hcases as [Ha'|Ha']; subst a.
  - apply Hblocks. exact Hm.
  - injection Hm as <-. apply block_ok_construct. vm_compute. split; congruence.
Qed.

Lemma MoveEntity_moves_entity_witness :
  ∃ s' h',
    MoveEntity Examples.always Examples.two_blocks 1 0 1
    = Returns (s', EntityRecord.At (recordIndex h')) ∧
    state_ok s' ∧
    entity s' h' 1 0 ∧
    read s' h' Examples.Position = read Examples.two_blocks Examples.e1 Examples.Position ∧
    Access s' Examples.e1 [Examples.Position] = Some (false, None).
Proof.
  destruct (MoveEntity_moves_entity Examples.always Examples.two_blocks 1 0 Examples.e1 1
              (construct (IdBinary Examples.Position)))
    as (s' & h' & src & Hrun & Hok & Hsrc & _ & Hentity & Hreads & Hstale & _).
  - reflexivity.
  - apply state_ok_two_blocks.
  - vm_compute. reflexivity.
  - discriminate.
  - reflexivity.
  - intros _. vm_compute. reflexivity.
  - exists Examples.block3. repeat split; reflexivity || (simpl; lia).
  - injection Hsrc as <-. exists s', h'. split; [done|]. split; [done|].
    split; [done|]. split.
    + apply Hreads; vm_compute; set_solver.
    + apply Hstale. simpl. lia.
Defined.

End Migration.
